(** * thonny/running.py: the backend proxy and the runner

    A shallow embedding of [src/thonny/running.py] (classes [Runner] and
    [CPythonProxy]) and the properties of its message queue, execution
    state, process start-up and command-line synthesis.

    Python objects are modelled as records, dictionaries as [gmap]s, the
    deque as a list whose head is the left end, and every method as a
    computation in a state-and-exception monad: a raised exception keeps
    the state reached at the point of the [raise], as in Python. *)

From stdpp Require Import gmap strings list fin_maps.
From Stdlib Require Import Ascii.

(** ** Values, messages and commands *)

(** The values found in the fields of a message: strings ([data],
    [stream_name], [message_type], [cwd]), integers and lists of strings
    ([path]). Structural equality is Python's [==] on these. *)
Inductive pyval :=
| PStr (s : string)
| PInt (z : Z)
| PSeq (l : list string).

#[global] Instance pyval_eq_dec : EqDecision pyval.
Proof. solve_decision. Defined.

(** A message is the dictionary built by [parse_message]. *)
Abbreviation Message := (gmap string pyval).

Inductive Exn :=
| KeyError (key : string)
| AttributeError (attr : string)
| TypeError
| ValueError (msg : string)
| UserError (msg : string)
| Exception (msg : string)
| OSError
| BrokenPipeError
| AssertionError
| MalformedMessage (line : string).

#[global] Instance Exn_eq_dec : EqDecision Exn.
Proof. solve_decision. Defined.

Inductive Outcome (A : Type) :=
| Return (a : A)
| Raise (e : Exn).
Arguments Return {A} a.
Arguments Raise {A} e.

(** The classes of [thonny.common] that [send_command] tests with
    [isinstance]. *)
Inductive CommandClass :=
| ToplevelCommand
| InlineCommand
| DebuggerCommand
| InputSubmission.

#[global] Instance CommandClass_eq_dec : EqDecision CommandClass.
Proof. solve_decision. Defined.

(** A command object: its class and the attributes that the code reads
    with [hasattr] or attribute access ([None] here: attribute absent). *)
Record Command := mkCommand {
  cmd_class : CommandClass;
  command : option string;
  filename : option string;
  args : option (list string);
  environment : option (gmap string string);
  path : option string;
  data : option string
}.

(** ** The state-and-exception monad *)

Definition M (S A : Type) : Type := S → Outcome A * S.

Definition ret {S A} (a : A) : M S A := λ s, (Return a, s).
Definition raise {S A} (e : Exn) : M S A := λ s, (Raise e, s).
Definition bind {S A B} (m : M S A) (k : A → M S B) : M S B :=
  λ s, match m s with
       | (Return a, s') => k a s'
       | (Raise e, s') => (Raise e, s')
       end.
Definition get {S} : M S S := λ s, (Return s, s).
Definition gets {S A} (f : S → A) : M S A := λ s, (Return (f s), s).
Definition modify {S} (f : S → S) : M S unit := λ s, (Return tt, f s).
Definition lift_outcome {S A} (o : Outcome A) : M S A := λ s, (o, s).

#[global] Instance M_ret {S} : MRet (M S) := λ A a, ret a.
#[global] Instance M_bind {S} : MBind (M S) := λ A B k m, bind m k.

(** [d[key]]: a missing key raises [KeyError]. *)
Definition getitem (d : Message) (key : string) : Outcome pyval :=
  match d !! key with
  | Some v => Return v
  | None => Raise (KeyError key)
  end.

(** [a + b] on the modelled values. *)
Definition py_add (a b : pyval) : Outcome pyval :=
  match a, b with
  | PStr x, PStr y => Return (PStr (x +:+ y))
  | PInt x, PInt y => Return (PInt (x + y))
  | PSeq x, PSeq y => Return (PSeq (x ++ y))
  | _, _ => Raise TypeError
  end.

(** ** Processes, threads and the world outside the proxy *)

(** An OS child process as [subprocess.Popen] shows it: what it was
    started with, the lines written to its stdin, and the lines of its
    stdout and stderr that have not been read yet ([[]] is end of
    stream). [p_alive] is [poll() is None]. *)
Record Process := mkProcess {
  p_cmd_line : list string;
  p_env : gmap string string;
  p_cwd : string;
  p_stdin : list string;
  p_stdout : list string;
  p_stderr : list string;
  p_alive : bool
}.

(** What the operating system does with the next [Popen]: fail, or start
    a child that will write the given lines. *)
Inductive Spawn :=
| SpawnFails
| Spawns (out err : list string).

Inductive Listener := ListenStdout | ListenStderr.

#[global] Instance Listener_eq_dec : EqDecision Listener.
Proof. solve_decision. Defined.

(** A thread started with [start_new_thread]: its target, the line it
    has read from the pipe and not handled yet, and whether it is still
    running (it ends when its loop breaks or raises). *)
Record Thread := mkThread {
  t_target : Listener;
  t_pending : option string;
  t_running : bool
}.

Record World := mkWorld {
  environ : gmap string string;        (* os.environ *)
  fs : gset string;                    (* the paths for which os.path.exists holds *)
  procs : list Process;                (* every process spawned so far, by pid *)
  spawn_plan : nat → Spawn;            (* what the n-th Popen will do *)
  threads : list Thread;               (* threads started with start_new_thread *)
  events : list (string * Message);    (* get_workbench().event_generate calls *)
  shell_submitted : list string;       (* ShellView.submit_command calls *)
  run_working_directory : string;      (* the option "run.working_directory" *)
  home : string                        (* os.path.expanduser("~") *)
}.

(** The instance attributes of [CPythonProxy] ([__init__], lines 310-326).
    [_state_lock] carries no data: the control thread is the only one
    that takes it reentrantly, and a listener holds it for its
    [append] only. *)
Record Proxy := mkProxy {
  _executable : string;
  cwd : pyval;
  _proc : option nat;
  _state : option string;
  _message_queue : option (list Message);
  _sys_path : pyval
}.

Definition St : Type := Proxy * World.

Definition set_cwd (v : pyval) (p : Proxy) : Proxy :=
  mkProxy (_executable p) v (_proc p) (_state p) (_message_queue p) (_sys_path p).
Definition set_proc (v : option nat) (p : Proxy) : Proxy :=
  mkProxy (_executable p) (cwd p) v (_state p) (_message_queue p) (_sys_path p).
Definition set_state_field (v : option string) (p : Proxy) : Proxy :=
  mkProxy (_executable p) (cwd p) (_proc p) v (_message_queue p) (_sys_path p).
Definition set_message_queue (v : option (list Message)) (p : Proxy) : Proxy :=
  mkProxy (_executable p) (cwd p) (_proc p) (_state p) v (_sys_path p).
Definition set_sys_path (v : pyval) (p : Proxy) : Proxy :=
  mkProxy (_executable p) (cwd p) (_proc p) (_state p) (_message_queue p) v.

Definition set_fs (v : gset string) (w : World) : World :=
  mkWorld (environ w) v (procs w) (spawn_plan w) (threads w) (events w) (shell_submitted w)
    (run_working_directory w) (home w).
Definition set_procs (v : list Process) (w : World) : World :=
  mkWorld (environ w) (fs w) v (spawn_plan w) (threads w) (events w) (shell_submitted w)
    (run_working_directory w) (home w).
Definition set_threads (v : list Thread) (w : World) : World :=
  mkWorld (environ w) (fs w) (procs w) (spawn_plan w) v (events w) (shell_submitted w)
    (run_working_directory w) (home w).
Definition set_events (v : list (string * Message)) (w : World) : World :=
  mkWorld (environ w) (fs w) (procs w) (spawn_plan w) (threads w) v (shell_submitted w)
    (run_working_directory w) (home w).
Definition set_shell_submitted (v : list string) (w : World) : World :=
  mkWorld (environ w) (fs w) (procs w) (spawn_plan w) (threads w) (events w) v
    (run_working_directory w) (home w).

Definition on_proxy (f : Proxy → Proxy) : M St unit := modify (λ s, (f s.1, s.2)).
Definition on_world (f : World → World) : M St unit := modify (λ s, (s.1, f s.2)).

(** ** The message queue: [_fetch_next_message], lines 342-366 *)

(** The [while True] loop of lines 352-363, on the popped [msg] and the
    deque [q]. Each round pops the left end of [q], so the deque left
    behind by a [raise] has lost the events popped so far. *)
Fixpoint merge_output (msg : Message) (q : list Message)
  : Outcome Message * list Message :=
  match q with
  | [] => (Return msg, [])
  | next_msg :: q' =>
      match getitem next_msg "message_type" with
      | Raise e => (Raise e, q')
      | Return ty =>
          if decide (ty = PStr "ProgramOutput") then
            match getitem next_msg "stream_name" with
            | Raise e => (Raise e, q')
            | Return next_stream =>
                match getitem msg "stream_name" with
                | Raise e => (Raise e, q')
                | Return stream =>
                    if decide (next_stream = stream) then
                      match getitem msg "data" with
                      | Raise e => (Raise e, q')
                      | Return d =>
                          match getitem next_msg "data" with
                          | Raise e => (Raise e, q')
                          | Return next_d =>
                              match py_add d next_d with
                              | Raise e => (Raise e, q')
                              | Return sum =>
                                  merge_output (<["data" := sum]> msg) q'
                              end
                          end
                      end
                    else (Return msg, next_msg :: q')
                end
            end
          else (Return msg, next_msg :: q')
      end
  end.

Definition _fetch_next_message : M St (option Message) :=
  q ← gets (λ s, _message_queue s.1);
  match q with
  | None => ret None
  | Some [] => ret None
  | Some (msg :: q') =>
      on_proxy (set_message_queue (Some q'));;
      ty ← lift_outcome (getitem msg "message_type");
      if decide (ty = PStr "ProgramOutput") then
        let r := merge_output msg q' in
        on_proxy (set_message_queue (Some r.2));;
        merged ← lift_outcome r.1;
        ret (Some merged)
      else ret (Some msg)
  end.

(** What [fetch_next_message] does after [_fetch_next_message] has
    returned the event [m]. *)
Definition state_after (m : Message) (old : option string) : option string :=
  match m !! "message_type" with
  | Some ty =>
      if decide (ty = PStr "ToplevelResult") then Some "waiting_toplevel_command"
      else if decide (ty = PStr "DebuggerProgress") then Some "waiting_debug_command"
      else if decide (ty = PStr "InputRequest") then Some "waiting_input"
      else old
  | None => old
  end.

(** ** Strings: the helpers of the Python library that the code calls *)

Definition nl : string := String (ascii_of_nat 10) EmptyString.

(** [str.lower] on the ASCII letters; every other byte is kept. *)
Definition lower_ascii (c : ascii) : ascii :=
  let n := nat_of_ascii c in
  if (65 <=? n)%nat && (n <=? 90)%nat then ascii_of_nat (n + 32) else c.

Fixpoint lower (s : string) : string :=
  match s with
  | EmptyString => EmptyString
  | String c s' => String (lower_ascii c) (lower s')
  end.

(** [''.join(parts)] *)
Definition join_strings (parts : list string) : string :=
  foldr String.append "" parts.

(** [sub in s] for strings. *)
Fixpoint contains (sub s : string) : bool :=
  String.prefix sub s ||
  match s with
  | EmptyString => false
  | String _ s' => contains sub s'
  end.

(** ** Operating-system primitives on the world *)

Definition set_p_stdin (v : list string) (pr : Process) : Process :=
  mkProcess (p_cmd_line pr) (p_env pr) (p_cwd pr) v (p_stdout pr) (p_stderr pr) (p_alive pr).
Definition set_p_stdout (v : list string) (pr : Process) : Process :=
  mkProcess (p_cmd_line pr) (p_env pr) (p_cwd pr) (p_stdin pr) v (p_stderr pr) (p_alive pr).
Definition set_p_stderr (v : list string) (pr : Process) : Process :=
  mkProcess (p_cmd_line pr) (p_env pr) (p_cwd pr) (p_stdin pr) (p_stdout pr) v (p_alive pr).
Definition set_p_alive (v : bool) (pr : Process) : Process :=
  mkProcess (p_cmd_line pr) (p_env pr) (p_cwd pr) (p_stdin pr) (p_stdout pr) (p_stderr pr) v.

(** The process behind a handle. Handles only come from [Popen], so the
    lookup succeeds on every handle the proxy holds; a dangling one is
    reported as [OSError]. *)
Definition the_process (pid : nat) : M St Process :=
  w ← gets snd;
  match procs w !! pid with
  | Some pr => ret pr
  | None => raise OSError
  end.

Definition update_process (pid : nat) (f : Process → Process) : M St unit :=
  on_world (λ w, set_procs (alter f pid (procs w)) w).

(** [os.path.exists(path)] *)
Definition path_exists (path : string) : M St bool :=
  gets (λ s, bool_decide (path ∈ fs s.2)).

(** [subprocess.Popen(cmd_line, stdin=PIPE, stdout=PIPE, stderr=PIPE,
    cwd=cwd, env=env, universal_newlines=True)]: the new process gets the
    next pid. *)
Definition Popen (cmd_line : list string) (dir : pyval) (env : gmap string string)
  : M St nat :=
  match dir with
  | PStr d =>
      w ← gets snd;
      match spawn_plan w (length (procs w)) with
      | SpawnFails => raise OSError
      | Spawns out err =>
          on_world (set_procs (procs w ++ [mkProcess cmd_line env d [] out err true]));;
          ret (length (procs w))
      end
  | _ => raise TypeError
  end.

(** [proc.poll() is None] *)
Definition poll_is_None (pid : nat) : M St bool :=
  pr ← the_process pid; ret (p_alive pr).

(** [proc.kill()] *)
Definition proc_kill (pid : nat) : M St unit :=
  update_process pid (set_p_alive false).

(** [proc.stdout.readline()]: the next line, or the empty string at the
    end of the stream. *)
Definition stdout_readline (pid : nat) : M St string :=
  pr ← the_process pid;
  match p_stdout pr with
  | [] => ret ""
  | line :: rest => update_process pid (set_p_stdout rest);; ret line
  end.

Definition stderr_readline (pid : nat) : M St string :=
  pr ← the_process pid;
  match p_stderr pr with
  | [] => ret ""
  | line :: rest => update_process pid (set_p_stderr rest);; ret line
  end.

(** [proc.stderr.read()]: everything up to the end of the stream. *)
Definition stderr_read (pid : nat) : M St string :=
  pr ← the_process pid;
  update_process pid (set_p_stderr []);;
  ret (join_strings (p_stderr pr)).

(** [proc.stdin.write(text); proc.stdin.flush()]: the pipe of a process
    that has ended is broken. *)
Definition stdin_write (pid : nat) (text : string) : M St unit :=
  pr ← the_process pid;
  if p_alive pr then update_process pid (set_p_stdin (p_stdin pr ++ [text]))
  else raise BrokenPipeError.

(** [start_new_thread(target, ())] *)
Definition start_new_thread (target : Listener) : M St unit :=
  on_world (λ w, set_threads (threads w ++ [mkThread target None true]) w).

(** [get_workbench().event_generate(sequence, **msg)] *)
Definition event_generate (sequence : string) (msg : Message) : M St unit :=
  on_world (λ w, set_events (events w ++ [(sequence, msg)]) w).

(** ** [CPythonProxy] *)

Definition DEFAULT_CPYTHON_INTERPRETER : string := "default".

Section Proxy.

(** The functions of [thonny.common] and the launcher preparation are
    not part of [running.py]; the proxy is modelled over any of them.
    [parse_message] either returns the decoded dictionary or raises;
    [_prepare_launcher] works on the file system and returns the path of
    the launcher script; [_get_private_venv_executable] asserts that the
    private interpreter exists and returns its path. *)
Variable parse_message : string → Outcome Message.
Variable serialize_message : Command → string.
Variable _prepare_launcher : gset string → Outcome string * gset string.
Variable _get_private_venv_executable : World → Outcome string.

(** [CPythonProxy.__init__], lines 310-326 *)
Definition CPythonProxy_init (configuration_option : string) (w : World)
  : Outcome Proxy :=
  let executable :=
    if decide (configuration_option = DEFAULT_CPYTHON_INTERPRETER)
    then _get_private_venv_executable w
    else Return configuration_option in
  match executable with
  | Raise e => Raise e
  | Return exe =>
      let dir := run_working_directory w in
      Return (mkProxy exe
                (if bool_decide (dir ∈ fs w) then PStr dir else PStr (home w))
                None None None (PSeq []))
  end.

(** [_set_state], lines 403-406 *)
Definition _set_state (state : string) : M St unit :=
  old ← gets (λ s, _state s.1);
  if decide (old ≠ Some state) then on_proxy (set_state_field (Some state))
  else ret tt.

(** [get_state], lines 396-398 *)
Definition get_state : M St (option string) := gets (λ s, _state s.1).

(** [get_sys_path], lines 400-401 *)
Definition get_sys_path : M St pyval := gets (λ s, _sys_path s.1).

(** [fetch_next_message], lines 328-339 *)
Definition fetch_next_message : M St (option Message) :=
  msg ← _fetch_next_message;
  match msg with
  | None => ret None
  | Some m =>
      ty ← lift_outcome (getitem m "message_type");
      (if decide (ty = PStr "ToplevelResult") then
         _set_state "waiting_toplevel_command"
       else if decide (ty = PStr "DebuggerProgress") then
         _set_state "waiting_debug_command"
       else if decide (ty = PStr "InputRequest") then
         _set_state "waiting_input"
       else ret tt);;
      ret (Some m)
  end.

(** [kill_current_process], lines 409-413 *)
Definition kill_current_process : M St unit :=
  proc ← gets (λ s, _proc s.1);
  match proc with
  | None => ret tt
  | Some pid =>
      running ← poll_is_None pid;
      if running : bool then
        proc_kill pid;;
        on_proxy (set_proc None);;
        on_proxy (set_message_queue None)
      else ret tt
  end.

(** The loop of lines 482-486 over [os.environ]. *)
Definition keep_variable (name : string) : bool :=
  negb (contains "python" (lower name))
  && negb (bool_decide (name ∈ ["TK_LIBRARY"; "TCL_LIBRARY"])).

Definition filter_environ (env : gmap string string) : gmap string string :=
  filter (λ kv, keep_variable kv.1 = true) env.

(** Lines 482-493 and 516-517: the environment of the child. *)
Definition child_environment (cmd : Command) (env : gmap string string)
  : gmap string string :=
  let my_env := filter_environ env in
  let my_env := <["PYTHONIOENCODING" := "ASCII"]> my_env in
  let my_env := <["PYTHONUNBUFFERED" := "1"]> my_env in
  match environment cmd with
  | Some overrides => overrides ∪ my_env
  | None => my_env
  end.

(** Lines 502-514: the argument vector of the child. *)
Definition child_cmd_line (exe backend_launcher : string) (cmd : Command)
  : list string :=
  [exe; "-u"; "-B"; backend_launcher] ++
  match filename cmd with
  | Some f => f :: match args cmd with Some a => a | None => [] end
  | None => []
  end.

(** Lines 531-543 of [_start_new_process]: the handshake with the
    process just spawned, and the listeners. *)
Definition handshake (pid : nat) : M St unit :=
  ready_line ← stdout_readline pid;
  if decide (ready_line = "") then
    error_msg ← stderr_read pid;
    raise (Exception ("Error starting backend process: " +:+ error_msg))
  else
    ready_msg ← lift_outcome (parse_message ready_line);
    sys_path ← lift_outcome (getitem ready_msg "path");
    on_proxy (set_sys_path sys_path);;
    event_generate "BackendReady" ready_msg;;
    start_new_thread ListenStdout;;
    start_new_thread ListenStderr.

(** [self._prepare_launcher()] *)
Definition prepare_launcher : M St string :=
  λ s, let r := _prepare_launcher (fs s.2) in (r.1, (s.1, set_fs r.2 s.2)).

(** [_start_new_process], lines 478-543 *)
Definition _start_new_process (cmd : Command) : M St unit :=
  on_proxy (set_message_queue (Some []));;
  host_env ← gets (λ s, environ s.2);
  let my_env := child_environment cmd host_env in
  exe ← gets (λ s, _executable s.1);
  found ← path_exists exe;
  if negb found then
    raise (UserError ("Interpreter (" +:+ exe +:+
                      ") not found. Please recheck corresponding option!"))
  else
    backend_launcher ← prepare_launcher;
    let cmd_line := child_cmd_line exe backend_launcher cmd in
    dir ← gets (λ s, cwd s.1);
    pid ← Popen cmd_line dir my_env;
    on_proxy (set_proc (Some pid));;
    handshake pid.

(** [send_command], lines 373-391. The test of line 374 reads
    [cmd.command] of an [InlineCommand]; line 383 reads it for a
    [ToplevelCommand]. *)
Definition send_command (cmd : Command) : M St unit :=
  (if decide (cmd_class cmd = InlineCommand) then
     match command cmd with
     | None => raise (AttributeError "command")
     | Some _ => ret tt
     end
   else ret tt);;
  (if bool_decide (cmd_class cmd ∈ [ToplevelCommand; DebuggerCommand; InputSubmission])
   then _set_state "running" else ret tt);;
  (if decide (cmd_class cmd = ToplevelCommand) then
     match command cmd with
     | None => raise (AttributeError "command")
     | Some c =>
         if bool_decide (c ∈ ["Run"; "Debug"; "Reset"]) then
           kill_current_process;;
           _start_new_process cmd
         else ret tt
     end
   else ret tt);;
  proc ← gets (λ s, _proc s.1);
  match proc with
  | None => raise (AttributeError "stdin")
  | Some pid => stdin_write pid (serialize_message cmd +:+ nl)
  end.

(** [send_program_input], lines 393-394 *)
Definition send_program_input (text : string) : M St unit :=
  send_command (mkCommand InputSubmission None None None None None (Some text)).

(** Line 549 of [_listen_stdout]: one read from the stdout pipe of the
    process that [self._proc] names at that moment. *)
Definition _listen_stdout_read : M St string :=
  proc ← gets (λ s, _proc s.1);
  match proc with
  | None => raise (AttributeError "stdout")
  | Some pid => stdout_readline pid
  end.

(** Lines 551-559 of [_listen_stdout] on the line read; [false] is
    [break]. The queue is the one that [self._message_queue] names when
    the lock is held. *)
Definition _listen_stdout_handle (line : string) : M St bool :=
  if decide (line = "") then ret false
  else
    msg ← lift_outcome (parse_message line);
    match msg !! "cwd" with
    | Some dir => on_proxy (set_cwd dir)
    | None => ret tt
    end;;
    q ← gets (λ s, _message_queue s.1);
    match q with
    | None => raise (AttributeError "append")
    | Some q => on_proxy (set_message_queue (Some (q ++ [msg])));; ret true
    end.

(** [_listen_stdout], lines 545-559, run for at most [fuel] rounds of
    its [while True]; [None]: the loop has not ended within the fuel. *)
Fixpoint _listen_stdout (fuel : nat) : M St (option unit) :=
  match fuel with
  | O => ret None
  | S fuel' =>
      line ← _listen_stdout_read;
      continue ← _listen_stdout_handle line;
      if continue : bool then _listen_stdout fuel' else ret (Some tt)
  end.

(** [_listen_stderr], lines 561-568: every line goes to [debug]. *)
Definition _listen_stderr_read : M St string :=
  proc ← gets (λ s, _proc s.1);
  match proc with
  | None => raise (AttributeError "stderr")
  | Some pid => stderr_readline pid
  end.

Definition _listen_stderr_handle (line : string) : M St bool :=
  ret (bool_decide (line ≠ "")).

Fixpoint _listen_stderr (fuel : nat) : M St (option unit) :=
  match fuel with
  | O => ret None
  | S fuel' =>
      line ← _listen_stderr_read;
      continue ← _listen_stderr_handle line;
      if continue : bool then _listen_stderr fuel' else ret (Some tt)
  end.

(** *** The listener threads, one step at a time

    A listener thread alternates between reading a line and handling
    it. An exception ends the thread and reaches nobody else. *)
Definition set_thread (i : nat) (th : Thread) (s : St) : St :=
  (s.1, set_threads (<[i := th]> (threads s.2)) s.2).

Definition thread_step (i : nat) (s : St) : St :=
  match threads s.2 !! i with
  | None => s
  | Some th =>
      if t_running th then
        match t_pending th with
        | None =>
            let r := match t_target th with
                     | ListenStdout => _listen_stdout_read s
                     | ListenStderr => _listen_stderr_read s
                     end in
            match r.1 with
            | Return line => set_thread i (mkThread (t_target th) (Some line) true) r.2
            | Raise _ => set_thread i (mkThread (t_target th) None false) r.2
            end
        | Some line =>
            let r := match t_target th with
                     | ListenStdout => _listen_stdout_handle line s
                     | ListenStderr => _listen_stderr_handle line s
                     end in
            match r.1 with
            | Return continue => set_thread i (mkThread (t_target th) None continue) r.2
            | Raise _ => set_thread i (mkThread (t_target th) None false) r.2
            end
        end
      else s
  end.

(** What the control thread and the listener threads do, interleaved:
    the control thread calls the methods of the proxy, and between two
    calls any listener thread may take a step. [send_command] holds the
    state lock from its first line to its last, and a listener appends
    under that lock, so a listener step falls before or after a call,
    never inside it. *)
Inductive Action :=
| ListenerStep (i : nat)
| SendCommand (cmd : Command)
| FetchNextMessage
| KillCurrentProcess.

(** The state after an action, with the event delivered to the consumer
    if the action was a fetch that returned one. *)
Definition perform (a : Action) (s : St) : option Message * St :=
  match a with
  | ListenerStep i => (None, thread_step i s)
  | SendCommand cmd => (None, (send_command cmd s).2)
  | KillCurrentProcess => (None, (kill_current_process s).2)
  | FetchNextMessage =>
      let r := fetch_next_message s in
      (match r.1 with Return (Some m) => Some m | _ => None end, r.2)
  end.

(** The events delivered by a schedule, in order, and the final state. *)
Fixpoint run (schedule : list Action) (s : St) : list Message * St :=
  match schedule with
  | [] => ([], s)
  | a :: rest =>
      let r := perform a s in
      let r' := run rest r.2 in
      (match r.1 with Some m => m :: r'.1 | None => r'.1 end, r'.2)
  end.

End Proxy.

(** ** Specification vocabulary for the message queue *)

(** The event [ProgramOutput{stream_name, data}]. *)
Definition output_event (stream text : string) : Message :=
  <["message_type" := PStr "ProgramOutput"]>
    (<["stream_name" := PStr stream]> (<["data" := PStr text]> ∅)).

Definition is_output (m : Message) : Prop :=
  m !! "message_type" = Some (PStr "ProgramOutput").

(** An event as the data model has it: tagged by [message_type], and a
    [ProgramOutput] event carries a stream name and a string payload. *)
Definition well_formed (m : Message) : Prop :=
  is_Some (m !! "message_type") ∧
  (is_output m →
   is_Some (m !! "stream_name") ∧ ∃ text, m !! "data" = Some (PStr text)).

(** [next] is an output event of the stream of [msg]. *)
Definition same_stream (msg next : Message) : bool :=
  bool_decide (is_output next ∧ next !! "stream_name" = msg !! "stream_name").

Definition payload (m : Message) : string :=
  match m !! "data" with
  | Some (PStr text) => text
  | _ => ""
  end.

(** The events at the front of [q] that follow [msg] on its stream, and
    what is left behind them. *)
Fixpoint leading_run (msg : Message) (q : list Message) : list Message :=
  match q with
  | next :: q' => if same_stream msg next then next :: leading_run msg q' else []
  | [] => []
  end.

Fixpoint after_run (msg : Message) (q : list Message) : list Message :=
  match q with
  | next :: q' => if same_stream msg next then after_run msg q' else q
  | [] => []
  end.

Definition merged (msg : Message) (run : list Message) : Message :=
  <["data" := PStr (join_strings (payload msg :: map payload run))]> msg.


(** ** [shlex.quote] *)

Definition squote : ascii := ascii_of_nat 39.
Definition dquote : ascii := ascii_of_nat 34.
Definition backslash : ascii := ascii_of_nat 92.

(** The characters outside the class [[^\w@%+=:,./-]] (with [re.ASCII]). *)
Definition is_safe_char (c : ascii) : bool :=
  let n := nat_of_ascii c in
  ((48 <=? n) && (n <=? 57)) || ((65 <=? n) && (n <=? 90)) ||
  ((97 <=? n) && (n <=? 122)) ||
  bool_decide (n ∈ [95; 64; 37; 43; 61; 58; 44; 46; 47; 45]).

Fixpoint all_safe (s : string) : bool :=
  match s with
  | EmptyString => true
  | String c s' => is_safe_char c && all_safe s'
  end.

(** [s.replace("'", "'\"'\"'")] *)
Fixpoint escape_squotes (s : string) : string :=
  match s with
  | EmptyString => EmptyString
  | String c s' =>
      if decide (c = squote)
      then String squote (String dquote (String squote (String dquote
             (String squote (escape_squotes s')))))
      else String c (escape_squotes s')
  end.

Definition quote (s : string) : string :=
  if decide (s = "") then String squote (String squote "")
  else if all_safe s then s
  else String squote (escape_squotes s +:+ String squote "").

(** ** [Runner] *)

Record Runner := mkRunner { _proxy : option Proxy }.

Definition RSt : Type := Runner * World.

(** A method of [self._proxy] called from the runner; [None] has no
    attributes. *)
Definition on_runner_proxy {A} (attr : string) (m : M St A) : M RSt A :=
  λ s, match _proxy s.1 with
       | None => (Raise (AttributeError attr), s)
       | Some p => let r := m (p, s.2) in (r.1, (mkRunner (Some r.2.1), r.2.2))
       end.

(** [get_workbench().get_view("ShellView").submit_command(cmd_line)] *)
Definition submit_command (cmd_line : string) : M RSt unit :=
  modify (λ s, (s.1, set_shell_submitted (shell_submitted s.2 ++ [cmd_line]) s.2)).

Section Runner.

Variable parse_message : string → Outcome Message.
Variable serialize_message : Command → string.
Variable _prepare_launcher : gset string → Outcome string * gset string.

(** [os.path.relpath(path, start)] on two strings; it depends on the
    platform and on the directory the front-end runs in, and raises
    [ValueError] for some arguments. *)
Variable relpath : string → string → Outcome string.

(** [Runner.get_state], lines 86-90 *)
Definition Runner_get_state : M RSt (option string) :=
  on_runner_proxy "get_state" get_state.

(** [Runner.send_command], lines 95-96 *)
Definition Runner_send_command (cmd : Command) : M RSt unit :=
  on_runner_proxy "send_command"
    (send_command parse_message serialize_message _prepare_launcher cmd).

(** [Runner.execute_script], lines 101-123 *)
Definition execute_script (script_path : string) (arguments : list string)
    (working_directory : option string) (command_name : string) : M RSt unit :=
  current ← on_runner_proxy "cwd" (gets (λ s, cwd s.1));
  let start :=
    match working_directory with
    | Some wd =>
        if decide (current ≠ PStr wd)
        then ("%cd " +:+ quote wd +:+ nl, PStr wd)
        else ("", current)
    | None => ("", current)
    end in
  let cmd_line := start.1 in
  let next_cwd := start.2 in
  rel_filename ← lift_outcome (match next_cwd with
                               | PStr dir => relpath script_path dir
                               | _ => Raise TypeError
                               end);
  let cmd_line := cmd_line +:+ ("%" +:+ command_name +:+ " " +:+ quote rel_filename) in
  let cmd_line := foldl (λ line arg, line +:+ (" " +:+ quote arg)) cmd_line arguments in
  let cmd_line := cmd_line +:+ nl in
  submit_command cmd_line.

(** One tick of [_advance_background_tk_mainloop], lines 204-212; the
    last line only asks the workbench for the next tick 50 ms later. *)
Definition _advance_background_tk_mainloop : M RSt unit :=
  state ← on_runner_proxy "get_state" get_state;
  if decide (state = Some "waiting_toplevel_command") then
    on_runner_proxy "send_command"
      (send_command parse_message serialize_message _prepare_launcher
         (mkCommand InlineCommand (Some "tkupdate") None None None None None))
  else ret tt.

(** [Runner.kill_backend], lines 242-245 *)
Definition kill_backend : M RSt unit :=
  λ s, match _proxy s.1 with
       | None => (Return tt, s)
       | Some p =>
           let r := kill_current_process (p, s.2) in
           match r.1 with
           | Return _ => (Return tt, (mkRunner None, r.2.2))
           | Raise e => (Raise e, (mkRunner (Some r.2.1), r.2.2))
           end
       end.

End Runner.

(** ** The shell-style parser *)

(** [c in s] for a character. *)
Fixpoint in_string (c : ascii) (s : string) : bool :=
  match s with
  | EmptyString => false
  | String c' s' => bool_decide (c = c') || in_string c s'
  end.

Definition shlex_whitespace : string :=
  String " " (String (ascii_of_nat 9) (String (ascii_of_nat 13)
    (String (ascii_of_nat 10) ""))).
Definition shlex_quotes : string := String squote (String dquote "").
Definition shlex_escape : string := String backslash "".
Definition shlex_escapedquotes : string := String dquote "".

(** What [read_token] returns at the end of the input, as a list: the
    token, or nothing when it is empty and no quote was seen. *)
Definition final_token (quoted : bool) (token : string) : list string :=
  if negb quoted && bool_decide (token = "") then [] else [token].

(** Modelled from the spec: the shell-style parser used by the command
    handler is [thonny.common.parse_shell_command], which is not in
    [src/]; it splits the arguments of a command line with Python's
    [shlex.split] in POSIX mode (no comments, split on whitespace only).
    [read_tokens] is the loop of [shlex.read_token] run over the whole
    input: [state] is the lexer state between characters (a space
    between tokens, the letter a inside a word, the quote or the escape
    character that is open), and a finished token restarts the loop with
    fresh [quoted], [escapedstate] and [token]. *)
Fixpoint read_tokens (input : string) (state escapedstate : ascii)
    (quoted : bool) (token : string) : Outcome (list string) :=
  let emit_then rest :=
    match read_tokens rest " "%char " "%char false "" with
    | Return tokens => Return (token :: tokens)
    | Raise e => Raise e
    end in
  match input with
  | EmptyString =>
      if decide (state = " "%char) then Return (final_token quoted token)
      else if in_string state shlex_quotes then
        Raise (ValueError "No closing quotation")
      else if in_string state shlex_escape then
        Raise (ValueError "No escaped character")
      else Return (final_token quoted token)
  | String nextchar rest =>
      if decide (state = " "%char) then
        if in_string nextchar shlex_whitespace then
          if negb (bool_decide (token = "")) || quoted then emit_then rest
          else read_tokens rest state escapedstate quoted token
        else if in_string nextchar shlex_escape then
          read_tokens rest nextchar "a"%char quoted token
        else if in_string nextchar shlex_quotes then
          read_tokens rest nextchar escapedstate quoted token
        else read_tokens rest "a"%char escapedstate quoted (String nextchar "")
      else if in_string state shlex_quotes then
        if decide (nextchar = state) then
          read_tokens rest "a"%char escapedstate true token
        else if in_string nextchar shlex_escape
                && in_string state shlex_escapedquotes then
          read_tokens rest nextchar state true token
        else read_tokens rest state escapedstate true (token +:+ String nextchar "")
      else if in_string state shlex_escape then
        let token :=
          if in_string escapedstate shlex_quotes
             && negb (bool_decide (nextchar = state))
             && negb (bool_decide (nextchar = escapedstate))
          then token +:+ String state "" else token in
        read_tokens rest escapedstate escapedstate quoted (token +:+ String nextchar "")
      else
        if in_string nextchar shlex_whitespace then
          if negb (bool_decide (token = "")) || quoted then emit_then rest
          else read_tokens rest " "%char escapedstate quoted token
        else if in_string nextchar shlex_quotes then
          read_tokens rest nextchar escapedstate quoted token
        else if in_string nextchar shlex_escape then
          read_tokens rest nextchar "a"%char quoted token
        else read_tokens rest state escapedstate quoted (token +:+ String nextchar "")
  end.

Definition shlex_split (s : string) : Outcome (list string) :=
  read_tokens s " "%char " "%char false "".

(** The queue of the example in the specification of the coalescer. *)
Definition example_queue : list Message :=
  [output_event "stdout" "a"; output_event "stdout" "b";
   output_event "stderr" "x"; output_event "stdout" "c"].

(** ** A sample instance

    A small codec, launcher and world on which the statements below are
    evaluated. The wire format of [thonny.common] is not needed for
    them: the sample decoder refuses one line and maps the others to
    events. *)
Definition sample_parse_message (line : string) : Outcome Message :=
  if decide (line = "ready") then
    Return (<["message_type" := PStr "BackendReady"]>
              (<["path" := PSeq ["/usr/lib/python3"]]> ∅))
  else if decide (line = "done") then
    Return (<["message_type" := PStr "ToplevelResult"]> ∅)
  else if decide (line = "garbage") then Raise (MalformedMessage line)
  else Return (output_event "stdout" line).

Definition sample_serialize_message (cmd : Command) : string :=
  match command cmd with
  | Some c => c
  | None => "input"
  end.

Definition sample_prepare_launcher (files : gset string)
  : Outcome string * gset string :=
  (Return "/home/user/.thonny/backend/backend_launcher.py", files).

Definition sample_world : World :=
  mkWorld
    (<["PATH" := "/usr/bin"]> (<["PYTHONPATH" := "/opt/lib"]>
       (<["TK_LIBRARY" := "/opt/tk"]> ∅)))
    {[ "/usr/bin/python3"; "/home/user" ]}
    []
    (λ _, Spawns ["ready"; "hello"; "done"] [])
    [] [] [] "/home/user" "/home/user".

(** A proxy as [__init__] leaves it. *)
Definition sample_proxy : Proxy :=
  mkProxy "/usr/bin/python3" (PStr "/home/user") None None None (PSeq []).

(** The same with an interpreter that is not on the disk. *)
Definition lost_proxy : Proxy :=
  mkProxy "/opt/python9/bin/python" (PStr "/home/user") None None None (PSeq []).

Definition toplevel (name : string) : Command :=
  mkCommand ToplevelCommand (Some name) None None None None None.

Definition inline (name : string) : Command :=
  mkCommand InlineCommand (Some name) None None None None None.

(** A world in which process 0 runs and still has one line to deliver,
    with its stdout listener started, and the proxy that owns it. *)
Definition busy_world : World :=
  set_threads [mkThread ListenStdout None true]
    (set_procs [mkProcess ["/usr/bin/python3"] ∅ "/home/user" [] ["old output"] [] true]
       sample_world).

Definition busy_proxy : Proxy :=
  mkProxy "/usr/bin/python3" (PStr "/home/user") (Some 0) (Some "running")
    (Some []) (PSeq []).

(** The message of the [UserError] of lines 496-497. *)
Definition not_found_message (exe : string) : string :=
  "Interpreter (" +:+ exe +:+ ") not found. Please recheck corresponding option!".

(** The handle of a proxy names a process of the world. *)
Definition handle_valid (p : Proxy) (w : World) : Prop :=
  ∀ pid, _proc p = Some pid → is_Some (procs w !! pid).

(** The process that the proxy holds and that still runs, if any: the
    one that [kill_current_process] kills. *)
Definition running_process (p : Proxy) (w : World) : option nat :=
  match _proc p with
  | Some pid =>
      match procs w !! pid with
      | Some pr => if p_alive pr then Some pid else None
      | None => None
      end
  | None => None
  end.

(** The name contains [python] when case is ignored. *)
Definition names_python (name : string) : Prop :=
  ∃ before after, lower name = before +:+ "python" +:+ after.

(** The value of a variable in the per-command overrides, if the
    command has any and they set it. *)
Definition override (cmd : Command) (name : string) : option string :=
  match environment cmd with
  | Some overrides => overrides !! name
  | None => None
  end.

(** The environments of the processes spawned so far. *)
Definition environments (s : St) : list (gmap string string) :=
  map p_env (procs s.2).

(** The process that [Popen] creates for [cmd] in the world [w], for a
    launcher script and a working directory. *)
Definition spawned (exe launcher : string) (cmd : Command) (w : World)
    (dir : string) (out err : list string) : Process :=
  mkProcess (child_cmd_line exe launcher cmd)
            (child_environment cmd (environ w)) dir [] out err true.

Definition startup_error (stderr_lines : list string) : Exn :=
  Exception ("Error starting backend process: " +:+ join_strings stderr_lines).

(** The proxy after the stdout listener has handled the event [m]
    (lines 555-559). *)
Definition enqueue (p : Proxy) (m : Message) : Proxy :=
  let p1 := match m !! "cwd" with
            | Some dir => set_cwd dir p
            | None => p
            end in
  set_message_queue (option_map (λ q, q ++ [m]) (_message_queue p1)) p1.

(** The world after [rest] is what is left on the stdout of [pid]. *)
Definition with_stdout (pid : nat) (rest : list string) (w : World) : World :=
  set_procs (alter (set_p_stdout rest) pid (procs w)) w.

(** Every line decodes: [lines] are non-empty and decode to [msgs]. *)
Definition decode_to (parse : string → Outcome Message)
    (lines : list string) (msgs : list Message) : Prop :=
  Forall2 (λ line m, line ≠ "" ∧ parse line = Return m) lines msgs.

(** A proxy that owns process 0 of a world in which that process still
    has three lines to deliver, the second of which does not decode. *)
Definition listening_world : World :=
  set_threads [mkThread ListenStdout None true]
    (set_procs [mkProcess ["/usr/bin/python3"] ∅ "/home/user" []
                  ["hello"; "garbage"; "world"] [] true]
       sample_world).

(** The text of a list of words as [execute_script] writes it: each
    word quoted, a space between two words. *)
Definition words_text (words : list string) : string :=
  match words with
  | [] => ""
  | first :: others =>
      quote first +:+ join_strings (map (λ word, " " +:+ quote word) others)
  end.

(** The directory-change instruction and the main instruction of a
    command line. *)
Definition cd_instruction (dir : string) : string :=
  "%cd " +:+ quote dir +:+ nl.

Definition main_instruction (command_name rel_filename : string)
    (arguments : list string) : string :=
  "%" +:+ command_name +:+ " " +:+ words_text (rel_filename :: arguments) +:+ nl.

(** ** Observations of the state

    [preserves f m]: whatever [m] does and however it ends, the
    observation [f] of the state is the same afterwards. *)
Definition preserves {A X} (f : St → X) (m : M St A) : Prop :=
  ∀ s, f (m s).2 = f s.

Definition state_of (s : St) : option string := _state s.1.

Definition queue_of (s : St) : option (list Message) := _message_queue s.1.

(** The flag [quoted] of the lexer after a word written by [quote]. *)
Definition quoted_form (w : string) : bool :=
  bool_decide (w = "") || negb (all_safe w).

(** ** More sample data *)

(** A stand-in for [os.path.relpath] when the script lies in the start
    directory: the path itself, and [ValueError] for the empty path. *)
Definition sample_relpath (script_path start : string) : Outcome string :=
  if decide (script_path = "") then Raise (ValueError "no path specified")
  else Return script_path.

(** A proxy that holds process 0 of [busy_world], has an event queued,
    and whose interpreter is not on the disk. *)
Definition lost_busy_proxy : Proxy :=
  mkProxy "/opt/python9/bin/python" (PStr "/home/user") (Some 0)
    (Some "waiting_toplevel_command") (Some [output_event "stdout" "pending"])
    (PSeq []).

(** [busy_world] after process 0 has ended by itself. *)
Definition ended_world : World :=
  set_procs [mkProcess ["/usr/bin/python3"] ∅ "/home/user" [] [] [] false]
    busy_world.

(** A proxy with one result waiting in its queue. *)
Definition result_proxy : Proxy :=
  mkProxy "/usr/bin/python3" (PStr "/home/user") (Some 0) (Some "running")
    (Some [<["message_type" := PStr "ToplevelResult"]> ∅]) (PSeq []).

(** ** Vocabulary for the life of the backend process *)

(** The test of line 383: the command restarts the backend. *)
Definition restarts (cmd : Command) : bool :=
  bool_decide (cmd_class cmd = ToplevelCommand) &&
  match command cmd with
  | Some c => bool_decide (c ∈ ["Run"; "Debug"; "Reset"])
  | None => false
  end.

(** The test of lines 378-380: the command sets the state [running]. *)
Definition sets_running (cmd : Command) : bool :=
  bool_decide (cmd_class cmd ∈ [ToplevelCommand; DebuggerCommand; InputSubmission]).

(** The command has the attribute [command] where lines 374 and 383
    read it. *)
Definition command_readable (cmd : Command) : bool :=
  match cmd_class cmd with
  | InlineCommand | ToplevelCommand => bool_decide (is_Some (command cmd))
  | _ => true
  end.

(** No process but the one the proxy holds is running. *)
Definition only_current_alive (s : St) : Prop :=
  ∀ pid pr, procs s.2 !! pid = Some pr → p_alive pr = true →
            _proc s.1 = Some pid.

Definition all_ended (w : World) : Prop :=
  ∀ pid pr, procs w !! pid = Some pr → p_alive pr = false.

(** [hoare P m Q]: from a state in [P], [m] ends in a state in [Q],
    whether it returns or raises. *)
Definition hoare {A} (P : St → Prop) (m : M St A) (Q : St → Prop) : Prop :=
  ∀ s, P s → Q (m s).2.

(** Which process the proxy holds and which processes run: all that the
    two conditions above depend on. *)
Definition liveness (s : St) : option nat * list bool :=
  (_proc s.1, map p_alive (procs s.2)).

(** The handle is valid and no other process runs. *)
Definition backend_invariant (s : St) : Prop :=
  handle_valid s.1 s.2 ∧ only_current_alive s.

(** ** The message pump of the runner *)

(** [Runner.get_cwd], lines 79-84: [None] has no attribute [cwd]. *)
Definition get_cwd : M RSt pyval :=
  λ s, match _proxy s.1 with
       | Some p => (Return (cwd p), s)
       | None => (Return (PStr ""), s)
       end.

Definition set_run_working_directory (v : string) (w : World) : World :=
  mkWorld (environ w) (fs w) (procs w) (spawn_plan w) (threads w) (events w)
    (shell_submitted w) v (home w).

(** [get_workbench().set_option("run.working_directory", value)]. The
    world holds this option as a string (it is the path that [__init__]
    reads); a value that is no string cannot be stored in it and is
    reported as [TypeError]. *)
Definition set_working_directory_option (value : pyval) : M RSt unit :=
  match value with
  | PStr dir => modify (λ s, (s.1, set_run_working_directory dir s.2))
  | _ => raise TypeError
  end.

(** [get_workbench().event_generate(msg["message_type"], **msg)]: the
    name of the event is a string. *)
Definition dispatch (msg : Message) : M RSt unit :=
  ty ← lift_outcome (getitem msg "message_type");
  match ty with
  | PStr name =>
      modify (λ s, (s.1, set_events (events s.2 ++ [(name, msg)]) s.2))
  | _ => raise TypeError
  end.

(** The loop of [_poll_vm_messages], lines 214-232, for at most [fuel]
    rounds; [None]: the loop has not ended within the fuel. [not msg]
    holds for [None] and for an empty record. The call of
    [get_workbench().update()] lets the user interface handle what it
    has pending, which is nothing here; the last line only asks for the
    next poll 50 ms later. *)
Fixpoint _poll_vm_messages (fuel : nat) : M RSt (option unit) :=
  match fuel with
  | O => ret None
  | S fuel' =>
      msg ← on_runner_proxy "fetch_next_message" fetch_next_message;
      match msg with
      | None => ret (Some tt)
      | Some m =>
          if decide (m = ∅) then ret (Some tt)
          else
            dispatch m;;
            dir ← get_cwd;
            set_working_directory_option dir;;
            _poll_vm_messages fuel'
      end
  end.

(** The events that the pump delivers for the queue [q]: each output
    event with the output events of its stream that follow it merged
    in, every other event as it is. [n] bounds the number of events. *)
Fixpoint coalesce_upto (n : nat) (q : list Message) : list Message :=
  match n, q with
  | S n', msg :: rest =>
      if bool_decide (is_output msg)
      then merged msg (leading_run msg rest) :: coalesce_upto n' (after_run msg rest)
      else msg :: coalesce_upto n' rest
  | _, _ => []
  end.

Definition coalesce (q : list Message) : list Message :=
  coalesce_upto (length q) q.

(** The event has a name: its type is a string. *)
Definition named (m : Message) : Prop :=
  ∃ name, m !! "message_type" = Some (PStr name).

Definition event_name (m : Message) : string :=
  match m !! "message_type" with
  | Some (PStr name) => name
  | _ => ""
  end.

(** The text that the events of [q] carry for the stream [stream]. *)
Definition on_stream (stream : pyval) (m : Message) : bool :=
  bool_decide (is_output m ∧ m !! "stream_name" = Some stream).

Definition stream_text (stream : pyval) (q : list Message) : string :=
  join_strings (map payload (filter (λ m, on_stream stream m = true) q)).

(** The events of [q] that are no program output. *)
Definition other_events (q : list Message) : list Message :=
  filter (λ m, ¬ is_output m) q.

(** The state of the proxy after the events [delivered], in order. *)
Definition state_after_all (delivered : list Message) (old : option string)
  : option string :=
  foldl (λ state m, state_after m state) old delivered.

(** The runner and the world after the pump has delivered [delivered]
    from the proxy [p]. *)
Definition pumped_proxy (p : Proxy) (delivered : list Message) : Proxy :=
  mkProxy (_executable p) (cwd p) (_proc p)
    (state_after_all delivered (_state p)) (Some []) (_sys_path p).

Definition pumped_world (w : World) (dir : string) (delivered : list Message)
  : World :=
  mkWorld (environ w) (fs w) (procs w) (spawn_plan w) (threads w)
    (events w ++ map (λ m, (event_name m, m)) delivered)
    (shell_submitted w)
    (if decide (delivered = []) then run_working_directory w else dir)
    (home w).

(** ** The Stop/Reset command of the runner *)

Section RunnerCommands.

Variable parse_message : string → Outcome Message.
Variable serialize_message : Command → string.
Variable _prepare_launcher : gset string → Outcome string * gset string.

(** [Runner.cmd_stop_reset], lines 194-198; [get_runner()] is the one
    runner of the application. *)
Definition cmd_stop_reset : M RSt unit :=
  state ← Runner_get_state;
  if decide (state = Some "waiting_toplevel_command") then
    submit_command ("%Reset" +:+ nl)
  else
    Runner_send_command parse_message serialize_message _prepare_launcher
      (mkCommand ToplevelCommand (Some "Reset") None None None None None).

End RunnerCommands.

(** The text ends with a line feed. *)
Definition ends_with_nl (text : string) : Prop := ∃ body, text = body +:+ nl.

(** ** The configuration text

    A text is the sequence of its bytes. The functions of [str] used
    by [parse_configuration] and [_get_venv_info] work on it as
    follows. *)

(** [s.split(sep, maxsplit=1)] for a separator of one character. The
    list that Python returns has one element, the text itself, when the
    separator does not occur in it, and two otherwise: the text before
    the first separator and the text after it. It is given here as the
    first element and the second one if there is one. *)
Fixpoint split_once (sep : ascii) (s : string) : string * option string :=
  match s with
  | EmptyString => ("", None)
  | String c rest =>
      if decide (c = sep) then ("", Some rest)
      else let parts := split_once sep rest in (String c parts.1, parts.2)
  end.

(** [s.lstrip(chars)] and [s.rstrip(chars)], with the set of characters
    as a test. *)
Fixpoint lstrip (chars : ascii → bool) (s : string) : string :=
  match s with
  | EmptyString => ""
  | String c rest => if chars c then lstrip chars rest else s
  end.

Fixpoint rstrip (chars : ascii → bool) (s : string) : string :=
  match s with
  | EmptyString => ""
  | String c rest =>
      match rstrip chars rest with
      | EmptyString => if chars c then "" else String c ""
      | kept => String c kept
      end
  end.

(** [s.strip(chars)] *)
Definition strip (chars : ascii → bool) (s : string) : string :=
  rstrip chars (lstrip chars s).

(** The whitespace that [s.strip()] removes, among the ASCII
    characters: tab to carriage return, the four separators 28 to 31
    and the space. Python also removes whitespace outside ASCII; the
    statements about [strip is_space] are made for ASCII text. *)
Definition is_space (c : ascii) : bool :=
  let n := nat_of_ascii c in
  (9 <=? n) && (n <=? 13) || (28 <=? n) && (n <=? 32).

(** The characters of [" )"], the argument of [strip] on line 673. *)
Definition space_or_paren (c : ascii) : bool := in_string c " )".

(** [parse_configuration], lines 663-673 *)
Definition parse_configuration (configuration : string) : string * string :=
  let parts := split_once "("%char configuration in
  match parts.2 with
  | None => (configuration, "")
  | Some second => (strip is_space parts.1, strip space_or_paren second)
  end.

(** The first and the last character of a text. *)
Definition first_char (s : string) : option ascii :=
  match s with
  | EmptyString => None
  | String c _ => Some c
  end.

Fixpoint last_char (s : string) : option ascii :=
  match s with
  | EmptyString => None
  | String c rest =>
      match rest with
      | EmptyString => Some c
      | String _ _ => last_char rest
      end
  end.

(** The text neither starts nor ends with a character of [chars]:
    [strip] has nothing to remove. *)
Definition bare (chars : ascii → bool) (s : string) : bool :=
  negb (from_option chars false (first_char s))
  && negb (from_option chars false (last_char s)).

(** Every character of the text is an ASCII character. *)
Fixpoint ascii_text (s : string) : bool :=
  match s with
  | EmptyString => true
  | String c rest => (nat_of_ascii c <? 128) && ascii_text rest
  end.

(** The text of a configuration as line 42 writes it. *)
Definition configuration_text (name option : string) : string :=
  name +:+ " (" +:+ option +:+ ")".

(** ** A new backend *)

Section ResetBackend.

Variable parse_message : string → Outcome Message.
Variable serialize_message : Command → string.
Variable _prepare_launcher : gset string → Outcome string * gset string.
Variable _get_private_venv_executable : World → Outcome string.

(** [Runner.reset_backend], lines 234-240, for the value
    [configuration] of the option [run.backend_configuration]. The
    registry of backends is the one that line 44 fills: the name
    [Python] stands for [CPythonProxy], and any other name is a
    [KeyError]. *)
Definition reset_backend (configuration : string) : M RSt unit :=
  kill_backend;;
  let parsed := parse_configuration configuration in
  let backend_name := parsed.1 in
  let configuration_option := parsed.2 in
  if decide (backend_name = "Python") then
    w ← gets snd;
    proxy ← lift_outcome
              (CPythonProxy_init _get_private_venv_executable
                 configuration_option w);
    modify (λ s, (mkRunner (Some proxy), s.2));;
    Runner_send_command parse_message serialize_message _prepare_launcher
      (mkCommand ToplevelCommand (Some "Reset") None None None None None)
  else raise (KeyError backend_name).

End ResetBackend.

(** What the runner may hold when a backend is started: a proxy whose
    handle is valid and whose process is the only one that may run, or,
    as in [Runner.__init__], no proxy and no running process. *)
Definition runner_invariant (rn : Runner) (w : World) : Prop :=
  match _proxy rn with
  | Some p => backend_invariant (p, w)
  | None => all_ended w
  end.

(** The working directory that [CPythonProxy.__init__] picks, lines
    316-320. *)
Definition initial_cwd (w : World) : string :=
  if bool_decide (run_working_directory w ∈ fs w)
  then run_working_directory w else home w.

(** ** From the pipe to the workbench *)

(** The working directory after the events [msgs]: the last one that
    an event reports, or the old one when none does. *)
Definition last_cwd (old : pyval) (msgs : list Message) : pyval :=
  foldl (λ dir m, default dir (m !! "cwd")) old msgs.

(** ** The description of a virtual environment *)

(** The loop of [_get_venv_info], lines 770-780, over the lines that
    iterating over the opened [pyvenv.cfg] yields, each with its line
    feed; [result] starts as the empty dictionary. *)
Definition _get_venv_info (cfg_lines : list string) : gmap string string :=
  foldl (λ result line,
           if in_string "="%char line then
             let parts := split_once "="%char line in
             match parts.2 with
             | Some val =>
                 <[strip is_space parts.1 := strip is_space val]> result
             | None => result
             end
           else result)
        ∅ cfg_lines.

(** A line of [pyvenv.cfg] as the [venv] module writes it. *)
Definition cfg_line (key val : string) : string :=
  key +:+ " = " +:+ val +:+ nl.

(** A key or a value that a line of the file can carry as it is: ASCII
    text that neither starts nor ends with whitespace. *)
Definition plain_text (s : string) : bool :=
  ascii_text s && bare is_space s.

Definition plain_entry (entry : string * string) : Prop :=
  plain_text entry.1 = true ∧ in_string "="%char entry.1 = false
  ∧ plain_text entry.2 = true.
(** ** Lemmas on the monad *)

Lemma bind_Return {S A B} (m : M S A) (k : A → M S B) s a s' :
  m s = (Return a, s') → (m ≫= k) s = k a s'.
Proof. intros H. unfold mbind, M_bind, bind. by rewrite H. Qed.

Lemma bind_Raise {S A B} (m : M S A) (k : A → M S B) s e s' :
  m s = (Raise e, s') → (m ≫= k) s = (Raise e, s').
Proof. intros H. unfold mbind, M_bind, bind. by rewrite H. Qed.

(** Unfold the monad operations and reduce the state pairs. *)
Ltac msimpl :=
  unfold on_proxy, on_world;
  unfold mbind, mret, M_bind, M_ret, bind, ret, raise, get, gets, modify,
    lift_outcome;
  cbn beta iota delta [fst snd].

(** The same, with the projections of updated records reduced. *)
Ltac mred :=
  msimpl;
  cbn [set_message_queue set_proc set_state_field set_cwd set_sys_path
       set_fs set_procs set_threads set_events set_shell_submitted
       _executable cwd _proc _state _message_queue _sys_path
       environ fs procs spawn_plan threads events shell_submitted
       run_working_directory home negb fst snd].

(** ** The coalescing loop *)

Lemma leading_after_run msg q : leading_run msg q ++ after_run msg q = q.
Proof.
  induction q as [|next q IH]; simpl; [done|].
  destruct (same_stream msg next); simpl; [by rewrite IH | done].
Qed.

Lemma after_run_stops msg q :
  after_run msg q = [] ∨
  ∃ next q', after_run msg q = next :: q' ∧ same_stream msg next = false.
Proof.
  induction q as [|next q IH]; simpl; [by left|].
  destruct (same_stream msg next) eqn:E; [done|]. right. eauto.
Qed.

Lemma append_nil_l (s : string) : "" +:+ s = s.
Proof. reflexivity. Qed.

Lemma append_cons c (s t : string) : String c s +:+ t = String c (s +:+ t).
Proof. reflexivity. Qed.

Lemma append_nil_r (s : string) : s +:+ "" = s.
Proof. induction s as [|c s IH]; [done | by rewrite append_cons, IH]. Qed.

Lemma append_assoc (x y z : string) : (x +:+ y) +:+ z = x +:+ (y +:+ z).
Proof. induction x as [|c x IH]; [done | by rewrite !append_cons, IH]. Qed.

Lemma same_stream_insert_data msg v next :
  same_stream (<["data" := v]> msg) next = same_stream msg next.
Proof. unfold same_stream. by rewrite lookup_insert_ne. Qed.

Lemma leading_run_insert_data msg v q :
  leading_run (<["data" := v]> msg) q = leading_run msg q.
Proof.
  induction q as [|n q IH]; simpl; [done|].
  rewrite same_stream_insert_data. by rewrite IH.
Qed.

Lemma after_run_insert_data msg v q :
  after_run (<["data" := v]> msg) q = after_run msg q.
Proof.
  induction q as [|n q IH]; simpl; [done|].
  rewrite same_stream_insert_data. by rewrite IH.
Qed.

Lemma merged_nil msg text :
  msg !! "data" = Some (PStr text) → merged msg [] = msg.
Proof.
  intros Hd. unfold merged, payload. rewrite Hd. simpl.
  rewrite append_nil_r. by apply insert_id.
Qed.

Lemma merge_output_spec msg q text :
  is_Some (msg !! "stream_name") →
  msg !! "data" = Some (PStr text) →
  Forall well_formed q →
  merge_output msg q = (Return (merged msg (leading_run msg q)), after_run msg q).
Proof.
  intros Hs Hd Hq. revert msg text Hs Hd.
  induction Hq as [|next q [[ty Hty] Hout] Hq IH]; intros msg text Hs Hd.
  - simpl. by rewrite (merged_nil _ text).
  - destruct Hs as [stream Hstream].
    cbn [merge_output leading_run after_run]. unfold getitem at 1. rewrite Hty.
    unfold same_stream, is_output. rewrite Hty, Hstream.
    destruct (decide (ty = PStr "ProgramOutput")) as [->|Hne].
    + destruct (Hout Hty) as [[ns Hns] [nd Hnd]].
      unfold getitem. rewrite Hns, Hstream, Hd, Hnd.
      destruct (decide (ns = stream)) as [->|Hne].
      * rewrite bool_decide_eq_true_2 by done.
        cbn [py_add].
        rewrite (IH _ (text +:+ nd)); [|by rewrite lookup_insert_ne; eauto
                                        |by rewrite lookup_insert_eq].
        rewrite leading_run_insert_data, after_run_insert_data.
        f_equal. f_equal. unfold merged, payload.
        rewrite lookup_insert_eq, Hd, insert_insert_eq. cbn [map].
        rewrite Hnd. simpl. by rewrite append_assoc.
      * rewrite bool_decide_eq_false_2 by (intros [_ ?]; congruence).
        by rewrite (merged_nil _ text).
    + rewrite bool_decide_eq_false_2 by (intros [? _]; congruence).
      by rewrite (merged_nil _ text).
Qed.

Lemma same_stream_true msg next :
  same_stream msg next = true ↔
  is_output next ∧ next !! "stream_name" = msg !! "stream_name".
Proof. unfold same_stream. apply bool_decide_eq_true. Qed.

Lemma leading_run_same_stream msg q :
  Forall (λ next, is_output next ∧ next !! "stream_name" = msg !! "stream_name")
         (leading_run msg q).
Proof.
  induction q as [|next q IH]; simpl; [constructor|].
  destruct (same_stream msg next) eqn:E; [|constructor].
  constructor; [by apply same_stream_true | done].
Qed.

Lemma _fetch_next_message_output p w msg rest :
  _message_queue p = Some (msg :: rest) →
  Forall well_formed (msg :: rest) →
  is_output msg →
  _fetch_next_message (p, w) =
    (Return (Some (merged msg (leading_run msg rest))),
     (set_message_queue (Some (after_run msg rest)) p, w)).
Proof.
  intros Hq Hwf Hout. inversion Hwf as [|? ? [_ Hmsg] Hrest]; subst.
  destruct (Hmsg Hout) as [Hs [text Hd]].
  unfold _fetch_next_message, mbind, M_bind, bind, gets, on_proxy, modify,
    lift_outcome, ret, getitem. simpl. rewrite Hq. rewrite Hout.
  rewrite decide_True by done.
  rewrite (merge_output_spec msg rest text) by done. reflexivity.
Qed.

Lemma _fetch_next_message_other p w msg rest ty :
  _message_queue p = Some (msg :: rest) →
  msg !! "message_type" = Some ty →
  ty ≠ PStr "ProgramOutput" →
  _fetch_next_message (p, w) =
    (Return (Some msg), (set_message_queue (Some rest) p, w)).
Proof.
  intros Hq Hty Hne.
  unfold _fetch_next_message, mbind, M_bind, bind, gets, on_proxy, modify,
    lift_outcome, ret, getitem. simpl. rewrite Hq, Hty.
  by rewrite decide_False.
Qed.

Lemma merged_message_type msg run :
  merged msg run !! "message_type" = msg !! "message_type".
Proof. unfold merged. by rewrite lookup_insert_ne. Qed.

Lemma _set_state_run state p w :
  _set_state state (p, w) = (Return tt, (set_state_field (Some state) p, w)).
Proof.
  unfold _set_state, mbind, M_bind, bind, gets, on_proxy, modify, ret. simpl.
  destruct (decide (_state p ≠ Some state)) as [|Heq]; [done|].
  apply dec_stable in Heq. destruct p; simpl in *. by subst.
Qed.

Lemma set_state_field_id p : set_state_field (_state p) p = p.
Proof. by destruct p. Qed.

(** [fetch_next_message] returns what [_fetch_next_message] returns and
    moves the state by the type of the event. *)
Lemma fetch_next_message_event s m s' :
  _fetch_next_message s = (Return (Some m), s') →
  is_Some (m !! "message_type") →
  fetch_next_message s =
    (Return (Some m), (set_state_field (state_after m (_state s'.1)) s'.1, s'.2)).
Proof.
  intros Hf [ty Hty]. destruct s' as [p' w'].
  unfold fetch_next_message. rewrite (bind_Return _ _ _ _ _ Hf).
  unfold lift_outcome, getitem, state_after. rewrite Hty.
  unfold mbind, M_bind, bind. simpl.
  repeat case_decide; subst; rewrite ?_set_state_run; try done.
  unfold ret. by rewrite set_state_field_id.
Qed.

Lemma state_after_output msg old : is_output msg → state_after msg old = old.
Proof. unfold state_after, is_output. intros ->. by repeat case_decide. Qed.

(** C1. One call to [fetch_next_message] on a queue of well-formed events
    pops the front event. If it is a [ProgramOutput] event, the call
    returns it with its payload followed, in order, by the payloads of
    the [ProgramOutput] events of the same stream that immediately
    follow it; these are removed from the queue, and what is left is
    empty or starts with an event of another type or stream. Any other
    front event is returned as it is. On the queue
    stdout "a", stdout "b", stderr "x", stdout "c", three calls return
    stdout "ab", stderr "x" and stdout "c". *)
Theorem fetch_next_message_coalesces (p : Proxy) (w : World) (q : list Message) :
  _message_queue p = Some q →
  Forall well_formed q →
  match q with
  | [] => fetch_next_message (p, w) = (Return None, (p, w))
  | msg :: rest =>
      (is_output msg →
       fetch_next_message (p, w) =
         (Return (Some (merged msg (leading_run msg rest))),
          (set_message_queue (Some (after_run msg rest)) p, w))
       ∧ leading_run msg rest ++ after_run msg rest = rest
       ∧ Forall (λ next, is_output next ∧
                         next !! "stream_name" = msg !! "stream_name")
                (leading_run msg rest)
       ∧ (after_run msg rest = [] ∨
          ∃ next q', after_run msg rest = next :: q' ∧
                     ¬ (is_output next ∧
                        next !! "stream_name" = msg !! "stream_name")))
      ∧ (¬ is_output msg →
         ∃ p', fetch_next_message (p, w) = (Return (Some msg), (p', w))
               ∧ _message_queue p' = Some rest)
  end
  ∧ let s0 := (set_message_queue (Some example_queue) p, w) in
    ∃ s1 s2 s3,
      fetch_next_message s0 = (Return (Some (output_event "stdout" "ab")), s1)
      ∧ fetch_next_message s1 = (Return (Some (output_event "stderr" "x")), s2)
      ∧ fetch_next_message s2 = (Return (Some (output_event "stdout" "c")), s3)
      ∧ _message_queue s3.1 = Some [].
Proof.
  intros Hq Hwf. split.
  - destruct q as [|msg rest].
    + unfold fetch_next_message, _fetch_next_message, mbind, M_bind, bind, gets.
      simpl. by rewrite Hq.
    + split.
      * intros Hout. split; [|split; [|split]].
        -- rewrite (fetch_next_message_event _ _ _
                      (_fetch_next_message_output p w msg rest Hq Hwf Hout)).
           ++ cbn [fst snd]. rewrite state_after_output
                by (unfold is_output; by rewrite merged_message_type).
              by rewrite set_state_field_id.
           ++ rewrite merged_message_type, Hout. eauto.
        -- apply leading_after_run.
        -- apply leading_run_same_stream.
        -- destruct (after_run_stops msg rest) as [|(next & q' & Ha & Hs)];
             [by left|right].
           exists next, q'. split; [done|].
           intros Hsame. apply same_stream_true in Hsame. congruence.
      * intros Hout. inversion Hwf as [|? ? [[ty Hty] _] _]; subst.
        assert (Hne : ty ≠ PStr "ProgramOutput") by (intros ->; by apply Hout).
        eexists. rewrite (fetch_next_message_event _ _ _
                            (_fetch_next_message_other p w msg rest ty Hq Hty Hne)).
        -- by split.
        -- eauto.
  - do 3 eexists. repeat split; vm_compute; reflexivity.
Qed.

(** ** Frame properties *)

Lemma preserves_ret {A X} (f : St → X) (a : A) : preserves f (ret a).
Proof. by intros s. Qed.

Lemma preserves_mret {A X} (f : St → X) (a : A) : preserves f (mret a).
Proof. by intros s. Qed.

Lemma preserves_raise {A X} (f : St → X) e : preserves f (raise (A := A) e).
Proof. by intros s. Qed.

Lemma preserves_gets {A X} (f : St → X) (g : St → A) : preserves f (gets g).
Proof. by intros s. Qed.

Lemma preserves_lift_outcome {A X} (f : St → X) (o : Outcome A) :
  preserves f (lift_outcome o).
Proof. by intros s. Qed.

Lemma preserves_modify {X} (f : St → X) (g : St → St) :
  (∀ s, f (g s) = f s) → preserves f (modify g).
Proof. intros H s. apply H. Qed.

Lemma preserves_bind {A B X} (f : St → X) (m : M St A) (k : A → M St B) :
  preserves f m → (∀ a, preserves f (k a)) → preserves f (m ≫= k).
Proof.
  intros Hm Hk s. unfold mbind, M_bind, bind.
  specialize (Hm s). destruct (m s) as [[a|e] s']; simpl in *.
  - by rewrite Hk.
  - done.
Qed.

Ltac preserves_step :=
  match goal with
  | |- preserves _ (_ ≫= _) => apply preserves_bind; [|intros ?]
  | |- preserves _ (ret _) => apply preserves_ret
  | |- preserves _ (mret _) => apply preserves_mret
  | |- preserves _ (raise _) => apply preserves_raise
  | |- preserves _ (gets _) => apply preserves_gets
  | |- preserves _ (lift_outcome _) => apply preserves_lift_outcome
  | |- preserves _ (on_proxy _) => apply preserves_modify; by intros [[] ?]
  | |- preserves _ (on_world _) => apply preserves_modify; by intros [? []]
  | |- preserves _ (match ?x with _ => _ end) => destruct x
  end.

Ltac preserves_tac := repeat preserves_step.

(** The operating-system primitives and the methods that start and stop
    a process never touch the execution state. *)

Lemma the_process_state pid : preserves state_of (the_process pid).
Proof. unfold the_process. preserves_tac. Qed.

Lemma update_process_state pid f : preserves state_of (update_process pid f).
Proof. unfold update_process. preserves_tac. Qed.

Create HintDb frame.
#[local] Hint Resolve the_process_state update_process_state : frame.

Lemma stdin_write_state pid text : preserves state_of (stdin_write pid text).
Proof. unfold stdin_write. preserves_tac; auto with frame. Qed.

Lemma stdout_readline_state pid : preserves state_of (stdout_readline pid).
Proof. unfold stdout_readline. preserves_tac; auto with frame. Qed.

Lemma stderr_read_state pid : preserves state_of (stderr_read pid).
Proof. unfold stderr_read. preserves_tac; auto with frame. Qed.

Lemma Popen_state cmd_line dir env : preserves state_of (Popen cmd_line dir env).
Proof. unfold Popen. preserves_tac. Qed.

Lemma kill_current_process_state : preserves state_of kill_current_process.
Proof.
  unfold kill_current_process, poll_is_None, proc_kill.
  preserves_tac; auto with frame.
Qed.

Section ProxyFrames.

Variable parse_message : string → Outcome Message.
Variable serialize_message : Command → string.
Variable _prepare_launcher : gset string → Outcome string * gset string.

Lemma handshake_state pid : preserves state_of (handshake parse_message pid).
Proof.
  unfold handshake, start_new_thread, event_generate.
  preserves_tac; auto using stdout_readline_state, stderr_read_state.
Qed.

Lemma _start_new_process_state cmd :
  preserves state_of (_start_new_process parse_message _prepare_launcher cmd).
Proof.
  unfold _start_new_process, path_exists, prepare_launcher.
  preserves_tac; auto using Popen_state, handshake_state.
  by intros [[] ?].
Qed.

End ProxyFrames.

Lemma _fetch_next_message_state : preserves state_of _fetch_next_message.
Proof. unfold _fetch_next_message. preserves_tac. Qed.

Lemma bind_inv_Return {S A B} (m : M S A) (k : A → M S B) s b s' :
  (m ≫= k) s = (Return b, s') →
  ∃ a s1, m s = (Return a, s1) ∧ k a s1 = (Return b, s').
Proof.
  unfold mbind, M_bind, bind. destruct (m s) as [[a|e] s1]; [eauto|done].
Qed.

(** The event that [fetch_next_message] returns is the one that
    [_fetch_next_message] returned, and the state moves by its type. *)
Lemma fetch_next_message_inv p w m p' w' :
  fetch_next_message (p, w) = (Return (Some m), (p', w')) →
  is_Some (m !! "message_type") ∧ _state p' = state_after m (_state p).
Proof.
  intros H0. pose proof (_fetch_next_message_state (p, w)) as Hst.
  pose proof H0 as H. unfold fetch_next_message in H.
  apply bind_inv_Return in H as ([m0|] & s1 & Hf & H); [|done].
  unfold state_of in Hst. rewrite Hf in Hst. simpl in Hst.
  destruct (m0 !! "message_type") as [ty|] eqn:Hty.
  - rewrite (fetch_next_message_event _ _ _ Hf) in H0 by eauto.
    inversion H0; subst. split; [by eauto|]. simpl. by rewrite Hst.
  - apply bind_inv_Return in H as (? & ? & H & _).
    unfold lift_outcome, getitem in H. by rewrite Hty in H.
Qed.

Lemma state_changing_not_inline (c : CommandClass) :
  c ∈ [ToplevelCommand; DebuggerCommand; InputSubmission] → c ≠ InlineCommand.
Proof.
  intros H ->. apply (bool_decide_pack _) in H. by vm_compute in H.
Qed.

Section ProxyProperties.

Variable parse_message : string → Outcome Message.
Variable serialize_message : Command → string.
Variable _prepare_launcher : gset string → Outcome string * gset string.

Local Abbreviation send_cmd :=
  (send_command parse_message serialize_message _prepare_launcher).
Local Abbreviation start_process :=
  (_start_new_process parse_message _prepare_launcher).

(** Whether [send_command] returns or raises, a command of one of the
    three classes leaves the state [running]. *)
Lemma send_command_running cmd s :
  cmd_class cmd ∈ [ToplevelCommand; DebuggerCommand; InputSubmission] →
  state_of (send_cmd cmd s).2 = Some "running".
Proof.
  intros Hclass. destruct s as [p w]. unfold send_command.
  rewrite (decide_False (P := cmd_class cmd = InlineCommand))
    by by apply state_changing_not_inline.
  rewrite (bind_Return _ _ _ tt (p, w)) by done.
  rewrite bool_decide_eq_true_2 by done.
  rewrite (bind_Return _ _ _ _ _ (_set_state_run _ _ _)).
  match goal with
  | |- state_of (?rest _).2 = _ =>
      assert (Hrest : preserves state_of rest); [|by rewrite Hrest]
  end.
  preserves_tac;
    auto using kill_current_process_state, _start_new_process_state,
               stdin_write_state.
Qed.

(** A command that [send_command] has accepted is the last line on the
    stdin of the current process. *)
Lemma send_command_written cmd s s' :
  send_cmd cmd s = (Return tt, s') →
  ∃ pid pr, _proc s'.1 = Some pid ∧ procs s'.2 !! pid = Some pr
            ∧ last (p_stdin pr) = Some (serialize_message cmd +:+ nl).
Proof.
  unfold send_command. intros H.
  apply bind_inv_Return in H as (? & s1 & _ & H).
  apply bind_inv_Return in H as (? & s2 & _ & H).
  apply bind_inv_Return in H as (? & s3 & _ & H).
  apply bind_inv_Return in H as (proc & s4 & Hg & H).
  inversion Hg; subst. destruct (_proc s4.1) as [pid|] eqn:Hp; [|done].
  unfold stdin_write in H.
  apply bind_inv_Return in H as (pr & s5 & Hpr & H).
  unfold the_process in Hpr.
  apply bind_inv_Return in Hpr as (w5 & s6 & Hw & Hpr). inversion Hw; subst.
  destruct (procs s6.2 !! pid) as [pr'|] eqn:Hlook; [|done].
  inversion Hpr; subst. destruct (p_alive pr); [|done].
  inversion H; subst. simpl. exists pid, (set_p_stdin (p_stdin pr ++ [serialize_message cmd +:+ nl]) pr).
  split; [done|]. split.
  - rewrite list_lookup_alter_eq, Hlook. done.
  - simpl. by rewrite last_snoc.
Qed.

End ProxyProperties.

(** ** The execution state *)

Section StateMachine.

Variable parse_message : string → Outcome Message.
Variable serialize_message : Command → string.
Variable _prepare_launcher : gset string → Outcome string * gset string.

Local Abbreviation send_cmd :=
  (send_command parse_message serialize_message _prepare_launcher).

(** C2. Whatever the state was, a [fetch_next_message] call that returns
    a [ToplevelResult] event leaves the state [waiting_toplevel_command],
    one that returns a [DebuggerProgress] event leaves it
    [waiting_debug_command], one that returns an [InputRequest] event
    leaves it [waiting_input], and any other returned event leaves the
    state as it was. [send_command] with a [ToplevelCommand], a
    [DebuggerCommand] or an [InputSubmission] leaves the state [running]
    however the call ends, so the state is set before the command is
    written; when the call returns, the serialized command is the last
    line written to the stdin of the current process. *)
Theorem execution_state_transitions (p : Proxy) (w : World) :
  (∀ m p' w',
     fetch_next_message (p, w) = (Return (Some m), (p', w')) →
     (m !! "message_type" = Some (PStr "ToplevelResult") →
      _state p' = Some "waiting_toplevel_command")
     ∧ (m !! "message_type" = Some (PStr "DebuggerProgress") →
        _state p' = Some "waiting_debug_command")
     ∧ (m !! "message_type" = Some (PStr "InputRequest") →
        _state p' = Some "waiting_input")
     ∧ (m !! "message_type" ∉ [Some (PStr "ToplevelResult");
                                Some (PStr "DebuggerProgress");
                                Some (PStr "InputRequest")] →
        _state p' = _state p))
  ∧ (∀ cmd,
       cmd_class cmd ∈ [ToplevelCommand; DebuggerCommand; InputSubmission] →
       let r := send_cmd cmd (p, w) in
       _state r.2.1 = Some "running"
       ∧ (r.1 = Return tt →
          ∃ pid pr, _proc r.2.1 = Some pid ∧ procs r.2.2 !! pid = Some pr
                    ∧ last (p_stdin pr) = Some (serialize_message cmd +:+ nl))).
Proof.
  split.
  - intros m p' w' H. apply fetch_next_message_inv in H as [[ty Hty] ->].
    unfold state_after. rewrite Hty.
    repeat split; intros H.
    + inversion H; subst. by rewrite decide_True.
    + inversion H; subst. rewrite decide_False by done. by rewrite decide_True.
    + inversion H; subst. do 2 rewrite decide_False by done.
      by rewrite decide_True.
    + repeat case_decide; subst; try done; exfalso; apply H;
        repeat first [by apply list_elem_of_here | apply list_elem_of_further].
  - intros cmd Hclass r. split.
    + apply (send_command_running parse_message serialize_message
               _prepare_launcher cmd (p, w) Hclass).
    + intros Hr.
      apply (send_command_written parse_message serialize_message
               _prepare_launcher cmd (p, w)).
      subst r. destruct (send_cmd cmd (p, w)) as [o s'].
      simpl in Hr. by subst.
Qed.

End StateMachine.

(** ** Killing and starting a process *)

Lemma kill_current_process_none p w :
  _proc p = None → kill_current_process (p, w) = (Return tt, (p, w)).
Proof.
  intros H. unfold kill_current_process, mbind, M_bind, bind, gets. simpl.
  by rewrite H.
Qed.

Lemma kill_current_process_finished p w pid pr :
  _proc p = Some pid → procs w !! pid = Some pr → p_alive pr = false →
  kill_current_process (p, w) = (Return tt, (p, w)).
Proof.
  intros H Hpr Ha.
  unfold kill_current_process, poll_is_None, the_process, proc_kill,
    update_process.
  msimpl. rewrite H. msimpl. rewrite Hpr. msimpl. by rewrite Ha.
Qed.

Lemma kill_current_process_live p w pid pr :
  _proc p = Some pid → procs w !! pid = Some pr → p_alive pr = true →
  kill_current_process (p, w) =
    (Return tt,
     (set_message_queue None (set_proc None p),
      set_procs (alter (set_p_alive false) pid (procs w)) w)).
Proof.
  intros H Hpr Ha.
  unfold kill_current_process, poll_is_None, the_process, proc_kill,
    update_process.
  msimpl. rewrite H. msimpl. rewrite Hpr. msimpl. by rewrite Ha.
Qed.

Section StartFailure.

Variable parse_message : string → Outcome Message.
Variable serialize_message : Command → string.
Variable _prepare_launcher : gset string → Outcome string * gset string.

Local Abbreviation send_cmd :=
  (send_command parse_message serialize_message _prepare_launcher).
Local Abbreviation start_process :=
  (_start_new_process parse_message _prepare_launcher).

Lemma _start_new_process_not_found cmd p w :
  _executable p ∉ fs w →
  start_process cmd (p, w) =
    (Raise (UserError (not_found_message (_executable p))),
     (set_message_queue (Some []) p, w)).
Proof.
  intros H.
  unfold _start_new_process, path_exists. msimpl.
  by rewrite bool_decide_eq_false_2.
Qed.

(** A command that restarts the backend: the state is set, the current
    process is killed if it runs, and the start is attempted. *)
Lemma send_command_restart cmd c p w :
  cmd_class cmd = ToplevelCommand → command cmd = Some c →
  c ∈ ["Run"; "Debug"; "Reset"] →
  send_cmd cmd (p, w) =
    (_set_state "running";; kill_current_process;; start_process cmd;;
     proc ← gets (λ s, _proc s.1);
     match proc with
     | None => raise (AttributeError "stdin")
     | Some pid => stdin_write pid (serialize_message cmd +:+ nl)
     end) (p, w).
Proof.
  intros Hclass Hc Hin. unfold send_command.
  rewrite Hclass, Hc.
  rewrite (decide_False (P := ToplevelCommand = InlineCommand)) by done.
  rewrite (decide_True (P := ToplevelCommand = ToplevelCommand)) by done.
  rewrite (bool_decide_eq_true_2 (c ∈ _)) by done.
  rewrite (bool_decide_eq_true_2 (ToplevelCommand ∈ _))
    by apply list_elem_of_here.
  unfold mbind, M_bind, bind, ret.
  rewrite _set_state_run.
  destruct (kill_current_process _) as [[[]|e] s1]; [|done].
  destruct (_start_new_process _ _ _ s1) as [[[]|e] s2]; done.
Qed.

(** C3 (as the code has it). When the interpreter executable does not
    exist, [send_command] with a Run, Debug or Reset [ToplevelCommand]
    raises the interpreter-not-found [UserError] before any child is
    spawned and starts no listener thread. It creates no process handle:
    a running previous process is killed and its handle cleared, the
    handle of a finished one stays. The execution state has been set to
    [running] by then and the message queue replaced by a fresh empty
    one. [_start_new_process] on its own leaves the state and the handle
    as they were. *)
Theorem interpreter_not_found (p : Proxy) (w : World) (cmd : Command) (c : string) :
  cmd_class cmd = ToplevelCommand → command cmd = Some c →
  c ∈ ["Run"; "Debug"; "Reset"] →
  _executable p ∉ fs w →
  handle_valid p w →
  let r := send_cmd cmd (p, w) in
  r.1 = Raise (UserError (not_found_message (_executable p)))
  ∧ length (procs r.2.2) = length (procs w)
  ∧ threads r.2.2 = threads w
  ∧ _state r.2.1 = Some "running"
  ∧ _message_queue r.2.1 = Some []
  ∧ match running_process p w with
    | Some pid => _proc r.2.1 = None
                  ∧ procs r.2.2 = alter (set_p_alive false) pid (procs w)
    | None => _proc r.2.1 = _proc p ∧ procs r.2.2 = procs w
    end
  ∧ let r0 := start_process cmd (p, w) in
    r0.1 = Raise (UserError (not_found_message (_executable p)))
    ∧ _state r0.2.1 = _state p ∧ _proc r0.2.1 = _proc p ∧ r0.2.2 = w.
Proof.
  intros Hclass Hc Hin Hexe Hvalid r. subst r.
  rewrite (send_command_restart cmd c) by done.
  rewrite (_start_new_process_not_found cmd p w Hexe). cbn [fst snd].
  rewrite (bind_Return _ _ _ _ _ (_set_state_run _ _ _)).
  unfold running_process.
  set (p1 := set_state_field (Some "running") p).
  destruct (_proc p) as [pid|] eqn:Hp.
  - destruct (Hvalid pid Hp) as [pr Hpr]. rewrite Hpr.
    destruct (p_alive pr) eqn:Ha.
    + rewrite (bind_Return _ _ _ _ _
                 (kill_current_process_live p1 w pid pr Hp Hpr Ha)).
      rewrite (bind_Raise _ _ _ _ _
                 (_start_new_process_not_found cmd
                    (set_message_queue None (set_proc None p1))
                    (set_procs (alter (set_p_alive false) pid (procs w)) w)
                    Hexe)).
      cbn. by rewrite length_alter.
    + rewrite (bind_Return _ _ _ _ _
                 (kill_current_process_finished p1 w pid pr Hp Hpr Ha)).
      rewrite (bind_Raise _ _ _ _ _
                 (_start_new_process_not_found cmd p1 w Hexe)).
      done.
  - rewrite (bind_Return _ _ _ _ _ (kill_current_process_none p1 w Hp)).
    rewrite (bind_Raise _ _ _ _ _ (_start_new_process_not_found cmd p1 w Hexe)).
    done.
Qed.

End StartFailure.

(** ** A proxy without a queue *)

Section NoQueue.

Variable _get_private_venv_executable : World → Outcome string.

(** C9. On a proxy whose message queue does not exist,
    [fetch_next_message] returns [None] and changes nothing. That is
    the case of a proxy just built by [__init__] (no process was ever
    started) and of a proxy whose running process has been killed. *)
Theorem fetch_without_queue (p : Proxy) (w : World) :
  (_message_queue p = None →
   fetch_next_message (p, w) = (Return None, (p, w)))
  ∧ (∀ configuration_option w0,
       CPythonProxy_init _get_private_venv_executable configuration_option w0
         = Return p →
       fetch_next_message (p, w) = (Return None, (p, w)))
  ∧ (∀ pid pr,
       _proc p = Some pid → procs w !! pid = Some pr → p_alive pr = true →
       let s := (kill_current_process (p, w)).2 in
       _message_queue s.1 = None
       ∧ fetch_next_message s = (Return None, s)).
Proof.
  assert (Hnone : ∀ p w, _message_queue p = None →
                         fetch_next_message (p, w) = (Return None, (p, w))).
  { clear. intros p w H. unfold fetch_next_message, _fetch_next_message.
    msimpl. by rewrite H. }
  split; [by apply Hnone|split].
  - intros opt w0 Hinit. apply Hnone.
    unfold CPythonProxy_init in Hinit.
    destruct (if decide (opt = DEFAULT_CPYTHON_INTERPRETER) then _ else _);
      [|done].
    by inversion Hinit.
  - intros pid pr Hp Hpr Ha s. subst s.
    rewrite (kill_current_process_live p w pid pr Hp Hpr Ha). cbn [fst snd].
    split; [done|]. by apply Hnone.
Qed.

End NoQueue.

(** ** Inline commands *)

Section Inline.

Variable parse_message : string → Outcome Message.
Variable serialize_message : Command → string.
Variable _prepare_launcher : gset string → Outcome string * gset string.

Local Abbreviation send_cmd :=
  (send_command parse_message serialize_message _prepare_launcher).
Local Abbreviation tick :=
  (_advance_background_tk_mainloop parse_message serialize_message
     _prepare_launcher).

(** An inline command goes straight to the stdin of the current process. *)
Lemma send_command_inline cmd p w :
  cmd_class cmd = InlineCommand →
  send_cmd cmd (p, w) =
    match command cmd with
    | None => (Raise (AttributeError "command"), (p, w))
    | Some _ =>
        match _proc p with
        | None => (Raise (AttributeError "stdin"), (p, w))
        | Some pid => stdin_write pid (serialize_message cmd +:+ nl) (p, w)
        end
    end.
Proof.
  intros Hclass. unfold send_command. rewrite Hclass.
  rewrite (decide_True (P := InlineCommand = InlineCommand)) by done.
  rewrite (decide_False (P := InlineCommand = ToplevelCommand)) by done.
  rewrite bool_decide_eq_false_2
    by (intros H; apply (bool_decide_pack _) in H; by vm_compute in H).
  msimpl. destruct (command cmd); try reflexivity.
  cbn [fst snd]. destruct (_proc p); reflexivity.
Qed.

Lemma stdin_write_run pid text p w :
  stdin_write pid text (p, w) =
    match procs w !! pid with
    | None => (Raise OSError, (p, w))
    | Some pr =>
        if p_alive pr
        then (Return tt,
              (p, set_procs (alter (set_p_stdin (p_stdin pr ++ [text])) pid
                               (procs w)) w))
        else (Raise BrokenPipeError, (p, w))
    end.
Proof.
  unfold stdin_write, the_process, update_process. msimpl.
  destruct (procs w !! pid) as [pr|]; [|done]. msimpl.
  by destruct (p_alive pr).
Qed.

Lemma alter_stdin_alive text0 pid (l : list Process) pid' :
  p_alive <$> (alter (set_p_stdin text0) pid l !! pid') = p_alive <$> (l !! pid').
Proof.
  destruct (decide (pid = pid')) as [->|Hne].
  - rewrite list_lookup_alter_eq. by destruct (l !! pid').
  - by rewrite list_lookup_alter_ne.
Qed.

(** What an inline command does to the proxy and to the world. *)
Lemma send_command_inline_effect cmd p w :
  cmd_class cmd = InlineCommand →
  let r := send_cmd cmd (p, w) in
  r.2.1 = p
  ∧ match r.1 with
    | Return _ =>
        ∃ pid pr, _proc p = Some pid ∧ procs w !! pid = Some pr
                  ∧ p_alive pr = true
                  ∧ r.2.2 = set_procs
                              (alter (set_p_stdin
                                        (p_stdin pr ++ [serialize_message cmd +:+ nl]))
                                     pid (procs w)) w
    | Raise _ => r.2.2 = w
    end.
Proof.
  intros Hclass r. subst r. rewrite (send_command_inline cmd p w Hclass).
  destruct (command cmd); [|done].
  destruct (_proc p) as [pid|] eqn:Hp; [|done].
  rewrite stdin_write_run.
  destruct (procs w !! pid) as [pr|] eqn:Hpr; [|done].
  destruct (p_alive pr) eqn:Ha; [|done].
  split; [done|]. by exists pid, pr.
Qed.

(** C10. [send_command] with an [InlineCommand] leaves the proxy as it
    was: the execution state, the process handle and the queue are
    unchanged. It starts no process and kills none. If it returns, its
    only effect on the world is one more line, the serialized command,
    on the stdin of the current process; if it raises, the world is
    unchanged. So a tick of [_advance_background_tk_mainloop], which
    sends the inline command tkupdate when the state is
    [waiting_toplevel_command], leaves [get_state] as it was. *)
Theorem inline_command_frame (p : Proxy) (w : World) (cmd : Command) :
  cmd_class cmd = InlineCommand →
  (let r := send_cmd cmd (p, w) in
   r.2.1 = p
   ∧ match r.1 with
     | Return _ =>
         ∃ pid pr, _proc p = Some pid ∧ procs w !! pid = Some pr
                   ∧ p_alive pr = true
                   ∧ r.2.2 = set_procs
                               (alter (set_p_stdin
                                         (p_stdin pr ++ [serialize_message cmd +:+ nl]))
                                      pid (procs w)) w
     | Raise _ => r.2.2 = w
     end
   ∧ length (procs r.2.2) = length (procs w)
   ∧ (∀ pid, p_alive <$> (procs r.2.2 !! pid) = p_alive <$> (procs w !! pid))
   ∧ threads r.2.2 = threads w)
  ∧ (∀ rn : Runner,
       let t := tick (rn, w) in
       (Runner_get_state t.2).1 = (Runner_get_state (rn, w)).1
       ∧ length (procs t.2.2) = length (procs w)
       ∧ (∀ pid, p_alive <$> (procs t.2.2 !! pid) = p_alive <$> (procs w !! pid))
       ∧ threads t.2.2 = threads w).
Proof.
  assert (Hframe : ∀ cmd p,
    cmd_class cmd = InlineCommand →
    let r := send_cmd cmd (p, w) in
    r.2.1 = p
    ∧ length (procs r.2.2) = length (procs w)
    ∧ (∀ pid, p_alive <$> (procs r.2.2 !! pid) = p_alive <$> (procs w !! pid))
    ∧ threads r.2.2 = threads w).
  { clear. intros cmd p Hclass r.
    destruct (send_command_inline_effect cmd p w Hclass) as [Hp Hw].
    fold r in Hp, Hw. split; [done|].
    destruct r.1.
    - destruct Hw as (pid & pr & _ & _ & _ & ->). cbn.
      rewrite length_alter. split; [done|]. split; [|done].
      intros pid'. apply alter_stdin_alive.
    - by rewrite Hw. }
  intros Hclass. split.
  - destruct (send_command_inline_effect cmd p w Hclass) as [Hp Hw].
    destruct (Hframe cmd p Hclass) as (_ & Hlen & Halive & Hth).
    by repeat split.
  - intros rn t. subst t.
    unfold _advance_background_tk_mainloop, Runner_get_state, on_runner_proxy,
      get_state. msimpl.
    destruct (_proxy rn) as [p0|] eqn:Hrn; cbn [fst snd _proxy];
      [|by rewrite ?Hrn].
    case_decide as Hst; cbn [fst snd _proxy]; [|by rewrite ?Hrn].
    destruct (Hframe (inline "tkupdate") p0 eq_refl) as (Hp & Hlen & Halive & Hth).
    unfold inline in *. by rewrite Hp.
Qed.

End Inline.

(** ** The environment of the child *)

Lemma prefix_spec (sub s : string) :
  String.prefix sub s = true ↔ ∃ after, s = sub +:+ after.
Proof.
  revert s. induction sub as [|a sub IH]; intros s.
  - split; [intros _; by exists s|]. by destruct s.
  - destruct s as [|b s]; simpl.
    + split; [done|]. by intros [after H].
    + destruct (ascii_dec a b) as [->|Hne].
      * rewrite IH. split; intros [after H]; exists after.
        -- by rewrite append_cons, <- H.
        -- rewrite append_cons in H. by inversion H.
      * split; [done|]. intros [after H]. rewrite append_cons in H.
        inversion H. done.
Qed.

Lemma contains_spec (sub s : string) :
  contains sub s = true ↔ ∃ before after, s = before +:+ sub +:+ after.
Proof.
  induction s as [|c s IH]; cbn [contains].
  - rewrite orb_false_r, prefix_spec. split.
    + intros [after H]. by exists "", after.
    + intros (before & after & H). destruct before as [|b before].
      * by exists after.
      * rewrite append_cons in H. done.
  - rewrite orb_true_iff, prefix_spec, IH. split.
    + intros [[after H]|(before & after & H)].
      * by exists "", after.
      * exists (String c before), after. by rewrite append_cons, <- H.
    + intros (before & after & H). destruct before as [|b before].
      * left. by exists after.
      * right. rewrite append_cons in H. inversion H; subst.
        by exists before, after.
Qed.

Lemma names_python_contains (name : string) :
  contains "python" (lower name) = true ↔ names_python name.
Proof. apply contains_spec. Qed.

Lemma lookup_filter_environ (env : gmap string string) (name : string) :
  filter_environ env !! name = if keep_variable name then env !! name else None.
Proof.
  unfold filter_environ. rewrite map_lookup_filter.
  destruct (env !! name) as [v|]; simpl; [|by destruct (keep_variable name)].
  destruct (keep_variable name); [by rewrite option_guard_True|].
  by rewrite option_guard_False.
Qed.

Lemma child_environment_lookup cmd (env : gmap string string) (name : string) :
  child_environment cmd env !! name =
    match override cmd name with
    | Some v => Some v
    | None =>
        if decide (name = "PYTHONUNBUFFERED") then Some "1"
        else if decide (name = "PYTHONIOENCODING") then Some "ASCII"
        else if contains "python" (lower name)
                || bool_decide (name ∈ ["TK_LIBRARY"; "TCL_LIBRARY"])
        then None
        else env !! name
    end.
Proof.
  assert (Hbase : (<["PYTHONUNBUFFERED" := "1"]>
                     (<["PYTHONIOENCODING" := "ASCII"]> (filter_environ env)))
                    !! name =
                  if decide (name = "PYTHONUNBUFFERED") then Some "1"
                  else if decide (name = "PYTHONIOENCODING") then Some "ASCII"
                  else if contains "python" (lower name)
                          || bool_decide (name ∈ ["TK_LIBRARY"; "TCL_LIBRARY"])
                  then None
                  else env !! name).
  { destruct (decide (name = "PYTHONUNBUFFERED")) as [->|H1];
      [by rewrite lookup_insert_eq|].
    rewrite lookup_insert_ne by done.
    destruct (decide (name = "PYTHONIOENCODING")) as [->|H2];
      [by rewrite lookup_insert_eq|].
    rewrite lookup_insert_ne by done.
    rewrite lookup_filter_environ. unfold keep_variable.
    destruct (contains "python" (lower name)); [done|].
    by destruct (bool_decide _). }
  unfold child_environment, override.
  destruct (environment cmd) as [overrides|]; [|apply Hbase].
  rewrite lookup_union, Hbase.
  destruct (overrides !! name);
    destruct (decide (name = "PYTHONUNBUFFERED"));
    destruct (decide (name = "PYTHONIOENCODING"));
    try destruct (_ || _); try done; by destruct (env !! name).
Qed.

(** ** Starting a process, step by step *)

Section Start.

Variable parse_message : string → Outcome Message.
Variable serialize_message : Command → string.
Variable _prepare_launcher : gset string → Outcome string * gset string.

Local Abbreviation send_cmd :=
  (send_command parse_message serialize_message _prepare_launcher).
Local Abbreviation start_process :=
  (_start_new_process parse_message _prepare_launcher).
Local Abbreviation shake := (handshake parse_message).

(** [_start_new_process] up to the [Popen], and the handshake on the
    new process. *)
Lemma _start_new_process_run cmd p w :
  start_process cmd (p, w) =
    let p1 := set_message_queue (Some []) p in
    if bool_decide (_executable p ∈ fs w) then
      match _prepare_launcher (fs w) with
      | (Raise e, files) => (Raise e, (p1, set_fs files w))
      | (Return launcher, files) =>
          let w1 := set_fs files w in
          match cwd p with
          | PStr dir =>
              match spawn_plan w (length (procs w)) with
              | SpawnFails => (Raise OSError, (p1, w1))
              | Spawns out err =>
                  shake (length (procs w))
                    (set_proc (Some (length (procs w))) p1,
                     set_procs (procs w ++ [spawned (_executable p) launcher
                                                    cmd w dir out err]) w1)
              end
          | _ => (Raise TypeError, (p1, w1))
          end
      end
    else (Raise (UserError (not_found_message (_executable p))), (p1, w)).
Proof.
  unfold _start_new_process, path_exists, prepare_launcher, Popen. mred.
  destruct (bool_decide (_executable p ∈ fs w)); [|reflexivity]. mred.
  destruct (_prepare_launcher (fs w)) as [[launcher|e] files]; [|reflexivity].
  mred. destruct (cwd p) as [dir| |]; [|reflexivity|reflexivity]. mred.
  destruct (spawn_plan w (length (procs w))) as [|out err]; reflexivity.
Qed.

Lemma handshake_run pid p w pr :
  procs w !! pid = Some pr →
  shake pid (p, w) =
    match p_stdout pr with
    | [] => (Raise (startup_error (p_stderr pr)),
             (p, set_procs (alter (set_p_stderr []) pid (procs w)) w))
    | line :: rest =>
        let w1 := set_procs (alter (set_p_stdout rest) pid (procs w)) w in
        if decide (line = "") then
          (Raise (startup_error (p_stderr pr)),
           (p, set_procs (alter (set_p_stderr []) pid (procs w1)) w1))
        else
          match parse_message line with
          | Raise e => (Raise e, (p, w1))
          | Return ready_msg =>
              match ready_msg !! "path" with
              | None => (Raise (KeyError "path"), (p, w1))
              | Some sys_path =>
                  (Return tt,
                   (set_sys_path sys_path p,
                    set_threads (threads w ++ [mkThread ListenStdout None true;
                                               mkThread ListenStderr None true])
                      (set_events (events w ++ [("BackendReady", ready_msg)]) w1)))
              end
          end
    end.
Proof.
  intros Hpr.
  unfold handshake, stdout_readline, stderr_read, the_process, update_process,
    start_new_thread, event_generate, getitem.
  msimpl. rewrite Hpr.
  destruct (p_stdout pr) as [|line rest] eqn:Hout; msimpl.
  - rewrite decide_True by done. msimpl. by rewrite Hpr.
  - destruct (decide (line = "")) as [->|Hne]; msimpl.
    + cbn [procs set_procs]. rewrite list_lookup_alter_eq, Hpr. done.
    + destruct (parse_message line) as [ready_msg|e]; [|done].
      destruct (ready_msg !! "path") as [sys_path|]; [|done].
      cbn. rewrite <- app_assoc. done.
Qed.

Lemma map_env_alter (f : Process → Process) pid (l : list Process) :
  (∀ pr, p_env (f pr) = p_env pr) →
  map p_env (alter f pid l) = map p_env l.
Proof.
  intros Hf. revert pid. induction l as [|pr l IH]; intros [|pid]; simpl;
    try done.
  - by rewrite Hf.
  - f_equal. apply IH.
Qed.

Lemma update_process_environments pid f :
  (∀ pr, p_env (f pr) = p_env pr) →
  preserves environments (update_process pid f).
Proof.
  intros Hf [p w]. unfold update_process, environments. mred.
  by apply map_env_alter.
Qed.

Lemma the_process_environments pid : preserves environments (the_process pid).
Proof. unfold the_process. preserves_tac. Qed.

Lemma handshake_environments pid : preserves environments (shake pid).
Proof.
  unfold handshake, stdout_readline, stderr_read, start_new_thread,
    event_generate.
  preserves_tac;
    auto using the_process_environments, update_process_environments.
Qed.

(** C5 (as the code has it). The environment of a spawned child is the
    host environment in which every variable whose name contains
    [python], case ignored, is dropped without exception, [TK_LIBRARY]
    and [TCL_LIBRARY] are dropped as well, [PYTHONIOENCODING] is set to
    ASCII and [PYTHONUNBUFFERED] to 1, and the overrides of the command
    are merged in last. [_start_new_process] spawns at most one process,
    with this environment. *)
Theorem child_environment_spec (cmd : Command) (p : Proxy) (w : World) :
  (∀ name,
     child_environment cmd (environ w) !! name =
       match override cmd name with
       | Some v => Some v
       | None =>
           if decide (name = "PYTHONUNBUFFERED") then Some "1"
           else if decide (name = "PYTHONIOENCODING") then Some "ASCII"
           else if contains "python" (lower name)
                   || bool_decide (name ∈ ["TK_LIBRARY"; "TCL_LIBRARY"])
           then None
           else environ w !! name
       end)
  ∧ (∀ name, contains "python" (lower name) = true ↔ names_python name)
  ∧ (let r := start_process cmd (p, w) in
     environments r.2 = environments (p, w)
     ∨ environments r.2 =
         environments (p, w) ++ [child_environment cmd (environ w)]).
Proof.
  split; [intros name; apply child_environment_lookup|].
  split; [apply names_python_contains|].
  intros r. subst r. rewrite _start_new_process_run. cbn zeta.
  destruct (bool_decide _); [|by left].
  destruct (_prepare_launcher (fs w)) as [[launcher|e] files]; [|by left].
  destruct (cwd p) as [dir| |]; [|by left|by left].
  destruct (spawn_plan w (length (procs w))) as [|out err]; [by left|].
  right. rewrite handshake_environments.
  unfold environments. cbn [snd procs set_procs set_fs].
  by rewrite map_app.
Qed.

(** ** The handshake *)

Lemma lookup_spawned (l : list Process) (pr : Process) :
  (l ++ [pr]) !! length l = Some pr.
Proof. by rewrite list_lookup_middle. Qed.

Lemma alter_spawned (f : Process → Process) (l : list Process) pr :
  alter f (length l) (l ++ [pr]) = l ++ [f pr].
Proof.
  induction l as [|x l IH]; simpl; [done|]. f_equal. apply IH.
Qed.

(** A start that raises leaves the recorded search path alone. *)
Lemma _start_new_process_raise_sys_path cmd p w e :
  (start_process cmd (p, w)).1 = Raise e →
  _sys_path (start_process cmd (p, w)).2.1 = _sys_path p.
Proof.
  rewrite _start_new_process_run. cbn zeta.
  destruct (bool_decide _); [|done].
  destruct (_prepare_launcher (fs w)) as [[launcher|e'] files]; [|done].
  destruct (cwd p) as [dir| |]; [|done|done].
  destruct (spawn_plan w (length (procs w))) as [|out err]; [done|].
  erewrite handshake_run by (cbn [procs set_procs]; apply lookup_spawned).
  cbn [spawned p_stdout p_stderr]. destruct out as [|line rest]; [done|].
  cbn zeta. case_decide; [done|].
  destruct (parse_message line) as [ready_msg|e']; [|done].
  destruct (ready_msg !! "path"); done.
Qed.

Section Handshake.

Variable _get_private_venv_executable : World → Outcome string.

(** C7. When the executable exists, the launcher is prepared and the
    child is spawned, [_start_new_process] reads one line from the
    stdout of the child. At the end of the stream it raises an exception
    that carries the stderr content, and no listener thread is started
    and nothing is emitted. Otherwise, when the line decodes to a record
    with a [path] field, that field is what [get_sys_path] returns from
    then on, a [BackendReady] event with the record is emitted, the two
    listeners are started, and only that one line has been taken from
    the stdout of the child. [get_sys_path] is empty on a proxy that
    [__init__] has just built, and a start that raises does not change
    it. *)
Theorem handshake_outcomes (cmd : Command) (p : Proxy) (w : World)
    (launcher dir : string) (files : gset string) (out err : list string) :
  _executable p ∈ fs w →
  _prepare_launcher (fs w) = (Return launcher, files) →
  cwd p = PStr dir →
  spawn_plan w (length (procs w)) = Spawns out err →
  let r := start_process cmd (p, w) in
  match out with
  | [] =>
      r.1 = Raise (startup_error err)
      ∧ threads r.2.2 = threads w
      ∧ events r.2.2 = events w
  | line :: rest =>
      ∀ ready_msg sys_path,
        line ≠ "" →
        parse_message line = Return ready_msg →
        ready_msg !! "path" = Some sys_path →
        r.1 = Return tt
        ∧ get_sys_path r.2 = (Return sys_path, r.2)
        ∧ events r.2.2 = events w ++ [("BackendReady", ready_msg)]
        ∧ threads r.2.2 = threads w ++ [mkThread ListenStdout None true;
                                        mkThread ListenStderr None true]
        ∧ p_stdout <$> (procs r.2.2 !! length (procs w)) = Some rest
  end
  ∧ (∀ e, r.1 = Raise e → get_sys_path r.2 = (Return (_sys_path p), r.2))
  ∧ (∀ configuration_option w0 p0,
       CPythonProxy_init _get_private_venv_executable configuration_option w0
         = Return p0 →
       get_sys_path (p0, w0) = (Return (PSeq []), (p0, w0))).
Proof.
  intros Hexe Hlaunch Hcwd Hspawn r. split; [|split].
  - subst r. rewrite _start_new_process_run. cbn zeta.
    rewrite bool_decide_eq_true_2 by done. rewrite Hlaunch, Hcwd, Hspawn.
    erewrite handshake_run by (cbn [procs set_procs]; apply lookup_spawned).
    cbn [spawned p_stdout p_stderr]. destruct out as [|line rest]; [done|].
    intros ready_msg sys_path Hline Hparse Hpath. cbn zeta.
    rewrite decide_False by done. rewrite Hparse, Hpath.
    repeat split. cbn. by rewrite alter_spawned, lookup_spawned.
  - intros e He. subst r. unfold get_sys_path, gets. cbn beta.
    by rewrite (_start_new_process_raise_sys_path cmd p w e He).
  - intros opt w0 p0 Hinit. unfold CPythonProxy_init in Hinit.
    destruct (if decide (opt = DEFAULT_CPYTHON_INTERPRETER) then _ else _);
      [|done].
    by inversion Hinit.
Qed.

End Handshake.

End Start.

(** C5, as stated, fails: [TK_LIBRARY] does not contain [python] and is
    not overridden, yet the child does not get it. *)
Lemma tk_library_dropped :
  environ sample_world !! "TK_LIBRARY" = Some "/opt/tk"
  ∧ ¬ names_python "TK_LIBRARY"
  ∧ override (toplevel "Reset") "TK_LIBRARY" = None
  ∧ child_environment (toplevel "Reset") (environ sample_world) !! "TK_LIBRARY"
    = None.
Proof.
  split; [by vm_compute|]. split.
  - rewrite <- names_python_contains. by vm_compute.
  - split; by vm_compute.
Qed.

(** ** The stdout listener *)

Section ListenStdout.

Variable parse_message : string → Outcome Message.

Local Abbreviation listen := (_listen_stdout parse_message).

Lemma enqueue_queue p m q :
  _message_queue p = Some q → _message_queue (enqueue p m) = Some (q ++ [m]).
Proof. intros H. unfold enqueue. destruct (m !! "cwd"); cbn; by rewrite H. Qed.

Lemma enqueue_proc p m : _proc (enqueue p m) = _proc p.
Proof. unfold enqueue. by destruct (m !! "cwd"). Qed.

Lemma foldl_enqueue_queue msgs p q :
  _message_queue p = Some q →
  _message_queue (foldl enqueue p msgs) = Some (q ++ msgs).
Proof.
  revert p q. induction msgs as [|m msgs IH]; intros p q H; simpl.
  - by rewrite app_nil_r.
  - rewrite (IH _ (q ++ [m])) by by apply enqueue_queue.
    by rewrite <- app_assoc.
Qed.

Lemma with_stdout_lookup pid rest w pr :
  procs w !! pid = Some pr →
  procs (with_stdout pid rest w) !! pid = Some (set_p_stdout rest pr).
Proof.
  intros H. unfold with_stdout. cbn. by rewrite list_lookup_alter_eq, H.
Qed.

(** One round of the loop on a line that decodes. *)
Lemma _listen_stdout_round fuel p w pid pr line rest m q :
  _proc p = Some pid → procs w !! pid = Some pr →
  p_stdout pr = line :: rest → line ≠ "" →
  parse_message line = Return m → _message_queue p = Some q →
  listen (S fuel) (p, w) = listen fuel (enqueue p m, with_stdout pid rest w).
Proof.
  intros Hp Hpr Hout Hline Hparse Hq. cbn [_listen_stdout].
  unfold _listen_stdout_read, _listen_stdout_handle, stdout_readline,
    the_process, update_process.
  mred. rewrite Hp. mred. rewrite Hpr. mred. rewrite Hout. mred.
  rewrite decide_False by done. mred. rewrite Hparse. mred.
  unfold enqueue, with_stdout.
  destruct (m !! "cwd") as [dir|]; mred; rewrite Hq; reflexivity.
Qed.

(** One round on a line that does not decode: the exception leaves the
    loop, with the line consumed. *)
Lemma _listen_stdout_bad fuel p w pid pr line rest e :
  _proc p = Some pid → procs w !! pid = Some pr →
  p_stdout pr = line :: rest → line ≠ "" →
  parse_message line = Raise e →
  listen (S fuel) (p, w) = (Raise e, (p, with_stdout pid rest w)).
Proof.
  intros Hp Hpr Hout Hline Hparse. cbn [_listen_stdout].
  unfold _listen_stdout_read, _listen_stdout_handle, stdout_readline,
    the_process, update_process.
  mred. rewrite Hp. mred. rewrite Hpr. mred. rewrite Hout. mred.
  rewrite decide_False by done. mred. by rewrite Hparse.
Qed.

(** One round at the end of the stream: the loop ends. *)
Lemma _listen_stdout_eof fuel p w pid pr :
  _proc p = Some pid → procs w !! pid = Some pr → p_stdout pr = [] →
  listen (S fuel) (p, w) = (Return (Some tt), (p, w)).
Proof.
  intros Hp Hpr Hout. cbn [_listen_stdout].
  unfold _listen_stdout_read, _listen_stdout_handle, stdout_readline,
    the_process.
  mred. rewrite Hp. mred. rewrite Hpr. mred. rewrite Hout. mred.
  by rewrite decide_True.
Qed.

(** The rounds on a run of lines that decode, up to a line that does
    not: the exception of the decoder ends the loop. *)
Lemma _listen_stdout_until_bad lines msgs bad post e fuel p w pid pr q :
  decode_to parse_message lines msgs →
  _proc p = Some pid → procs w !! pid = Some pr →
  p_stdout pr = lines ++ bad :: post → _message_queue p = Some q →
  bad ≠ "" → parse_message bad = Raise e →
  let r := listen (length lines + S fuel) (p, w) in
  r.1 = Raise e
  ∧ r.2.1 = foldl enqueue p msgs
  ∧ p_stdout <$> (procs r.2.2 !! pid) = Some post.
Proof.
  intros Hdec. revert p w pr q.
  induction Hdec as [|line m lines msgs [Hline Hparse] Hdec IH];
    intros p w pr q Hp Hpr Hout Hq Hbad Hraise.
  - cbn [length Nat.add foldl].
    rewrite (_listen_stdout_bad fuel p w pid pr bad post e) by done.
    cbn [fst snd]. by rewrite (with_stdout_lookup _ _ _ pr).
  - cbn [length Nat.add foldl].
    rewrite (_listen_stdout_round _ p w pid pr line (lines ++ bad :: post) m q)
      by done.
    apply (IH _ _ (set_p_stdout (lines ++ bad :: post) pr) (q ++ [m]));
      try done.
    + by rewrite enqueue_proc.
    + by apply with_stdout_lookup.
    + by apply enqueue_queue.
Qed.

(** The rounds on a stream of lines that all decode: the loop ends at
    the end of the stream. *)
Lemma _listen_stdout_all lines msgs fuel p w pid pr q :
  decode_to parse_message lines msgs →
  _proc p = Some pid → procs w !! pid = Some pr →
  p_stdout pr = lines → _message_queue p = Some q →
  let r := listen (length lines + S fuel) (p, w) in
  r.1 = Return (Some tt)
  ∧ r.2.1 = foldl enqueue p msgs
  ∧ p_stdout <$> (procs r.2.2 !! pid) = Some [].
Proof.
  intros Hdec. revert p w pr q.
  induction Hdec as [|line m lines msgs [Hline Hparse] Hdec IH];
    intros p w pr q Hp Hpr Hout Hq.
  - cbn [length Nat.add foldl].
    rewrite (_listen_stdout_eof fuel p w pid pr) by done.
    cbn [fst snd]. by rewrite Hpr, <- Hout.
  - cbn [length Nat.add foldl].
    rewrite (_listen_stdout_round _ p w pid pr line lines m q) by done.
    apply (IH _ _ (set_p_stdout lines pr) (q ++ [m])); try done.
    + by rewrite enqueue_proc.
    + by apply with_stdout_lookup.
    + by apply enqueue_queue.
Qed.

(** C4 (as the code has it). The stdout listener decodes and enqueues
    the lines in the order it reads them. A line that does not decode
    ends the loop with the exception of the decoder: the events of the
    lines before it are in the queue, in order, and no later line is
    read or enqueued. When every line decodes, all of them are enqueued
    in order and the loop ends at the end of the stream. *)
Theorem listener_stops_at_undecodable_line (p : Proxy) (w : World)
    (pid : nat) (pr : Process) (q : list Message)
    (lines : list string) (msgs : list Message)
    (bad : string) (post : list string) (e : Exn) (fuel : nat) :
  _proc p = Some pid → procs w !! pid = Some pr →
  _message_queue p = Some q →
  decode_to parse_message lines msgs →
  let r := listen (length lines + S fuel) (p, w) in
  (p_stdout pr = lines ++ bad :: post → bad ≠ "" →
   parse_message bad = Raise e →
   r.1 = Raise e
   ∧ _message_queue r.2.1 = Some (q ++ msgs)
   ∧ p_stdout <$> (procs r.2.2 !! pid) = Some post)
  ∧ (p_stdout pr = lines →
     r.1 = Return (Some tt)
     ∧ _message_queue r.2.1 = Some (q ++ msgs)
     ∧ p_stdout <$> (procs r.2.2 !! pid) = Some []).
Proof.
  intros Hp Hpr Hq Hdec r. split.
  - intros Hout Hbad Hraise.
    destruct (_listen_stdout_until_bad lines msgs bad post e fuel p w pid pr q)
      as (H1 & H2 & H3); try done.
    fold r in H1, H2, H3. rewrite H2. by rewrite (foldl_enqueue_queue _ _ q).
  - intros Hout.
    destruct (_listen_stdout_all lines msgs fuel p w pid pr q)
      as (H1 & H2 & H3); try done.
    fold r in H1, H2, H3. rewrite H2. by rewrite (foldl_enqueue_queue _ _ q).
Qed.

End ListenStdout.

(** C4, as stated, fails: after the line that does not decode the
    listener has ended, and the valid line behind it is never enqueued;
    the consumer gets the first event only. *)
Lemma listener_ends_at_bad_line :
  let s := (busy_proxy, listening_world) in
  let r := _listen_stdout sample_parse_message 10 s in
  sample_parse_message "world" = Return (output_event "stdout" "world")
  ∧ r.1 = Raise (MalformedMessage "garbage")
  ∧ _message_queue r.2.1 = Some [output_event "stdout" "hello"]
  ∧ p_stdout <$> (procs r.2.2 !! 0) = Some ["world"]
  ∧ let t := run sample_parse_message sample_serialize_message
                 sample_prepare_launcher
                 (replicate 10 (ListenerStep 0) ++
                  [FetchNextMessage; FetchNextMessage]) s in
    t.1 = [output_event "stdout" "hello"]
    ∧ t_running <$> (threads t.2.2 !! 0) = Some false
    ∧ p_stdout <$> (procs t.2.2 !! 0) = Some ["world"].
Proof. repeat split; vm_compute; reflexivity. Qed.

(** ** Restarting the backend while a listener holds a line *)

Section Restart.

Variable parse_message : string → Outcome Message.
Variable _prepare_launcher : gset string → Outcome string * gset string.

Local Abbreviation start_process :=
  (_start_new_process parse_message _prepare_launcher).


Lemma handshake_queue pid : preserves queue_of (handshake parse_message pid).
Proof.
  unfold handshake, stdout_readline, stderr_read, the_process, update_process,
    start_new_thread, event_generate.
  preserves_tac.
Qed.

(** However it ends, [_start_new_process] leaves a fresh, empty queue:
    nothing that was queued before the start is in it. *)
Lemma _start_new_process_fresh_queue cmd s :
  queue_of (start_process cmd s).2 = Some [].
Proof.
  destruct s as [p w]. rewrite _start_new_process_run. cbn zeta.
  destruct (bool_decide _); [|done].
  destruct (_prepare_launcher (fs w)) as [[launcher|e] files]; [|done].
  destruct (cwd p) as [dir| |]; [|done|done].
  destruct (spawn_plan w (length (procs w))) as [|out err]; [done|].
  by rewrite handshake_queue.
Qed.

End Restart.

(** C8 on the code: the stdout listener of process 0 has read a line;
    Reset kills process 0 and starts process 1 with a fresh queue; the
    listener then appends the event of the old line to that queue, and
    the next [fetch_next_message] delivers it. *)
Lemma stale_event_reaches_new_queue :
  let s0 := (busy_proxy, busy_world) in
  let t := run sample_parse_message sample_serialize_message
               sample_prepare_launcher
               [ListenerStep 0; SendCommand (toplevel "Reset");
                ListenerStep 0; FetchNextMessage] s0 in
  _proc s0.1 = Some 0
  ∧ p_stdout <$> (procs s0.2 !! 0) = Some ["old output"]
  ∧ _proc t.2.1 = Some 1
  ∧ p_alive <$> (procs t.2.2 !! 0) = Some false
  ∧ p_stdout <$> (procs t.2.2 !! 1) = Some ["hello"; "done"]
  ∧ t.1 = [output_event "stdout" "old output"].
Proof. repeat split; vm_compute; reflexivity. Qed.

(** ** Quoting and the shell-style parser *)

Lemma safe_char_plain c :
  is_safe_char c = true →
  in_string c shlex_whitespace = false ∧ in_string c shlex_quotes = false
  ∧ in_string c shlex_escape = false.
Proof.
  destruct c as [[] [] [] [] [] [] [] []]; vm_compute; intros H;
    (discriminate H || done).
Qed.

(** A plain character inside a word is added to the token. *)
Lemma read_tokens_word_char c rest e q tok :
  in_string c shlex_whitespace = false → in_string c shlex_quotes = false →
  in_string c shlex_escape = false →
  read_tokens (String c rest) "a" e q tok =
    read_tokens rest "a" e q (tok +:+ String c "").
Proof.
  intros Hw Hq He. cbn [read_tokens].
  rewrite (decide_False (P := "a"%char = " "%char)) by done.
  change (in_string "a" shlex_quotes) with false.
  change (in_string "a" shlex_escape) with false.
  cbn match. by rewrite Hw, Hq, He.
Qed.

(** A plain character after a blank starts a token. *)
Lemma read_tokens_first_char c rest e q tok :
  in_string c shlex_whitespace = false → in_string c shlex_quotes = false →
  in_string c shlex_escape = false →
  read_tokens (String c rest) " " e q tok =
    read_tokens rest "a" e q (String c "").
Proof.
  intros Hw Hq He. cbn [read_tokens].
  rewrite (decide_True (P := " "%char = " "%char)) by done.
  by rewrite Hw, Hq, He.
Qed.

Lemma read_tokens_safe_word w rest q tok :
  all_safe w = true →
  read_tokens (w +:+ rest) "a" " " q tok = read_tokens rest "a" " " q (tok +:+ w).
Proof.
  revert tok. induction w as [|c w IH]; intros tok Hsafe.
  - by rewrite append_nil_l, append_nil_r.
  - cbn [all_safe] in Hsafe. apply andb_true_iff in Hsafe as [Hc Hw].
    destruct (safe_char_plain c Hc) as (H1 & H2 & H3).
    rewrite append_cons, read_tokens_word_char by done.
    rewrite IH by done. by rewrite append_assoc.
Qed.

Lemma read_tokens_open_squote rest e q tok :
  read_tokens (String squote rest) " " e q tok = read_tokens rest squote e q tok.
Proof. reflexivity. Qed.

Lemma read_tokens_close_squote rest e q tok :
  read_tokens (String squote rest) squote e q tok = read_tokens rest "a" e true tok.
Proof. reflexivity. Qed.

(** Inside single quotes every other character is taken as it is. *)
Lemma read_tokens_in_squote c rest e q tok :
  c ≠ squote →
  read_tokens (String c rest) squote e q tok =
    read_tokens rest squote e true (tok +:+ String c "").
Proof.
  intros Hc. cbn [read_tokens].
  rewrite (decide_False (P := squote = " "%char)) by done.
  change (in_string squote shlex_quotes) with true.
  change (in_string squote shlex_escapedquotes) with false.
  cbn match. rewrite decide_False by done. by rewrite andb_false_r.
Qed.

(** The five characters that stand for a single quote. *)
Lemma read_tokens_escaped_squote rest e q tok :
  read_tokens (String squote (String dquote (String squote (String dquote
                 (String squote rest))))) squote e q tok =
    read_tokens rest squote e true (tok +:+ String squote "").
Proof. reflexivity. Qed.

Lemma read_tokens_quoted_body w rest q tok :
  read_tokens (escape_squotes w +:+ String squote rest) squote " " q tok =
    read_tokens rest "a" " " true (tok +:+ w).
Proof.
  revert q tok. induction w as [|c w IH]; intros q tok.
  - cbn [escape_squotes]. by rewrite append_nil_l, append_nil_r.
  - cbn [escape_squotes]. destruct (decide (c = squote)) as [->|Hc].
    + rewrite !append_cons, read_tokens_escaped_squote, IH.
      by rewrite append_assoc.
    + rewrite append_cons, read_tokens_in_squote, IH by done.
      by rewrite append_assoc.
Qed.


(** Reading a quoted word leaves the lexer inside a token that is the
    word. *)
Lemma read_tokens_quote w rest :
  read_tokens (quote w +:+ rest) " " " " false "" =
    read_tokens rest "a" " " (quoted_form w) w.
Proof.
  unfold quote, quoted_form.
  destruct (decide (w = "")) as [->|Hw]; [reflexivity|].
  rewrite bool_decide_eq_false_2 by done. cbn [orb].
  destruct (all_safe w) eqn:Hsafe; cbn [negb].
  - destruct w as [|c w]; [done|].
    cbn [all_safe] in Hsafe. apply andb_true_iff in Hsafe as [Hc Hsafe].
    destruct (safe_char_plain c Hc) as (H1 & H2 & H3).
    rewrite append_cons, read_tokens_first_char by done.
    by rewrite read_tokens_safe_word.
  - rewrite append_cons, append_assoc, append_cons, append_nil_l.
    rewrite read_tokens_open_squote. by rewrite read_tokens_quoted_body.
Qed.

Lemma quoted_form_emits w :
  negb (bool_decide (w = "")) || quoted_form w = true.
Proof. unfold quoted_form. by destruct (bool_decide (w = "")). Qed.

Lemma read_tokens_words w q others :
  negb (bool_decide (w = "")) || q = true →
  read_tokens (join_strings (map (λ word, " " +:+ quote word) others))
              "a" " " q w = Return (w :: others).
Proof.
  revert w q. induction others as [|o others IH]; intros w q Hemit.
  - cbn. unfold final_token.
    destruct q; [done|]. rewrite orb_false_r in Hemit.
    by rewrite negb_true_iff in Hemit; rewrite Hemit.
  - cbn [map join_strings foldr].
    change (foldr String.append "" ?l) with (join_strings l).
    rewrite append_assoc.
    change (" " +:+ ?x) with (String " " x).
    cbn [read_tokens].
    rewrite (decide_False (P := "a"%char = " "%char)) by done.
    change (in_string "a" shlex_quotes) with false.
    change (in_string "a" shlex_escape) with false.
    change (in_string " " shlex_whitespace) with true.
    cbn match. rewrite Hemit.
    rewrite read_tokens_quote, (IH o) by apply quoted_form_emits. done.
Qed.

(** The parser gives back the words that [quote] has written. *)
Lemma shlex_split_words_text words :
  shlex_split (words_text words) = Return words.
Proof.
  destruct words as [|w others]; [reflexivity|].
  unfold shlex_split, words_text.
  rewrite read_tokens_quote. apply read_tokens_words, quoted_form_emits.
Qed.

(** ** [execute_script] *)

Lemma foldl_quote_arguments (arguments : list string) (line : string) :
  foldl (λ line arg, line +:+ (" " +:+ quote arg)) line arguments =
    line +:+ join_strings (map (λ word, " " +:+ quote word) arguments).
Proof.
  revert line. induction arguments as [|arg arguments IH]; intros line.
  - by rewrite append_nil_r.
  - cbn [foldl map join_strings foldr].
    change (foldr String.append "" ?l) with (join_strings l).
    by rewrite IH, append_assoc.
Qed.

Section ExecuteScript.

Variable relpath : string → string → Outcome string.

Local Abbreviation execute := (execute_script relpath).

(** The line that [execute_script] submits, for the prefix [start] and
    the directory [dir] that the relative path is taken from. *)
Lemma execute_script_run rn w p script_path arguments working_directory
    command_name :
  _proxy rn = Some p →
  execute script_path arguments working_directory command_name (rn, w) =
    let start :=
      match working_directory with
      | Some wd => if decide (cwd p ≠ PStr wd)
                   then (cd_instruction wd, PStr wd) else ("", cwd p)
      | None => ("", cwd p)
      end in
    match start.2 with
    | PStr dir =>
        match relpath script_path dir with
        | Return rel =>
            (Return tt,
             (rn, set_shell_submitted
                    (shell_submitted w ++
                     [start.1 +:+ main_instruction command_name rel arguments])
                    w))
        | Raise e => (Raise e, (rn, w))
        end
    | _ => (Raise TypeError, (rn, w))
    end.
Proof.
  intros Hrn. destruct rn as [o]. cbn in Hrn. subst o.
  unfold execute_script, on_runner_proxy, submit_command. mred.
  cbn [_proxy].
  set (start := match working_directory with
                | Some wd => if decide (cwd p ≠ PStr wd) then _ else _
                | None => _
                end).
  assert (Hstart : start =
    match working_directory with
    | Some wd => if decide (cwd p ≠ PStr wd)
                 then (cd_instruction wd, PStr wd) else ("", cwd p)
    | None => ("", cwd p)
    end).
  { subst start. destruct working_directory; [|done]. by case_decide. }
  clearbody start. subst start.
  match goal with |- context [match ?d with PStr _ => _ | _ => _ end] =>
    destruct d as [dir| |] end; try reflexivity.
  destruct (relpath script_path dir) as [rel|e]; [|reflexivity].
  mred. rewrite foldl_quote_arguments. unfold main_instruction, words_text.
  by rewrite !append_assoc.
Qed.

(** C6. With no working directory requested, or with the one the proxy
    is in, [execute_script] submits the main instruction alone: the
    command name and the quoted relative file name and arguments. With
    another directory it submits one directory-change instruction for
    it followed by the main instruction. The shell-style parser gives
    back the file name and the arguments from the quoted text, and the
    directory from its quoted form, whatever characters they hold. *)
Theorem execute_script_command_line (rn : Runner) (w : World) (p : Proxy)
    (current script_path : string) (arguments : list string)
    (working_directory : option string) (command_name rel : string) :
  _proxy rn = Some p → cwd p = PStr current →
  let r := execute script_path arguments working_directory command_name (rn, w) in
  (working_directory = None ∨ working_directory = Some current →
   relpath script_path current = Return rel →
   r = (Return tt,
        (rn, set_shell_submitted
               (shell_submitted w ++
                [main_instruction command_name rel arguments]) w)))
  ∧ (∀ wd, working_directory = Some wd → wd ≠ current →
       relpath script_path wd = Return rel →
       r = (Return tt,
            (rn, set_shell_submitted
                   (shell_submitted w ++
                    [cd_instruction wd +:+
                     main_instruction command_name rel arguments]) w)))
  ∧ main_instruction command_name rel arguments =
      "%" +:+ command_name +:+ " " +:+ words_text (rel :: arguments) +:+ nl
  ∧ shlex_split (words_text (rel :: arguments)) = Return (rel :: arguments)
  ∧ (∀ wd, cd_instruction wd = "%cd " +:+ words_text [wd] +:+ nl
           ∧ shlex_split (words_text [wd]) = Return [wd]).
Proof.
  intros Hrn Hcwd r. subst r.
  rewrite (execute_script_run rn w p) by done. rewrite Hcwd.
  split; [|split; [|split; [|split]]].
  - intros Hwd Hrel.
    assert (Hstart : match working_directory with
                     | Some wd => if decide (PStr current ≠ PStr wd)
                                  then (cd_instruction wd, PStr wd)
                                  else ("", PStr current)
                     | None => ("", PStr current)
                     end = ("", PStr current)).
    { destruct Hwd as [->| ->]; [done|]. by rewrite decide_False by auto. }
    rewrite Hstart. cbn [fst snd]. by rewrite Hrel.
  - intros wd -> Hne Hrel.
    rewrite decide_True by congruence. cbn [fst snd]. by rewrite Hrel.
  - done.
  - apply shlex_split_words_text.
  - intros wd. split; [|apply shlex_split_words_text].
    unfold cd_instruction, words_text. cbn [map join_strings foldr].
    by rewrite append_nil_r.
Qed.

End ExecuteScript.

(** ** The statements on the sample instance *)

Ltac concrete_event :=
  split; [eexists; vm_compute; reflexivity
         | intros _; split; eexists; vm_compute; reflexivity].

Lemma example_queue_well_formed : Forall well_formed example_queue.
Proof. repeat (constructor; [concrete_event|]). constructor. Qed.

(** C1 on the example queue: the first call merges the two stdout events. *)
Lemma fetch_next_message_coalesces_witness :
  Forall well_formed example_queue
  ∧ fetch_next_message
      (set_message_queue (Some example_queue) sample_proxy, sample_world)
    = (Return (Some (output_event "stdout" "ab")),
       (set_message_queue
          (Some [output_event "stderr" "x"; output_event "stdout" "c"])
          sample_proxy,
        sample_world)).
Proof.
  split; [apply example_queue_well_formed|].
  destruct (fetch_next_message_coalesces
              (set_message_queue (Some example_queue) sample_proxy)
              sample_world example_queue eq_refl example_queue_well_formed)
    as [[Hout _] _].
  destruct (Hout eq_refl) as [Heq _]. rewrite Heq.
  vm_compute. reflexivity.
Defined.

(** C2 on a queued result and on a program input. *)
Lemma execution_state_transitions_witness :
  (fetch_next_message (result_proxy, busy_world)).1
    = Return (Some (<["message_type" := PStr "ToplevelResult"]> ∅))
  ∧ _state (fetch_next_message (result_proxy, busy_world)).2.1
    = Some "waiting_toplevel_command"
  ∧ InputSubmission ∈ [ToplevelCommand; DebuggerCommand; InputSubmission]
  ∧ _state (send_program_input sample_parse_message sample_serialize_message
              sample_prepare_launcher "42" (result_proxy, busy_world)).2.1
    = Some "running".
Proof.
  split; [vm_compute; reflexivity|].
  assert (Hin : InputSubmission
                ∈ [ToplevelCommand; DebuggerCommand; InputSubmission])
    by (do 2 apply list_elem_of_further; apply list_elem_of_here).
  destruct (execution_state_transitions sample_parse_message
              sample_serialize_message sample_prepare_launcher
              result_proxy busy_world) as [Hfetch Hsend].
  split; [|split; [exact Hin|]].
  - destruct (fetch_next_message (result_proxy, busy_world))
      as [o [p' w']] eqn:Hf.
    assert (Ho : o = Return (Some (<["message_type" := PStr "ToplevelResult"]> ∅)))
      by (apply (f_equal fst) in Hf; vm_compute in Hf; by inversion Hf).
    subst o. destruct (Hfetch _ _ _ eq_refl) as [Htop _].
    cbn [fst snd]. apply Htop. vm_compute. reflexivity.
  - apply (Hsend (mkCommand InputSubmission None None None None None
                    (Some "42")) Hin).
Defined.

Lemma lost_interpreter_absent : _executable lost_busy_proxy ∉ fs busy_world.
Proof. intros H. apply (bool_decide_pack _) in H. by vm_compute in H. Qed.

Lemma reset_restarts : "Reset" ∈ ["Run"; "Debug"; "Reset"].
Proof. do 2 apply list_elem_of_further. apply list_elem_of_here. Qed.

Lemma busy_handle_valid : handle_valid lost_busy_proxy busy_world.
Proof. intros pid H. inversion H; subst. by eexists. Qed.

(** C3 on a proxy whose interpreter has gone: Reset raises, and the
    state is [running] afterwards. *)
Lemma interpreter_not_found_witness :
  ((_executable lost_busy_proxy ∉ fs busy_world)
   ∧ handle_valid lost_busy_proxy busy_world)
  ∧ let r := send_command sample_parse_message sample_serialize_message
               sample_prepare_launcher (toplevel "Reset")
               (lost_busy_proxy, busy_world) in
    r.1 = Raise (UserError (not_found_message "/opt/python9/bin/python"))
    ∧ _state r.2.1 = Some "running"
    ∧ threads r.2.2 = threads busy_world.
Proof.
  split; [split; [apply lost_interpreter_absent | apply busy_handle_valid]|].
  destruct (interpreter_not_found sample_parse_message
              sample_serialize_message sample_prepare_launcher
              lost_busy_proxy busy_world (toplevel "Reset") "Reset"
              eq_refl eq_refl reset_restarts lost_interpreter_absent
              busy_handle_valid)
    as (Hraise & _ & Hthreads & Hstate & _).
  cbn zeta. by repeat split.
Defined.

(** C3, as stated, fails: [get_state] returned
    [waiting_toplevel_command] before the call and returns [running]
    after it; and when the previous process had already ended, its
    handle is still there after the call. *)
Lemma interpreter_not_found_changes_state :
  let send := send_command sample_parse_message sample_serialize_message
                sample_prepare_launcher (toplevel "Reset") in
  (let s := (lost_busy_proxy, busy_world) in
   (send s).1 = Raise (UserError (not_found_message "/opt/python9/bin/python"))
   ∧ (get_state s).1 = Return (Some "waiting_toplevel_command")
   ∧ (get_state (send s).2).1 = Return (Some "running"))
  ∧ (let s := (lost_busy_proxy, ended_world) in
     (send s).1 = Raise (UserError (not_found_message "/opt/python9/bin/python"))
     ∧ _proc (send s).2.1 = Some 0).
Proof. repeat split; vm_compute; reflexivity. Qed.

(** C4 on three lines of which the second does not decode. *)
Lemma listener_stops_at_undecodable_line_witness :
  decode_to sample_parse_message ["hello"] [output_event "stdout" "hello"]
  ∧ sample_parse_message "garbage" = Raise (MalformedMessage "garbage")
  ∧ let r := _listen_stdout sample_parse_message 2
               (busy_proxy, listening_world) in
    r.1 = Raise (MalformedMessage "garbage")
    ∧ _message_queue r.2.1 = Some ([] ++ [output_event "stdout" "hello"])
    ∧ p_stdout <$> (procs r.2.2 !! 0) = Some ["world"].
Proof.
  assert (Hdec : decode_to sample_parse_message ["hello"]
                   [output_event "stdout" "hello"]).
  { constructor; [|constructor]. split; [done|]. vm_compute. reflexivity. }
  split; [exact Hdec|]. split; [vm_compute; reflexivity|].
  refine (proj1 (listener_stops_at_undecodable_line sample_parse_message
                   busy_proxy listening_world 0
                   (mkProcess ["/usr/bin/python3"] ∅ "/home/user" []
                      ["hello"; "garbage"; "world"] [] true)
                   [] ["hello"] [output_event "stdout" "hello"]
                   "garbage" ["world"] (MalformedMessage "garbage") 0
                   eq_refl eq_refl eq_refl Hdec) eq_refl _ _).
  - done.
  - vm_compute. reflexivity.
Defined.

(** C6 on a script, a directory and arguments that hold blanks and a
    quote. *)
Lemma execute_script_command_line_witness :
  let rn := mkRunner (Some sample_proxy) in
  let r := execute_script sample_relpath "my prog.py" ["it's"; "x y"]
             (Some "/tmp/work dir") "Run" (rn, sample_world) in
  sample_relpath "my prog.py" "/tmp/work dir" = Return "my prog.py"
  ∧ "/tmp/work dir" ≠ "/home/user"
  ∧ shell_submitted r.2.2 =
      [cd_instruction "/tmp/work dir" +:+
       main_instruction "Run" "my prog.py" ["it's"; "x y"]]
  ∧ shlex_split (words_text ["my prog.py"; "it's"; "x y"])
    = Return ["my prog.py"; "it's"; "x y"].
Proof.
  intros rn r.
  destruct (execute_script_command_line sample_relpath rn sample_world
              sample_proxy "/home/user" "my prog.py" ["it's"; "x y"]
              (Some "/tmp/work dir") "Run" "my prog.py" eq_refl eq_refl)
    as (_ & Hcd & _ & Hsplit & _).
  split; [reflexivity|]. split; [done|]. split; [|exact Hsplit].
  fold rn in Hcd. fold r in Hcd.
  by rewrite (Hcd "/tmp/work dir" eq_refl ltac:(done) eq_refl).
Defined.

Lemma sample_interpreter_present : _executable sample_proxy ∈ fs sample_world.
Proof. apply (bool_decide_unpack _). by vm_compute. Qed.

(** C7 on the sample child, whose first line is the handshake. *)
Lemma handshake_outcomes_witness :
  let ready := <["message_type" := PStr "BackendReady"]>
                 (<["path" := PSeq ["/usr/lib/python3"]]> ∅) in
  let r := _start_new_process sample_parse_message sample_prepare_launcher
             (toplevel "Reset") (sample_proxy, sample_world) in
  _executable sample_proxy ∈ fs sample_world
  ∧ sample_parse_message "ready" = Return ready
  ∧ r.1 = Return tt
  ∧ get_sys_path r.2 = (Return (PSeq ["/usr/lib/python3"]), r.2)
  ∧ events r.2.2 = events sample_world ++ [("BackendReady", ready)]
  ∧ threads r.2.2 = threads sample_world ++
                    [mkThread ListenStdout None true;
                     mkThread ListenStderr None true]
  ∧ p_stdout <$> (procs r.2.2 !! length (procs sample_world))
    = Some ["hello"; "done"].
Proof.
  intros ready r.
  split; [apply sample_interpreter_present|].
  split; [vm_compute; reflexivity|].
  destruct (handshake_outcomes sample_parse_message sample_prepare_launcher
              (λ _, Return "/usr/bin/python3")
              (toplevel "Reset") sample_proxy sample_world
              "/home/user/.thonny/backend/backend_launcher.py" "/home/user"
              (fs sample_world) ["ready"; "hello"; "done"] []
              sample_interpreter_present eq_refl eq_refl eq_refl)
    as (Hline & _).
  apply (Hline ready (PSeq ["/usr/lib/python3"])).
  - done.
  - vm_compute. reflexivity.
  - vm_compute. reflexivity.
Defined.

(** C9 on a proxy that never started a process. *)
Lemma fetch_without_queue_witness :
  _message_queue sample_proxy = None
  ∧ fetch_next_message (sample_proxy, sample_world)
    = (Return None, (sample_proxy, sample_world)).
Proof.
  split; [reflexivity|].
  apply (proj1 (fetch_without_queue (λ _, Return "/usr/bin/python3")
                  sample_proxy sample_world) eq_refl).
Defined.

(** C10 on the periodic tkupdate command. *)
Lemma inline_command_frame_witness :
  cmd_class (inline "tkupdate") = InlineCommand
  ∧ let r := send_command sample_parse_message sample_serialize_message
               sample_prepare_launcher (inline "tkupdate")
               (busy_proxy, busy_world) in
    r.2.1 = busy_proxy
    ∧ length (procs r.2.2) = length (procs busy_world)
    ∧ threads r.2.2 = threads busy_world.
Proof.
  split; [reflexivity|].
  destruct (inline_command_frame sample_parse_message sample_serialize_message
              sample_prepare_launcher busy_proxy busy_world
              (inline "tkupdate") eq_refl)
    as [(Hp & _ & Hlen & _ & Hth) _].
  cbn zeta. by repeat split.
Defined.

(** * Further properties of the code *)

(** Decide the tests on the class of a command. *)
Ltac decide_classes :=
  repeat match goal with
  | |- context [decide (?a = ?b)] =>
      match type of a with
      | CommandClass =>
          first [rewrite (decide_True (P := a = b)) by reflexivity
                |rewrite (decide_False (P := a = b)) by discriminate]
      end
  | |- context [bool_decide (?a ∈ ?l)] =>
      match type of a with
      | CommandClass =>
          let v := eval vm_compute in (bool_decide (a ∈ l)) in
          change (bool_decide (a ∈ l)) with v
      end
  end.

(** ** Commands that do not restart the backend *)

Section SendCommand.

Variable parse_message : string → Outcome Message.
Variable serialize_message : Command → string.
Variable _prepare_launcher : gset string → Outcome string * gset string.

Local Abbreviation send_cmd :=
  (send_command parse_message serialize_message _prepare_launcher).
Local Abbreviation start_process :=
  (_start_new_process parse_message _prepare_launcher).

(** [send_command] for a command that does not restart the backend:
    the state is set if the class asks for it, and the line is written. *)
Lemma send_command_other cmd p w :
  restarts cmd = false →
  send_cmd cmd (p, w) =
    let p1 := if sets_running cmd then set_state_field (Some "running") p
              else p in
    if command_readable cmd then
      match _proc p with
      | None => (Raise (AttributeError "stdin"), (p1, w))
      | Some pid => stdin_write pid (serialize_message cmd +:+ nl) (p1, w)
      end
    else (Raise (AttributeError "command"), (p1, w)).
Proof.
  destruct cmd as [class c f a e pa d].
  unfold restarts, sets_running, command_readable, send_command.
  cbn [cmd_class command]. intros Hre.
  destruct class, c as [c|]; decide_classes;
    rewrite ?(bool_decide_eq_true_2 (is_Some (Some _))) by eauto;
    rewrite ?(bool_decide_eq_true_2 (ToplevelCommand = ToplevelCommand)) in Hre
      by done;
    rewrite ?(bool_decide_eq_false_2 (is_Some None)) by (by intros [? ?]);
    cbn [andb] in Hre; rewrite ?Hre; cbn zeta;
    msimpl; rewrite ?_set_state_run; msimpl; cbn [_proc set_state_field];
    try reflexivity; destruct (_proc p); reflexivity.
Qed.

(** X1. Every command but Run, Debug and Reset leaves the backend in
    place: the handle, the queue, the working directory and the search
    path of the proxy are unchanged, no process is started or killed, no
    thread is started and nothing is emitted. The state becomes
    [running] for a toplevel command, a debugger command and an input
    submission. If the call returns, the world differs by the
    serialized command on the stdin of the current process; if it
    raises, the world is unchanged. *)
Theorem send_command_keeps_backend (cmd : Command) (p : Proxy) (w : World) :
  restarts cmd = false →
  let r := send_cmd cmd (p, w) in
  r.2.1 = (if sets_running cmd then set_state_field (Some "running") p else p)
  ∧ match r.1 with
    | Return _ =>
        ∃ pid pr, _proc p = Some pid ∧ procs w !! pid = Some pr
                  ∧ p_alive pr = true
                  ∧ r.2.2 = set_procs
                              (alter (set_p_stdin
                                        (p_stdin pr ++ [serialize_message cmd +:+ nl]))
                                     pid (procs w)) w
    | Raise _ => r.2.2 = w
    end
  ∧ length (procs r.2.2) = length (procs w)
  ∧ (∀ pid, p_alive <$> (procs r.2.2 !! pid) = p_alive <$> (procs w !! pid))
  ∧ threads r.2.2 = threads w
  ∧ events r.2.2 = events w.
Proof.
  intros Hre r. subst r. rewrite (send_command_other cmd p w Hre). cbn zeta.
  set (p1 := if sets_running cmd then _ else p).
  destruct (command_readable cmd); [|done].
  destruct (_proc p) as [pid|] eqn:Hp; [|done].
  rewrite stdin_write_run.
  destruct (procs w !! pid) as [pr|] eqn:Hpr; [|done].
  destruct (p_alive pr) eqn:Ha; [|done].
  cbn [fst snd procs set_procs threads events].
  split; [done|]. split; [by exists pid, pr|].
  rewrite length_alter. repeat split. intros pid'.
  apply alter_stdin_alive.
Qed.

(** X2. A command for a backend that was never started, or whose process
    was killed, fails with [AttributeError]: nothing is written and the
    world is unchanged. *)
Theorem send_command_without_process (cmd : Command) (p : Proxy) (w : World) :
  restarts cmd = false → _proc p = None →
  let r := send_cmd cmd (p, w) in
  (∃ attr, r.1 = Raise (AttributeError attr))
  ∧ r.2.2 = w
  ∧ _proc r.2.1 = None
  ∧ _message_queue r.2.1 = _message_queue p.
Proof.
  intros Hre Hp r. subst r. rewrite (send_command_other cmd p w Hre).
  cbn zeta. rewrite Hp.
  destruct (command_readable cmd), (sets_running cmd); cbn; eauto.
Qed.

End SendCommand.

(** On a proxy that [__init__] has just built, program input is
    refused and nothing changes but the state. *)
Lemma send_command_without_process_witness :
  restarts (mkCommand InputSubmission None None None None None (Some "42"))
    = false
  ∧ _proc sample_proxy = None
  ∧ (send_program_input sample_parse_message sample_serialize_message
       sample_prepare_launcher "42" (sample_proxy, sample_world)).2.2
    = sample_world.
Proof.
  split; [reflexivity|]. split; [reflexivity|].
  apply (send_command_without_process sample_parse_message
           sample_serialize_message sample_prepare_launcher
           (mkCommand InputSubmission None None None None None (Some "42"))
           sample_proxy sample_world eq_refl eq_refl).
Defined.

(** A cd command on a running backend. *)
Lemma send_command_keeps_backend_witness :
  restarts (toplevel "cd") = false
  ∧ let r := send_command sample_parse_message sample_serialize_message
               sample_prepare_launcher (toplevel "cd")
               (busy_proxy, busy_world) in
    _proc r.2.1 = Some 0
    ∧ length (procs r.2.2) = length (procs busy_world)
    ∧ threads r.2.2 = threads busy_world.
Proof.
  split; [reflexivity|].
  destruct (send_command_keeps_backend sample_parse_message
              sample_serialize_message sample_prepare_launcher
              (toplevel "cd") busy_proxy busy_world eq_refl)
    as (Hp & _ & Hlen & _ & Hth & _).
  cbn zeta. rewrite Hp. by repeat split.
Defined.

(** ** Killing the current process *)

Lemma kill_current_process_run p w :
  handle_valid p w →
  kill_current_process (p, w) =
    (Return tt,
     match running_process p w with
     | Some pid => (set_message_queue None (set_proc None p),
                    set_procs (alter (set_p_alive false) pid (procs w)) w)
     | None => (p, w)
     end).
Proof.
  intros Hvalid. unfold running_process.
  destruct (_proc p) as [pid|] eqn:Hp.
  - destruct (Hvalid pid Hp) as [pr Hpr]. rewrite Hpr.
    destruct (p_alive pr) eqn:Ha.
    + by apply (kill_current_process_live p w pid pr).
    + by apply (kill_current_process_finished p w pid pr).
  - by apply kill_current_process_none.
Qed.

(** X3. [kill_current_process] does not raise. Afterwards the proxy holds
    no running process, and a second call changes nothing. A process
    that was running is marked ended, and the handle and the queue are
    dropped; a process that had ended by itself, with its handle and
    the queue, is left as it was. No other process, no thread and no
    other field of the proxy is touched. *)
Theorem kill_current_process_effect (p : Proxy) (w : World) :
  handle_valid p w →
  let r := kill_current_process (p, w) in
  r.1 = Return tt
  ∧ running_process r.2.1 r.2.2 = None
  ∧ kill_current_process r.2 = (Return tt, r.2)
  ∧ match running_process p w with
    | Some pid =>
        _proc r.2.1 = None ∧ _message_queue r.2.1 = None
        ∧ p_alive <$> (procs r.2.2 !! pid) = Some false
    | None => r.2 = (p, w)
    end
  ∧ (∀ pid, _proc p ≠ Some pid → procs r.2.2 !! pid = procs w !! pid)
  ∧ _state r.2.1 = _state p ∧ cwd r.2.1 = cwd p
  ∧ _sys_path r.2.1 = _sys_path p
  ∧ threads r.2.2 = threads w.
Proof.
  intros Hvalid r. subst r. rewrite (kill_current_process_run p w Hvalid).
  cbn [fst snd].
  destruct (running_process p w) as [pid|] eqn:Hrun.
  - unfold running_process in Hrun.
    destruct (_proc p) as [pid'|] eqn:Hp; [|done].
    destruct (procs w !! pid') as [pr|] eqn:Hpr; [|done].
    destruct (p_alive pr) eqn:Ha; [|done]. inversion Hrun; subst pid'.
    cbn [fst snd procs set_procs threads _proc _message_queue _state cwd
         _sys_path set_proc set_message_queue].
    repeat split; try done.
    + by rewrite list_lookup_alter_eq, Hpr.
    + intros pid' Hne. rewrite list_lookup_alter_ne; [done|congruence].
  - cbn [fst snd]. repeat split; try done.
    unfold kill_current_process, poll_is_None, the_process. mred.
    unfold running_process in Hrun.
    destruct (_proc p) as [pid|] eqn:Hp; [|done]. mred.
    destruct (procs w !! pid) as [pr|] eqn:Hpr.
    + mred. destruct (p_alive pr); [done|reflexivity].
    + destruct (Hvalid pid Hp) as [? ?]. congruence.
Qed.

(** Killing the running process 0 of the sample world. *)
Lemma kill_current_process_effect_witness :
  handle_valid busy_proxy busy_world
  ∧ let r := kill_current_process (busy_proxy, busy_world) in
    r.1 = Return tt ∧ kill_current_process r.2 = (Return tt, r.2).
Proof.
  assert (Hvalid : handle_valid busy_proxy busy_world).
  { intros pid H. inversion H; subst. by eexists. }
  split; [exact Hvalid|].
  destruct (kill_current_process_effect busy_proxy busy_world Hvalid)
    as (H1 & _ & H3 & _).
  by split.
Defined.

(** ** One backend process at a time *)

Lemma lookup_map_alive (l : list Process) pid :
  map p_alive l !! pid = p_alive <$> (l !! pid).
Proof.
  revert pid. induction l as [|pr l IH]; intros [|pid]; simpl; done.
Qed.

Lemma map_alive_alter (f : Process → Process) pid (l : list Process) :
  (∀ pr, p_alive (f pr) = p_alive pr) →
  map p_alive (alter f pid l) = map p_alive l.
Proof.
  intros Hf. revert pid. induction l as [|pr l IH]; intros [|pid]; simpl;
    try done.
  - by rewrite Hf.
  - f_equal. apply IH.
Qed.

(** The invariant depends on the handle and on the flags only. *)
Lemma backend_invariant_liveness s s' :
  liveness s' = liveness s → backend_invariant s → backend_invariant s'.
Proof.
  unfold liveness. intros Heq [Hvalid Halive].
  inversion Heq as [[Hproc Hflags]].
  assert (Hlook : ∀ pid, p_alive <$> (procs s'.2 !! pid)
                         = p_alive <$> (procs s.2 !! pid)).
  { intros pid. by rewrite <- !lookup_map_alive, Hflags. }
  split.
  - intros pid Hp. rewrite Hproc in Hp. destruct (Hvalid pid Hp) as [pr Hpr].
    specialize (Hlook pid). rewrite Hpr in Hlook.
    destruct (procs s'.2 !! pid); [eauto|done].
  - intros pid pr Hpr Ha. rewrite Hproc.
    specialize (Hlook pid). rewrite Hpr in Hlook. cbn in Hlook.
    destruct (procs s.2 !! pid) as [pr0|] eqn:Hpr0; [|done].
    apply (Halive pid pr0 Hpr0). cbn in Hlook. congruence.
Qed.

Lemma update_process_liveness pid f :
  (∀ pr, p_alive (f pr) = p_alive pr) →
  preserves liveness (update_process pid f).
Proof.
  intros Hf [p w]. unfold update_process, liveness. mred.
  by rewrite map_alive_alter.
Qed.

Lemma the_process_liveness pid : preserves liveness (the_process pid).
Proof. unfold the_process. preserves_tac. Qed.

Lemma stdin_write_liveness pid text : preserves liveness (stdin_write pid text).
Proof.
  unfold stdin_write.
  preserves_tac; auto using the_process_liveness, update_process_liveness.
Qed.

Lemma stdout_readline_liveness pid : preserves liveness (stdout_readline pid).
Proof.
  unfold stdout_readline.
  preserves_tac; auto using the_process_liveness, update_process_liveness.
Qed.

Lemma stderr_readline_liveness pid : preserves liveness (stderr_readline pid).
Proof.
  unfold stderr_readline.
  preserves_tac; auto using the_process_liveness, update_process_liveness.
Qed.

Lemma stderr_read_liveness pid : preserves liveness (stderr_read pid).
Proof.
  unfold stderr_read.
  preserves_tac; auto using the_process_liveness, update_process_liveness.
Qed.

Lemma _set_state_liveness state : preserves liveness (_set_state state).
Proof. unfold _set_state. preserves_tac. Qed.

Lemma fetch_next_message_liveness : preserves liveness fetch_next_message.
Proof.
  unfold fetch_next_message, _fetch_next_message.
  preserves_tac; auto using _set_state_liveness.
Qed.

Section OneBackend.

Variable parse_message : string → Outcome Message.
Variable serialize_message : Command → string.
Variable _prepare_launcher : gset string → Outcome string * gset string.

Local Abbreviation send_cmd :=
  (send_command parse_message serialize_message _prepare_launcher).
Local Abbreviation start_process :=
  (_start_new_process parse_message _prepare_launcher).
Local Abbreviation run_schedule :=
  (run parse_message serialize_message _prepare_launcher).

Lemma handshake_liveness pid : preserves liveness (handshake parse_message pid).
Proof.
  unfold handshake, start_new_thread, event_generate.
  preserves_tac; auto using stdout_readline_liveness, stderr_read_liveness.
Qed.

Lemma _listen_stdout_read_liveness : preserves liveness _listen_stdout_read.
Proof.
  unfold _listen_stdout_read. preserves_tac.
  apply stdout_readline_liveness.
Qed.

Lemma _listen_stdout_handle_liveness line :
  preserves liveness (_listen_stdout_handle parse_message line).
Proof. unfold _listen_stdout_handle. preserves_tac. Qed.

Lemma _listen_stderr_read_liveness : preserves liveness _listen_stderr_read.
Proof.
  unfold _listen_stderr_read. preserves_tac.
  apply stderr_readline_liveness.
Qed.

Lemma thread_step_liveness i s :
  liveness (thread_step parse_message i s) = liveness s.
Proof.
  unfold thread_step.
  destruct (threads s.2 !! i) as [th|]; [|done].
  destruct (t_running th); [|done].
  destruct (t_pending th) as [line|], (t_target th);
    match goal with
    | |- context [match (?m s).1 with _ => _ end] =>
        let H := fresh in
        assert (H : liveness (m s).2 = liveness s);
        [|destruct (m s) as [[?|?] [? ?]]; exact H]
    end.
  - apply _listen_stdout_handle_liveness.
  - done.
  - apply _listen_stdout_read_liveness.
  - apply _listen_stderr_read_liveness.
Qed.

End OneBackend.

Lemma hoare_bind {A B} (P Q R : St → Prop) (m : M St A) (k : A → M St B) :
  hoare P m Q → (∀ a, hoare Q (k a) R) → (∀ s, Q s → R s) →
  hoare P (m ≫= k) R.
Proof.
  intros Hm Hk Hraise s HP. unfold mbind, M_bind, bind.
  specialize (Hm s HP). destruct (m s) as [[a|e] s1]; cbn [snd] in Hm.
  - by apply Hk.
  - by apply Hraise.
Qed.

Lemma hoare_preserves {A X} (f : St → X) (P : St → Prop) (m : M St A) :
  preserves f m → (∀ s s', f s' = f s → P s → P s') → hoare P m P.
Proof. intros Hm HP s Hs. by apply (HP s), Hs. Qed.

Lemma all_ended_invariant s :
  handle_valid s.1 s.2 → all_ended s.2 → backend_invariant s.
Proof.
  intros Hvalid Hended. split; [done|]. intros pid pr Hpr Ha.
  rewrite (Hended pid pr Hpr) in Ha. done.
Qed.

(** After [kill_current_process] no process runs. *)
Lemma kill_current_process_ends_all :
  hoare backend_invariant kill_current_process
        (λ s, handle_valid s.1 s.2 ∧ all_ended s.2).
Proof.
  intros [p w] [Hvalid Halive]. cbn [fst snd] in *.
  rewrite (kill_current_process_run p w Hvalid). cbn [snd].
  unfold running_process.
  destruct (_proc p) as [pid|] eqn:Hp.
  - destruct (Hvalid pid Hp) as [pr Hpr]. rewrite Hpr.
    destruct (p_alive pr) eqn:Ha; unfold all_ended, handle_valid;
      cbn [fst snd procs set_procs _proc set_proc set_message_queue].
    + split; [by intros ? ?|]. intros pid' pr' Hpr' .
      destruct (decide (pid = pid')) as [<-|Hne].
      * rewrite list_lookup_alter_eq, Hpr in Hpr'. by inversion Hpr'.
      * rewrite list_lookup_alter_ne in Hpr' by done.
        destruct (p_alive pr') eqn:Ha'; [|done].
        specialize (Halive pid' pr' Hpr' Ha'). cbn in Halive. congruence.
    + split; [done|]. intros pid' pr' Hpr'.
      destruct (p_alive pr') eqn:Ha'; [|done].
      specialize (Halive pid' pr' Hpr' Ha'). cbn in Halive.
      rewrite Hp in Halive. inversion Halive; subst. congruence.
  - split; [done|]. intros pid' pr' Hpr'.
    destruct (p_alive pr') eqn:Ha'; [|done].
    specialize (Halive pid' pr' Hpr' Ha'). cbn in Halive. congruence.
Qed.

Section OneBackendInvariant.

Variable parse_message : string → Outcome Message.
Variable serialize_message : Command → string.
Variable _prepare_launcher : gset string → Outcome string * gset string.

Local Abbreviation send_cmd :=
  (send_command parse_message serialize_message _prepare_launcher).
Local Abbreviation start_process :=
  (_start_new_process parse_message _prepare_launcher).
Local Abbreviation run_schedule :=
  (run parse_message serialize_message _prepare_launcher).

(** When no process runs, a start leaves at most the new one running,
    and the proxy holds it. *)
Lemma _start_new_process_invariant cmd :
  hoare (λ s, handle_valid s.1 s.2 ∧ all_ended s.2) (start_process cmd)
        backend_invariant.
Proof.
  intros [p w] [Hvalid Hended]. cbn [fst snd] in *.
  rewrite _start_new_process_run. cbn zeta.
  destruct (bool_decide _); [|by apply all_ended_invariant].
  destruct (_prepare_launcher (fs w)) as [[launcher|e] files];
    [|by apply all_ended_invariant].
  destruct (cwd p) as [dir| |]; [|by apply all_ended_invariant..].
  destruct (spawn_plan w (length (procs w))) as [|out err];
    [by apply all_ended_invariant|].
  eapply backend_invariant_liveness; [apply handshake_liveness|].
  split.
  - intros pid Hp. cbn in Hp. inversion Hp; subst. cbn.
    rewrite lookup_spawned. eauto.
  - intros pid pr Hpr Ha. cbn in Hpr |- *.
    destruct (decide (pid < length (procs w))) as [Hlt|Hge].
    + rewrite lookup_app_l in Hpr by done.
      rewrite (Hended pid pr Hpr) in Ha. done.
    + apply lookup_lt_Some in Hpr. rewrite length_app in Hpr. cbn in Hpr.
      f_equal. lia.
Qed.

Lemma restarts_true cmd :
  restarts cmd = true →
  cmd_class cmd = ToplevelCommand
  ∧ ∃ c, command cmd = Some c ∧ c ∈ ["Run"; "Debug"; "Reset"].
Proof.
  unfold restarts. intros H. apply andb_true_iff in H as [H1 H2].
  apply bool_decide_eq_true in H1. split; [done|].
  destruct (command cmd) as [c|]; [|done].
  apply bool_decide_eq_true in H2. eauto.
Qed.

(** [send_command] keeps the invariant, whatever the command and
    however the call ends. *)
Lemma send_command_invariant cmd :
  hoare backend_invariant (send_cmd cmd) backend_invariant.
Proof.
  assert (Hlive : ∀ s s', liveness s' = liveness s →
                          backend_invariant s → backend_invariant s')
    by apply backend_invariant_liveness.
  destruct (restarts cmd) eqn:Hre.
  - destruct (restarts_true cmd Hre) as (Hclass & c & Hc & Hin).
    intros [p w] Hinv. rewrite (send_command_restart _ _ _ cmd c) by done.
    revert Hinv. generalize (p, w). clear p w.
    apply (hoare_bind _ backend_invariant); [| |done].
    { apply (hoare_preserves liveness); [apply _set_state_liveness|done]. }
    intros _.
    apply (hoare_bind _ (λ s, handle_valid s.1 s.2 ∧ all_ended s.2));
      [apply kill_current_process_ends_all| |by intros s []; apply all_ended_invariant].
    intros _.
    apply (hoare_bind _ backend_invariant);
      [apply _start_new_process_invariant| |done].
    intros _.
    apply (hoare_preserves liveness); [|done].
    preserves_tac. apply stdin_write_liveness.
  - intros [p w] Hinv. rewrite (send_command_other _ _ _ cmd p w Hre).
    cbn zeta.
    assert (Hp1 : backend_invariant
                    (if sets_running cmd
                     then set_state_field (Some "running") p else p, w)).
    { apply (Hlive (p, w)); [|done]. by destruct (sets_running cmd). }
    destruct (command_readable cmd); [|done].
    assert (Hproc : _proc (if sets_running cmd
                           then set_state_field (Some "running") p else p)
                    = _proc p) by by destruct (sets_running cmd).
    destruct (_proc p) as [pid|]; [|done].
    eapply Hlive; [apply stdin_write_liveness|done].
Qed.

(** X4. Along every schedule of commands, fetches, kills and listener
    steps, the handle of the proxy names a process and no process but
    that one is running; so two processes are never running at once. *)
Theorem one_backend_at_a_time (schedule : list Action) (s : St) :
  backend_invariant s →
  let s' := (run_schedule schedule s).2 in
  backend_invariant s'
  ∧ ∀ pid1 pid2 pr1 pr2,
      procs s'.2 !! pid1 = Some pr1 → procs s'.2 !! pid2 = Some pr2 →
      p_alive pr1 = true → p_alive pr2 = true → pid1 = pid2.
Proof.
  intros Hinv s'. assert (Hinv' : backend_invariant s').
  { subst s'. revert s Hinv.
    induction schedule as [|a schedule IH]; intros s Hinv; [done|].
    cbn [run snd]. apply IH. destruct a as [i|cmd| |]; cbn [perform snd].
    - eapply backend_invariant_liveness; [apply thread_step_liveness|done].
    - by apply send_command_invariant.
    - eapply backend_invariant_liveness;
        [apply fetch_next_message_liveness|done].
    - destruct (kill_current_process_ends_all s Hinv).
      by apply all_ended_invariant. }
  split; [done|]. intros pid1 pid2 pr1 pr2 H1 H2 Ha1 Ha2.
  destruct Hinv' as [_ Halive].
  pose proof (Halive pid1 pr1 H1 Ha1) as E1.
  pose proof (Halive pid2 pr2 H2 Ha2) as E2. congruence.
Qed.

End OneBackendInvariant.

Lemma busy_backend_invariant : backend_invariant (busy_proxy, busy_world).
Proof.
  split.
  - intros pid H. inversion H; subst. by eexists.
  - intros [|pid] pr Hpr Ha; [done|]. by destruct pid.
Qed.

(** The invariant along a schedule with two restarts. *)
Lemma one_backend_at_a_time_witness :
  backend_invariant (busy_proxy, busy_world)
  ∧ backend_invariant
      (run sample_parse_message sample_serialize_message
         sample_prepare_launcher
         [SendCommand (toplevel "Run"); ListenerStep 1; FetchNextMessage;
          SendCommand (toplevel "Reset"); KillCurrentProcess]
         (busy_proxy, busy_world)).2.
Proof.
  split; [apply busy_backend_invariant|].
  apply (one_backend_at_a_time sample_parse_message sample_serialize_message
           sample_prepare_launcher _ _ busy_backend_invariant).
Defined.

(** ** A restart that succeeds *)

Section Restarted.

Variable parse_message : string → Outcome Message.
Variable serialize_message : Command → string.
Variable _prepare_launcher : gset string → Outcome string * gset string.

Local Abbreviation send_cmd :=
  (send_command parse_message serialize_message _prepare_launcher).
Local Abbreviation start_process :=
  (_start_new_process parse_message _prepare_launcher).

(** The start and the write of [send_command] when everything works:
    the world gains the new process, with the command on its stdin and
    the handshake line taken from its stdout, the two listeners and the
    [BackendReady] event. *)
Lemma start_and_write cmd p w launcher files dir line rest err ready_msg
    sys_path :
  _executable p ∈ fs w →
  _prepare_launcher (fs w) = (Return launcher, files) →
  cwd p = PStr dir →
  spawn_plan w (length (procs w)) = Spawns (line :: rest) err →
  line ≠ "" → parse_message line = Return ready_msg →
  ready_msg !! "path" = Some sys_path →
  (start_process cmd;;
   proc ← gets (λ s, _proc s.1);
   match proc with
   | None => raise (AttributeError "stdin")
   | Some pid => stdin_write pid (serialize_message cmd +:+ nl)
   end) (p, w) =
    (Return tt,
     (mkProxy (_executable p) (cwd p) (Some (length (procs w))) (_state p)
              (Some []) sys_path,
      mkWorld (environ w) files
        (procs w ++
         [mkProcess (child_cmd_line (_executable p) launcher cmd)
                    (child_environment cmd (environ w)) dir
                    [serialize_message cmd +:+ nl] rest err true])
        (spawn_plan w)
        (threads w ++ [mkThread ListenStdout None true;
                       mkThread ListenStderr None true])
        (events w ++ [("BackendReady", ready_msg)])
        (shell_submitted w) (run_working_directory w) (home w))).
Proof.
  intros Hexe Hlaunch Hcwd Hspawn Hline Hparse Hpath.
  assert (Hstart := _start_new_process_run parse_message _prepare_launcher
                      cmd p w).
  cbn zeta in Hstart.
  rewrite bool_decide_eq_true_2, Hlaunch, Hcwd, Hspawn in Hstart by done.
  erewrite handshake_run in Hstart
    by (cbn [procs set_procs]; apply lookup_spawned).
  cbn [spawned p_stdout p_stderr] in Hstart. cbn zeta in Hstart.
  rewrite decide_False, Hparse, Hpath in Hstart by done.
  rewrite (bind_Return _ _ _ _ _ Hstart). clear Hstart.
  unfold gets. msimpl. cbn [_proc set_sys_path set_proc].
  rewrite stdin_write_run.
  cbn [procs set_procs set_threads set_events set_fs].
  rewrite alter_spawned, lookup_spawned.
  cbn [p_alive set_p_stdout]. rewrite alter_spawned.
  reflexivity.
Qed.

(** X5. When the interpreter exists, the launcher is prepared, the child
    is spawned and its first line decodes to a record with a [path],
    [send_command] with Run, Debug or Reset returns and leaves: the
    state [running]; a fresh empty queue; the search path of the
    handshake; the new process as the current one, started with the
    interpreter, the flags -u and -B, the launcher and the file name and
    arguments of the command, in the working directory of the proxy,
    with the serialized command as the only line on its stdin; the
    process that was current before marked ended; and every other
    process as it was. *)
Theorem restart_succeeds (cmd : Command) (c : string) (p : Proxy) (w : World)
    (launcher dir line : string) (files : gset string)
    (rest err : list string) (ready_msg : Message) (sys_path : pyval) :
  cmd_class cmd = ToplevelCommand → command cmd = Some c →
  c ∈ ["Run"; "Debug"; "Reset"] →
  handle_valid p w →
  _executable p ∈ fs w →
  _prepare_launcher (fs w) = (Return launcher, files) →
  cwd p = PStr dir →
  spawn_plan w (length (procs w)) = Spawns (line :: rest) err →
  line ≠ "" → parse_message line = Return ready_msg →
  ready_msg !! "path" = Some sys_path →
  let r := send_cmd cmd (p, w) in
  let pid := length (procs w) in
  r.1 = Return tt
  ∧ r.2.1 = mkProxy (_executable p) (cwd p) (Some pid) (Some "running")
                    (Some []) sys_path
  ∧ procs r.2.2 !! pid =
      Some (mkProcess
              ([_executable p; "-u"; "-B"; launcher] ++
               match filename cmd with
               | Some f => f :: default [] (args cmd)
               | None => []
               end)
              (child_environment cmd (environ w)) dir
              [serialize_message cmd +:+ nl] rest err true)
  ∧ length (procs r.2.2) = S pid
  ∧ (∀ old pr, procs w !! old = Some pr →
       ∃ pr', procs r.2.2 !! old = Some pr'
              ∧ p_alive pr' = (if decide (_proc p = Some old) then false
                               else p_alive pr)
              ∧ set_p_alive true pr' = set_p_alive true pr)
  ∧ threads r.2.2 = threads w ++ [mkThread ListenStdout None true;
                                  mkThread ListenStderr None true]
  ∧ events r.2.2 = events w ++ [("BackendReady", ready_msg)].
Proof.
  intros Hclass Hc Hin Hvalid Hexe Hlaunch Hcwd Hspawn Hline Hparse Hpath r pid.
  subst r pid. rewrite (send_command_restart _ _ _ cmd c) by done.
  rewrite (bind_Return _ _ _ _ _ (_set_state_run _ _ _)).
  set (p1 := set_state_field (Some "running") p).
  assert (Hvalid1 : handle_valid p1 w) by done.
  rewrite (bind_Return _ _ _ _ _ (kill_current_process_run p1 w Hvalid1)).
  change (running_process p1 w) with (running_process p w).
  assert (Hargs : ∀ launcher,
            child_cmd_line (_executable p) launcher cmd =
            [_executable p; "-u"; "-B"; launcher] ++
            match filename cmd with
            | Some f => f :: default [] (args cmd)
            | None => []
            end).
  { intros l. unfold child_cmd_line. by destruct (filename cmd), (args cmd). }
  destruct (running_process p w) as [pid0|] eqn:Hrun.
  - unfold running_process in Hrun.
    destruct (_proc p) as [pid'|] eqn:Hp; [|done].
    destruct (procs w !! pid') as [pr0|] eqn:Hpr0; [|done].
    destruct (p_alive pr0) eqn:Ha0; [|done]. inversion Hrun; subst pid'.
    erewrite (start_and_write cmd _ _ launcher files dir line rest err);
      cbn [procs set_procs fs spawn_plan]; rewrite ?length_alter; try done.
    cbn [fst snd procs]. rewrite <- Hargs.
    cbn [_executable cwd _state set_message_queue set_proc p1
         set_state_field environ threads events set_procs].
    assert (Hlen : length (alter (set_p_alive false) pid0 (procs w))
                   = length (procs w)) by apply length_alter.
    split; [done|]. split; [done|].
    split; [rewrite <- Hlen; apply lookup_spawned|].
    split; [by rewrite length_app, Hlen; cbn; lia|].
    split; [|done]. intros old pr Hold.
    rewrite lookup_app_l
      by (rewrite Hlen; by apply lookup_lt_Some in Hold).
    destruct (decide (Some pid0 = Some old)) as [Heq|Hne].
    + inversion Heq; subst old. rewrite list_lookup_alter_eq, Hold.
      eexists. split; [reflexivity|]. by destruct pr.
    + rewrite list_lookup_alter_ne by congruence. rewrite Hold. eauto.
  - erewrite (start_and_write cmd _ _ launcher files dir line rest err);
      try done.
    cbn [fst snd procs]. rewrite <- Hargs.
    cbn [_executable cwd _state p1 set_state_field].
    split; [done|]. split; [done|]. split; [apply lookup_spawned|].
    split; [by rewrite length_app; cbn; lia|].
    split; [|done]. intros old pr Hold.
    rewrite lookup_app_l by by apply lookup_lt_Some in Hold.
    rewrite Hold. eexists. split; [reflexivity|]. split; [|done].
    case_decide as Heq; [|done].
    unfold running_process in Hrun. rewrite Heq, Hold in Hrun.
    by destruct (p_alive pr).
Qed.

End Restarted.

(** A Reset while process 0 of the sample world runs. *)
Lemma restart_succeeds_witness :
  let r := send_command sample_parse_message sample_serialize_message
             sample_prepare_launcher (toplevel "Reset")
             (busy_proxy, busy_world) in
  (handle_valid busy_proxy busy_world
   ∧ _executable busy_proxy ∈ fs busy_world)
  ∧ r.1 = Return tt
  ∧ r.2.1 = mkProxy "/usr/bin/python3" (PStr "/home/user") (Some 1)
                    (Some "running") (Some []) (PSeq ["/usr/lib/python3"])
  ∧ length (procs r.2.2) = 2.
Proof.
  intros r.
  assert (Hvalid : handle_valid busy_proxy busy_world)
    by apply busy_backend_invariant.
  split; [split; [exact Hvalid|apply sample_interpreter_present]|].
  assert (Hin : "Reset" ∈ ["Run"; "Debug"; "Reset"])
    by (apply list_elem_of_further, list_elem_of_further, list_elem_of_here).
  assert (Hline : "ready" ≠ "") by done.
  destruct (restart_succeeds sample_parse_message sample_serialize_message
              sample_prepare_launcher (toplevel "Reset") "Reset"
              busy_proxy busy_world
              "/home/user/.thonny/backend/backend_launcher.py" "/home/user"
              "ready" (fs busy_world) ["hello"; "done"] []
              (<["message_type" := PStr "BackendReady"]>
                 (<["path" := PSeq ["/usr/lib/python3"]]> ∅))
              (PSeq ["/usr/lib/python3"])
              eq_refl eq_refl Hin Hvalid sample_interpreter_present
              eq_refl eq_refl eq_refl Hline)
    as (H1 & H2 & _ & H4 & _).
  - vm_compute. reflexivity.
  - vm_compute. reflexivity.
  - split; [exact H1|]. split; [exact H2|exact H4].
Defined.

(** ** The queue only shrinks *)

Lemma merge_output_suffix msg q :
  ∃ k, (merge_output msg q).2 = drop k q.
Proof.
  revert msg. induction q as [|next q IH]; intros msg; [by exists 0|].
  cbn [merge_output].
  assert (Hpop : ∃ k, q = drop k (next :: q)) by by exists 1.
  assert (Hkeep : ∃ k, next :: q = drop k (next :: q)) by by exists 0.
  destruct (getitem next "message_type") as [ty|]; [|done].
  case_decide; [|done].
  destruct (getitem next "stream_name"); [|done].
  destruct (getitem msg "stream_name"); [|done].
  case_decide; [|done].
  destruct (getitem msg "data"); [|done].
  destruct (getitem next "data"); [|done].
  destruct (py_add _ _); [|done].
  destruct (IH (<["data" := a3]> msg)) as [k Hk]. exists (S k). by rewrite Hk.
Qed.

Lemma bind_tail_preserves {A B X} (f : St → X) (m : M St A) (k : A → M St B) s :
  (∀ a, preserves f (k a)) → f ((m ≫= k) s).2 = f (m s).2.
Proof.
  intros Hk. unfold mbind, M_bind, bind.
  destruct (m s) as [[a|e] s1]; [apply Hk|done].
Qed.

Lemma _fetch_next_message_queue p w q :
  _message_queue p = Some q →
  ∃ k, queue_of (_fetch_next_message (p, w)).2 = Some (drop k q)
       ∧ (q ≠ [] → 0 < k).
Proof.
  intros Hq. unfold _fetch_next_message, queue_of. mred. rewrite Hq.
  destruct q as [|msg rest]; [by exists 0|]. mred.
  destruct (getitem msg "message_type") as [ty|e];
    [|exists 1; split; [done|lia]].
  case_decide; [|exists 1; split; [done|lia]].
  destruct (merge_output_suffix msg rest) as [k Hk]. mred.
  exists (S k). split; [|lia].
  destruct (merge_output msg rest) as [[m|e] q']; cbn [fst snd] in *;
    by rewrite Hk.
Qed.

Lemma fetch_next_message_tail_queue m :
  preserves queue_of
    (match m with
     | None => ret None
     | Some m =>
         ty ← lift_outcome (getitem m "message_type");
         (if decide (ty = PStr "ToplevelResult") then
            _set_state "waiting_toplevel_command"
          else if decide (ty = PStr "DebuggerProgress") then
            _set_state "waiting_debug_command"
          else if decide (ty = PStr "InputRequest") then
            _set_state "waiting_input"
          else ret tt);;
         ret (Some m)
     end).
Proof. unfold _set_state. preserves_tac. Qed.

(** X6. [fetch_next_message] never adds to the queue and never touches the
    world. On a queue that is not empty it removes the front event, and
    maybe more, whether it returns or raises; an event without a
    [message_type] is dropped with a [KeyError]. *)
Theorem fetch_next_message_shrinks (p : Proxy) (w : World) (q : list Message) :
  _message_queue p = Some q →
  let r := fetch_next_message (p, w) in
  r.2.2 = w
  ∧ (∃ k, _message_queue r.2.1 = Some (drop k q) ∧ (q ≠ [] → 0 < k))
  ∧ (∀ msg rest, q = msg :: rest → msg !! "message_type" = None →
       r.1 = Raise (KeyError "message_type")
       ∧ _message_queue r.2.1 = Some rest).
Proof.
  intros Hq r. subst r. split; [|split].
  - assert (H : preserves (λ s : St, s.2) fetch_next_message).
    { unfold fetch_next_message, _fetch_next_message, _set_state.
      preserves_tac. }
    apply (H (p, w)).
  - destruct (_fetch_next_message_queue p w q Hq) as (k & Hk & Hpos).
    exists k. split; [|done]. rewrite <- Hk.
    unfold fetch_next_message.
    apply (bind_tail_preserves queue_of), fetch_next_message_tail_queue.
  - intros msg rest -> Hty.
    unfold fetch_next_message, _fetch_next_message, getitem. mred.
    rewrite Hq. mred. by rewrite Hty.
Qed.

(** A queue whose front event has no type. *)
Lemma fetch_next_message_shrinks_witness :
  let p := set_message_queue
             (Some [<["data" := PStr "x"]> ∅; output_event "stdout" "a"])
             sample_proxy in
  _message_queue p
    = Some [<["data" := PStr "x"]> ∅; output_event "stdout" "a"]
  ∧ (fetch_next_message (p, sample_world)).1 = Raise (KeyError "message_type")
  ∧ _message_queue (fetch_next_message (p, sample_world)).2.1
    = Some [output_event "stdout" "a"].
Proof.
  intros p. split; [reflexivity|].
  destruct (fetch_next_message_shrinks p sample_world _ eq_refl)
    as (_ & _ & Hdrop).
  apply (Hdrop _ _ eq_refl). vm_compute. reflexivity.
Defined.

(** ** Coalescing *)

Lemma after_run_length msg q : length (after_run msg q) ≤ length q.
Proof.
  induction q as [|next q IH]; simpl; [done|].
  destruct (same_stream msg next); simpl; lia.
Qed.

Lemma coalesce_upto_enough n m q :
  length q ≤ n → length q ≤ m → coalesce_upto n q = coalesce_upto m q.
Proof.
  revert m q. induction n as [|n IH]; intros m q Hn Hm.
  - destruct q; [|simpl in Hn; lia]. by destruct m.
  - destruct q as [|msg rest]; [by destruct m|].
    destruct m as [|m]; [simpl in Hm; lia|]. simpl in Hn, Hm.
    cbn [coalesce_upto]. pose proof (after_run_length msg rest).
    destruct (bool_decide (is_output msg)); f_equal; apply IH; lia.
Qed.

Lemma coalesce_cons msg rest :
  coalesce (msg :: rest) =
    if bool_decide (is_output msg)
    then merged msg (leading_run msg rest) :: coalesce (after_run msg rest)
    else msg :: coalesce rest.
Proof.
  unfold coalesce. cbn [length coalesce_upto].
  destruct (bool_decide (is_output msg)); [|done].
  f_equal. apply coalesce_upto_enough; [apply after_run_length|done].
Qed.

Lemma join_strings_app (l1 l2 : list string) :
  join_strings (l1 ++ l2) = join_strings l1 +:+ join_strings l2.
Proof.
  induction l1 as [|x l1 IH]; [done|].
  cbn [app join_strings foldr].
  change (foldr String.append "" ?l) with (join_strings l).
  by rewrite IH, append_assoc.
Qed.

Lemma stream_text_cons stream m q :
  stream_text stream (m :: q) =
    (if on_stream stream m then payload m else "") +:+ stream_text stream q.
Proof.
  unfold stream_text. rewrite filter_cons.
  destruct (on_stream stream m); by case_decide.
Qed.

Lemma stream_text_app stream q1 q2 :
  stream_text stream (q1 ++ q2) =
    stream_text stream q1 +:+ stream_text stream q2.
Proof.
  unfold stream_text. by rewrite filter_app, map_app, join_strings_app.
Qed.

Lemma payload_merged msg run :
  payload (merged msg run) = join_strings (payload msg :: map payload run).
Proof. unfold merged, payload at 1. by rewrite lookup_insert_eq. Qed.

Lemma on_stream_merged stream msg run :
  on_stream stream (merged msg run) = on_stream stream msg.
Proof.
  unfold on_stream, is_output, merged. by rewrite !lookup_insert_ne.
Qed.

Lemma is_output_merged msg run : is_output (merged msg run) ↔ is_output msg.
Proof. unfold is_output. by rewrite merged_message_type. Qed.

(** The events merged into an output event are on its stream. *)
Lemma leading_run_stream_text stream msg q :
  is_output msg →
  stream_text stream (leading_run msg q) =
    if on_stream stream msg then join_strings (map payload (leading_run msg q))
    else "".
Proof.
  intros Hout. induction q as [|next q IH]; cbn [leading_run].
  - by destruct (on_stream stream msg).
  - destruct (same_stream msg next) eqn:Hsame;
      [|by destruct (on_stream stream msg)].
    apply same_stream_true in Hsame as [Hnext Hstream].
    rewrite stream_text_cons, IH.
    assert (Hon : on_stream stream next = on_stream stream msg).
    { unfold on_stream. rewrite Hstream. apply bool_decide_ext. tauto. }
    rewrite Hon. by destruct (on_stream stream msg).
Qed.

Lemma leading_run_other_events msg q : other_events (leading_run msg q) = [].
Proof.
  induction q as [|next q IH]; cbn [leading_run]; [done|].
  destruct (same_stream msg next) eqn:Hsame; [|done].
  apply same_stream_true in Hsame as [Hnext _].
  unfold other_events in *. rewrite filter_cons, IH.
  by rewrite decide_False by tauto.
Qed.

Lemma coalesce_stream_text stream q :
  stream_text stream (coalesce q) = stream_text stream q.
Proof.
  remember (length q) as n eqn:Hn.
  assert (Hle : length q ≤ n) by lia. clear Hn. revert q Hle.
  induction n as [|n IH]; intros q Hle.
  - by destruct q; [|simpl in Hle; lia].
  - destruct q as [|msg rest]; [done|]. simpl in Hle.
    rewrite coalesce_cons. pose proof (after_run_length msg rest).
    destruct (bool_decide (is_output msg)) eqn:Hout.
    + apply bool_decide_eq_true in Hout.
      rewrite !stream_text_cons, on_stream_merged, payload_merged.
      rewrite IH by lia.
      rewrite <- (leading_after_run msg rest) at 3.
      rewrite stream_text_app, (leading_run_stream_text stream msg rest Hout).
      destruct (on_stream stream msg); [|done].
      cbn [join_strings foldr].
      change (foldr String.append "" ?l) with (join_strings l).
      by rewrite append_assoc.
    + rewrite !stream_text_cons. by rewrite IH by lia.
Qed.

Lemma coalesce_other_events q : other_events (coalesce q) = other_events q.
Proof.
  remember (length q) as n eqn:Hn.
  assert (Hle : length q ≤ n) by lia. clear Hn. revert q Hle.
  induction n as [|n IH]; intros q Hle.
  - by destruct q; [|simpl in Hle; lia].
  - destruct q as [|msg rest]; [done|]. simpl in Hle.
    rewrite coalesce_cons. pose proof (after_run_length msg rest).
    destruct (bool_decide (is_output msg)) eqn:Hout.
    + apply bool_decide_eq_true in Hout. unfold other_events at 1 2.
      rewrite !filter_cons.
      rewrite decide_False by (rewrite is_output_merged; tauto).
      rewrite decide_False by tauto.
      fold (other_events (coalesce (after_run msg rest))).
      fold (other_events rest). rewrite IH by lia.
      rewrite <- (leading_after_run msg rest) at 2.
      unfold other_events at 2. rewrite filter_app.
      fold (other_events (leading_run msg rest)).
      by rewrite leading_run_other_events.
    + apply bool_decide_eq_false in Hout. unfold other_events at 1 2.
      rewrite !filter_cons, !decide_True by done.
      f_equal. apply IH. lia.
Qed.

Lemma coalesce_length q : length (coalesce q) ≤ length q.
Proof.
  remember (length q) as n eqn:Hn.
  assert (Hle : length q ≤ n) by lia. rewrite Hn. clear Hn. revert q Hle.
  induction n as [|n IH]; intros q Hle.
  - by destruct q; [|simpl in Hle; lia].
  - destruct q as [|msg rest]; [done|]. simpl in Hle.
    rewrite coalesce_cons. pose proof (after_run_length msg rest).
    destruct (bool_decide (is_output msg)); cbn [length].
    + specialize (IH (after_run msg rest)). lia.
    + specialize (IH rest). lia.
Qed.

(** ** The message pump *)

Lemma fetch_next_message_empty p w :
  _message_queue p = Some [] →
  fetch_next_message (p, w) = (Return None, (p, w)).
Proof.
  intros Hq. unfold fetch_next_message, _fetch_next_message. mred.
  by rewrite Hq.
Qed.

(** The first event that [fetch_next_message] delivers from a queue of
    well-formed events, and what it leaves. *)
Lemma fetch_next_message_front p w msg rest :
  _message_queue p = Some (msg :: rest) →
  Forall well_formed (msg :: rest) →
  let m := if bool_decide (is_output msg)
           then merged msg (leading_run msg rest) else msg in
  let q := if bool_decide (is_output msg) then after_run msg rest else rest in
  fetch_next_message (p, w) =
    (Return (Some m),
     (set_state_field (state_after m (_state p)) (set_message_queue (Some q) p),
      w)).
Proof.
  intros Hq Hwf. pose proof Hwf as Hwf'.
  inversion Hwf' as [|? ? [[ty Hty] _] _]; subst.
  destruct (bool_decide (is_output msg)) eqn:Hout; cbn zeta.
  - apply bool_decide_eq_true in Hout.
    rewrite (fetch_next_message_event _ _ _
               (_fetch_next_message_output p w msg rest Hq Hwf Hout));
      [done|].
    rewrite merged_message_type, Hty. eauto.
  - apply bool_decide_eq_false in Hout.
    assert (Hne : ty ≠ PStr "ProgramOutput") by (intros ->; by apply Hout).
    rewrite (fetch_next_message_event _ _ _
               (_fetch_next_message_other p w msg rest ty Hq Hty Hne));
      [done|eauto].
Qed.

Lemma named_merged msg run : named msg → named (merged msg run).
Proof. unfold named. by rewrite merged_message_type. Qed.

Lemma after_run_Forall (P : Message → Prop) msg q :
  Forall P q → Forall P (after_run msg q).
Proof.
  intros H. rewrite <- (leading_after_run msg q) in H.
  by apply Forall_app in H as [_ H].
Qed.

Lemma pumped_world_nil w dir : pumped_world w dir [] = w.
Proof. destruct w. unfold pumped_world. cbn. by rewrite app_nil_r. Qed.

Lemma pumped_proxy_nil p : _message_queue p = Some [] → pumped_proxy p [] = p.
Proof. destruct p. unfold pumped_proxy. cbn. by intros ->. Qed.

Lemma pumped_world_cons w dir m delivered :
  pumped_world
    (set_run_working_directory dir
       (set_events (events w ++ [(event_name m, m)]) w)) dir delivered
  = pumped_world w dir (m :: delivered).
Proof.
  unfold pumped_world.
  cbn [environ fs procs spawn_plan threads events shell_submitted
       run_working_directory home set_run_working_directory set_events map].
  rewrite <- app_assoc. cbn [app].
  rewrite (decide_False (P := m :: delivered = [])) by done.
  by destruct (decide (delivered = [])).
Qed.

(** The pump on a queue of well-formed, named events: it delivers the
    coalesced events in order and ends with an empty queue. *)
Lemma _poll_vm_messages_run fuel p w q dir :
  _message_queue p = Some q →
  Forall well_formed q → Forall named q →
  cwd p = PStr dir →
  length q < fuel →
  _poll_vm_messages fuel (mkRunner (Some p), w) =
    (Return (Some tt),
     (mkRunner (Some (pumped_proxy p (coalesce q))),
      pumped_world w dir (coalesce q))).
Proof.
  revert p w q. induction fuel as [|fuel IH];
    intros p w q Hq Hwf Hnamed Hcwd Hfuel; [lia|].
  cbn [_poll_vm_messages]. unfold on_runner_proxy. mred. cbn [_proxy].
  destruct q as [|msg rest].
  - rewrite (fetch_next_message_empty p w Hq). mred.
    unfold coalesce. cbn [length coalesce_upto].
    by rewrite pumped_world_nil, pumped_proxy_nil.
  - rewrite (fetch_next_message_front p w msg rest Hq Hwf). mred.
    rewrite coalesce_cons.
    set (m := if bool_decide (is_output msg) then _ else msg).
    set (q' := if bool_decide (is_output msg) then _ else rest).
    assert (Hm : named m).
    { inversion Hnamed; subst. subst m.
      destruct (bool_decide (is_output msg)); [by apply named_merged|done]. }
    assert (Hwf' : Forall well_formed q').
    { inversion Hwf; subst. subst q'.
      destruct (bool_decide (is_output msg)); [by apply after_run_Forall|done]. }
    assert (Hnamed' : Forall named q').
    { inversion Hnamed; subst. subst q'.
      destruct (bool_decide (is_output msg)); [by apply after_run_Forall|done]. }
    assert (Hlen : length q' < fuel).
    { subst q'. pose proof (after_run_length msg rest). simpl in Hfuel.
      destruct (bool_decide (is_output msg)); lia. }
    destruct Hm as [name Hname].
    rewrite decide_False
      by (intros Hempty; rewrite Hempty, lookup_empty in Hname; done).
    unfold dispatch, get_cwd, set_working_directory_option, getitem. mred.
    rewrite Hname. mred. cbn [_proxy]. mred. rewrite Hcwd. mred.
    rewrite (IH _ _ q'); try done.
    assert (Hco : (if bool_decide (is_output msg)
                   then merged msg (leading_run msg rest)
                        :: coalesce (after_run msg rest)
                   else msg :: coalesce rest) = m :: coalesce q').
    { subst m q'. by destruct (bool_decide (is_output msg)). }
    rewrite Hco. f_equal. f_equal.
    etransitivity; [|apply (pumped_world_cons w dir m (coalesce q'))].
    unfold event_name. by rewrite Hname.
Qed.

(** X7. One run of [_poll_vm_messages] on a queue of well-formed, named
    events ends, with fuel for one round more than the queue is long.
    It leaves the queue empty, the process handle and the processes,
    threads and files as they were, and the execution state where the
    delivered events lead. Each delivered event is emitted under its
    type name, and the option for the working directory is set to the
    working directory of the proxy once an event has been delivered. *)
Theorem poll_drains_queue (fuel : nat) (rn : Runner) (p : Proxy) (w : World)
    (q : list Message) (dir : string) :
  _proxy rn = Some p →
  _message_queue p = Some q →
  Forall well_formed q → Forall named q →
  cwd p = PStr dir →
  length q < fuel →
  let r := _poll_vm_messages fuel (rn, w) in
  r.1 = Return (Some tt)
  ∧ ∃ p' delivered,
      _proxy r.2.1 = Some p'
      ∧ _message_queue p' = Some []
      ∧ _proc p' = _proc p ∧ cwd p' = cwd p ∧ _sys_path p' = _sys_path p
      ∧ _state p' = state_after_all delivered (_state p)
      ∧ events r.2.2 = events w ++ map (λ m, (event_name m, m)) delivered
      ∧ length delivered ≤ length q
      ∧ (q ≠ [] → delivered ≠ [] ∧ run_working_directory r.2.2 = dir)
      ∧ (q = [] → r.2 = (rn, w))
      ∧ procs r.2.2 = procs w ∧ threads r.2.2 = threads w
      ∧ fs r.2.2 = fs w.
Proof.
  intros Hrn Hq Hwf Hnamed Hcwd Hfuel r. subst r.
  destruct rn as [o]. cbn in Hrn. subst o.
  rewrite (_poll_vm_messages_run fuel p w q dir) by done.
  split; [done|]. exists (pumped_proxy p (coalesce q)), (coalesce q).
  cbn [fst snd _proxy].
  split; [done|]. split; [done|]. split; [done|]. split; [done|].
  split; [done|]. split; [done|]. split; [done|].
  split; [apply coalesce_length|].
  split; [|split; [|done]].
  - intros Hne. destruct q as [|msg rest]; [done|]. rewrite coalesce_cons.
    unfold pumped_world. cbn [run_working_directory].
    by destruct (bool_decide (is_output msg)).
  - intros ->. unfold coalesce. cbn [length coalesce_upto].
    by rewrite pumped_world_nil, pumped_proxy_nil.
Qed.

(** X8. What one run of [_poll_vm_messages] delivers from a queue of
    well-formed, named events loses and reorders nothing: for every
    stream, the payloads of the delivered output events, joined in
    order, are the payloads of the queued output events of that stream
    joined in order; and the delivered events that are no output are
    the queued ones, unchanged and in order. *)
Theorem poll_keeps_output (fuel : nat) (rn : Runner) (p : Proxy) (w : World)
    (q : list Message) (dir : string) :
  _proxy rn = Some p →
  _message_queue p = Some q →
  Forall well_formed q → Forall named q →
  cwd p = PStr dir →
  length q < fuel →
  let r := _poll_vm_messages fuel (rn, w) in
  ∃ delivered,
    map snd (drop (length (events w)) (events r.2.2)) = delivered
    ∧ (∀ stream, stream_text stream delivered = stream_text stream q)
    ∧ other_events delivered = other_events q.
Proof.
  intros Hrn Hq Hwf Hnamed Hcwd Hfuel r. subst r.
  destruct rn as [o]. cbn in Hrn. subst o.
  rewrite (_poll_vm_messages_run fuel p w q dir) by done.
  exists (coalesce q). cbn [fst snd]. split; [|split].
  - unfold pumped_world. cbn [events]. rewrite drop_app_length.
    rewrite map_map. cbn [snd]. apply map_id.
  - intros stream. apply coalesce_stream_text.
  - apply coalesce_other_events.
Qed.

Lemma example_queue_named : Forall named example_queue.
Proof. repeat (constructor; [eexists; vm_compute; reflexivity|]). constructor. Qed.

(** The pump on the example queue of the coalescer. *)
Lemma poll_drains_queue_witness :
  let p := set_message_queue (Some example_queue) sample_proxy in
  let r := _poll_vm_messages 5 (mkRunner (Some p), sample_world) in
  (Forall well_formed example_queue ∧ Forall named example_queue)
  ∧ r.1 = Return (Some tt).
Proof.
  intros p r.
  split; [split; [apply example_queue_well_formed|apply example_queue_named]|].
  apply (poll_drains_queue 5 (mkRunner (Some p)) p sample_world example_queue
           "/home/user" eq_refl eq_refl example_queue_well_formed
           example_queue_named eq_refl).
  cbn. lia.
Defined.

Lemma poll_keeps_output_witness :
  let p := set_message_queue (Some example_queue) sample_proxy in
  let r := _poll_vm_messages 5 (mkRunner (Some p), sample_world) in
  (Forall well_formed example_queue ∧ Forall named example_queue)
  ∧ stream_text (PStr "stdout")
      (map snd (drop (length (events sample_world)) (events r.2.2)))
    = stream_text (PStr "stdout") example_queue.
Proof.
  intros p r.
  split; [split; [apply example_queue_well_formed|apply example_queue_named]|].
  destruct (poll_keeps_output 5 (mkRunner (Some p)) p sample_world
              example_queue "/home/user" eq_refl eq_refl
              example_queue_well_formed example_queue_named eq_refl)
    as (delivered & Hd & Htext & _); [cbn; lia|].
  fold p in Hd. fold r in Hd. rewrite Hd. apply Htext.
Defined.

(** ** The stderr listener *)

Lemma _listen_stderr_round fuel p w pid pr line rest :
  _proc p = Some pid → procs w !! pid = Some pr →
  p_stderr pr = line :: rest → line ≠ "" →
  _listen_stderr (S fuel) (p, w) =
    _listen_stderr fuel
      (p, set_procs (alter (set_p_stderr rest) pid (procs w)) w).
Proof.
  intros Hp Hpr Herr Hline. cbn [_listen_stderr].
  unfold _listen_stderr_read, _listen_stderr_handle, stderr_readline,
    the_process, update_process.
  mred. rewrite Hp. mred. rewrite Hpr. mred. rewrite Herr. mred.
  by rewrite bool_decide_eq_true_2.
Qed.

Lemma _listen_stderr_eof fuel p w pid pr :
  _proc p = Some pid → procs w !! pid = Some pr → p_stderr pr = [] →
  _listen_stderr (S fuel) (p, w) = (Return (Some tt), (p, w)).
Proof.
  intros Hp Hpr Herr. cbn [_listen_stderr].
  unfold _listen_stderr_read, _listen_stderr_handle, stderr_readline,
    the_process.
  mred. rewrite Hp. mred. rewrite Hpr. mred. rewrite Herr. mred.
  by rewrite bool_decide_eq_false_2 by auto.
Qed.

(** X9. [_listen_stderr] reads the stderr of the current process to its
    end and then ends. It leaves the proxy as it was, so nothing that
    the child writes to stderr reaches the message queue; it emits no
    event, and it leaves the stdout and the stdin of the process and
    every other process alone. *)
Theorem stderr_never_queued (lines : list string) (fuel : nat) (p : Proxy)
    (w : World) (pid : nat) (pr : Process) :
  _proc p = Some pid → procs w !! pid = Some pr →
  p_stderr pr = lines → Forall (λ line, line ≠ "") lines →
  let r := _listen_stderr (length lines + S fuel) (p, w) in
  r.1 = Return (Some tt)
  ∧ r.2.1 = p
  ∧ procs r.2.2 !! pid = Some (set_p_stderr [] pr)
  ∧ (∀ other, other ≠ pid → procs r.2.2 !! other = procs w !! other)
  ∧ events r.2.2 = events w ∧ threads r.2.2 = threads w.
Proof.
  revert w pr. induction lines as [|line lines IH];
    intros w pr Hp Hpr Herr Hlines r; subst r.
  - cbn [length Nat.add].
    rewrite (_listen_stderr_eof fuel p w pid pr) by done. cbn [fst snd].
    repeat split; try done. rewrite Hpr. f_equal. destruct pr. cbn in *.
    by subst.
  - cbn [length Nat.add]. inversion Hlines as [|? ? Hline Hrest]; subst.
    rewrite (_listen_stderr_round _ p w pid pr line lines) by done.
    destruct (IH (set_procs (alter (set_p_stderr lines) pid (procs w)) w)
                 (set_p_stderr lines pr)) as (H1 & H2 & H3 & H4 & H5 & H6);
      try done.
    { cbn. by rewrite list_lookup_alter_eq, Hpr. }
    repeat split; try done.
    intros other Hne. rewrite H4 by done. cbn.
    by rewrite list_lookup_alter_ne.
Qed.

(** The sample child with two lines of diagnostics. *)
Lemma stderr_never_queued_witness :
  let w := set_procs [mkProcess ["/usr/bin/python3"] ∅ "/home/user" []
                        ["out"] ["warning"; "traceback"] true] sample_world in
  let r := _listen_stderr 3 (busy_proxy, w) in
  Forall (λ line : string, line ≠ "") ["warning"; "traceback"]
  ∧ r.1 = Return (Some tt) ∧ r.2.1 = busy_proxy.
Proof.
  intros w r.
  assert (Hlines : Forall (λ line : string, line ≠ "") ["warning"; "traceback"])
    by (repeat constructor; done).
  split; [exact Hlines|].
  destruct (stderr_never_queued ["warning"; "traceback"] 0 busy_proxy w 0 _
              eq_refl eq_refl eq_refl Hlines) as (H1 & H2 & _).
  by split.
Defined.

(** ** A listener after the kill *)

Section ListenerAfterKill.

Variable parse_message : string → Outcome Message.

(** X10. Once the proxy holds neither a process nor a queue, as after a
    kill, one step ends a running stdout listener: a read fails on the
    missing process, and a line already read is dropped because there
    is no queue to append to. The step puts nothing in a queue, emits
    nothing and changes no process flag. *)
Theorem listener_ends_after_kill (i : nat) (p : Proxy) (w : World) (th : Thread) :
  _proc p = None → _message_queue p = None →
  threads w !! i = Some th → t_target th = ListenStdout →
  t_running th = true →
  let s' := thread_step parse_message i (p, w) in
  t_running <$> (threads s'.2 !! i) = Some false
  ∧ _message_queue s'.1 = None ∧ _proc s'.1 = None
  ∧ events s'.2 = events w ∧ procs s'.2 = procs w.
Proof.
  intros Hp Hq Hth Htarget Hrun s'. subst s'.
  assert (Hlt : i < length (threads w)) by by apply lookup_lt_Some in Hth.
  unfold thread_step. cbn [fst snd]. rewrite Hth, Hrun, Htarget.
  destruct (t_pending th) as [line|].
  - unfold _listen_stdout_handle.
    destruct (decide (line = "")) as [->|Hline].
    + mred. unfold set_thread. cbn.
      by rewrite list_lookup_insert_eq.
    + mred. destruct (parse_message line) as [m|e]; mred.
      * destruct (m !! "cwd"); mred; rewrite Hq; mred;
          unfold set_thread; cbn; by rewrite list_lookup_insert_eq.
      * unfold set_thread. cbn. by rewrite list_lookup_insert_eq.
  - unfold _listen_stdout_read. mred. rewrite Hp. mred.
    unfold set_thread. cbn. by rewrite list_lookup_insert_eq.
Qed.

End ListenerAfterKill.

(** The listener of the sample world after its process was killed. *)
Lemma listener_ends_after_kill_witness :
  let s := (kill_current_process (busy_proxy, busy_world)).2 in
  (_proc s.1 = None ∧ _message_queue s.1 = None)
  ∧ t_running <$> (threads (thread_step sample_parse_message 0 s).2 !! 0)
    = Some false.
Proof.
  intros s. split; [by split|].
  apply (listener_ends_after_kill sample_parse_message 0 s.1 s.2
           (mkThread ListenStdout None true) eq_refl eq_refl eq_refl eq_refl
           eq_refl).
Defined.

(** ** The runner and the shell *)

Section ExecuteScriptFrame.

Variable relpath : string → string → Outcome string.

(** X11. [execute_script] talks to the shell only. Whatever its arguments,
    it leaves the runner and its proxy as they are; when it raises, as
    it does without a proxy, with a working directory that is no string
    or when [os.path.relpath] raises, nothing is submitted and the
    world is unchanged; when it returns, the world differs by exactly
    one submitted text, which ends with a line feed. *)
Theorem execute_script_only_submits (rn : Runner) (w : World)
    (script_path : string) (arguments : list string)
    (working_directory : option string) (command_name : string) :
  let r := execute_script relpath script_path arguments working_directory
             command_name (rn, w) in
  r.2.1 = rn
  ∧ (_proxy rn = None → r.1 = Raise (AttributeError "cwd"))
  ∧ (∀ e, r.1 = Raise e → r.2.2 = w)
  ∧ (r.1 = Return tt →
     ∃ text, ends_with_nl text
             ∧ r.2.2 = set_shell_submitted (shell_submitted w ++ [text]) w).
Proof.
  intros r. subst r. destruct (_proxy rn) as [p|] eqn:Hrn.
  - rewrite (execute_script_run relpath rn w p) by done. cbn zeta.
    match goal with |- context [match ?d with PStr _ => _ | _ => _ end] =>
      destruct d as [dir| |] end; cbn [fst snd];
      try (repeat split; done).
    destruct (relpath script_path dir) as [rel|e]; cbn [fst snd];
      [|repeat split; done].
    split; [done|]. split; [done|]. split; [done|]. intros _.
    eexists. split; [|reflexivity].
    unfold main_instruction.
    match goal with
    | |- ends_with_nl (?start +:+ _) =>
        exists (start +:+ ("%" +:+ command_name +:+ " " +:+
                           words_text (rel :: arguments)))
    end.
    by rewrite !append_assoc.
  - destruct rn as [o]. cbn in Hrn. subst o.
    unfold execute_script, on_runner_proxy. mred. cbn [_proxy].
    repeat split; done.
Qed.

End ExecuteScriptFrame.

(** ** Killing the backend from the runner *)

Section KillBackend.

Variable parse_message : string → Outcome Message.
Variable serialize_message : Command → string.
Variable _prepare_launcher : gset string → Outcome string * gset string.

(** X12. When the handle of the proxy is valid and no other process runs,
    [kill_backend] returns and leaves a runner without a proxy and a
    world in which no process runs and only process flags have changed.
    After it, [get_cwd] answers the empty string, a second
    [kill_backend] does nothing, and [send_command] raises, so a new
    proxy is needed before anything is sent. *)
Theorem kill_backend_ends_backend (rn : Runner) (w : World) (p : Proxy)
    (cmd : Command) :
  _proxy rn = Some p → backend_invariant (p, w) →
  let r := kill_backend (rn, w) in
  r.1 = Return tt
  ∧ _proxy r.2.1 = None
  ∧ all_ended r.2.2
  ∧ map (set_p_alive true) (procs r.2.2) = map (set_p_alive true) (procs w)
  ∧ events r.2.2 = events w ∧ threads r.2.2 = threads w
  ∧ get_cwd r.2 = (Return (PStr ""), r.2)
  ∧ kill_backend r.2 = (Return tt, r.2)
  ∧ Runner_send_command parse_message serialize_message _prepare_launcher
      cmd r.2 = (Raise (AttributeError "send_command"), r.2).
Proof.
  intros Hrn [Hvalid Honly] r. subst r.
  assert (Hended := kill_current_process_ends_all (p, w) (conj Hvalid Honly)).
  unfold kill_backend. cbn [fst snd]. rewrite Hrn.
  rewrite (kill_current_process_run p w Hvalid) in *. cbn [fst snd] in *.
  split; [done|]. split; [done|]. split; [apply Hended|].
  assert (Hflags : ∀ pid (l : list Process),
            map (set_p_alive true) (alter (set_p_alive false) pid l)
            = map (set_p_alive true) l).
  { intros pid l. revert pid. induction l as [|pr l IH]; intros [|pid];
      cbn; try done.
    by rewrite IH. }
  split.
  { destruct (running_process p w) as [pid|]; [|done]. apply Hflags. }
  split; [by destruct (running_process p w)|].
  split; [by destruct (running_process p w)|].
  split; [reflexivity|]. split; [reflexivity|]. reflexivity.
Qed.

End KillBackend.

(** The runner of the sample world kills its running backend. *)
Lemma kill_backend_ends_backend_witness :
  let r := kill_backend (mkRunner (Some busy_proxy), busy_world) in
  backend_invariant (busy_proxy, busy_world)
  ∧ r.1 = Return tt ∧ _proxy r.2.1 = None ∧ all_ended r.2.2.
Proof.
  intros r. split; [exact busy_backend_invariant|].
  destruct (kill_backend_ends_backend sample_parse_message
              sample_serialize_message sample_prepare_launcher
              (mkRunner (Some busy_proxy)) busy_world busy_proxy
              (toplevel "Reset") eq_refl busy_backend_invariant)
    as (H1 & H2 & H3 & _).
  by split; [|split].
Defined.

(** ** Stop/Reset *)

Section StopReset.

Variable parse_message : string → Outcome Message.
Variable serialize_message : Command → string.
Variable _prepare_launcher : gset string → Outcome string * gset string.

Local Abbreviation send_cmd :=
  (send_command parse_message serialize_message _prepare_launcher).
Local Abbreviation stop_reset :=
  (cmd_stop_reset parse_message serialize_message _prepare_launcher).

(** The proxy never submits anything to the shell. *)
Lemma send_command_shell cmd :
  preserves (λ s : St, shell_submitted s.2) (send_cmd cmd).
Proof.
  unfold send_command, _set_state, kill_current_process, _start_new_process,
    handshake, path_exists, Popen, poll_is_None, proc_kill, stdout_readline,
    stderr_read, stdin_write, the_process, update_process, start_new_thread,
    event_generate.
  preserves_tac; by intros [? []].
Qed.

(** X13. [cmd_stop_reset] takes one of two routes. While the backend waits
    for a toplevel command it only submits the text of a Reset to the
    shell: the proxy, the processes and the queue stay as they are.
    In every other state it submits nothing and sends the Reset to the
    proxy itself, which leaves the state [running] however the call
    ends and keeps at most the current process running. *)
Theorem stop_reset_routes (rn : Runner) (w : World) (p : Proxy) :
  _proxy rn = Some p →
  let r := stop_reset (rn, w) in
  (_state p = Some "waiting_toplevel_command" →
   r = (Return tt,
        (rn, set_shell_submitted (shell_submitted w ++ ["%Reset" +:+ nl]) w)))
  ∧ (_state p ≠ Some "waiting_toplevel_command" →
     shell_submitted r.2.2 = shell_submitted w
     ∧ ∃ p', _proxy r.2.1 = Some p'
             ∧ _state p' = Some "running"
             ∧ (backend_invariant (p, w) → backend_invariant (p', r.2.2))).
Proof.
  intros Hrn r. subst r. destruct rn as [o]. cbn in Hrn. subst o.
  unfold cmd_stop_reset, Runner_get_state, Runner_send_command,
    on_runner_proxy, get_state, submit_command.
  mred. cbn [_proxy]. split.
  - intros Hstate. rewrite Hstate. by rewrite decide_True.
  - intros Hstate. rewrite decide_False by done. cbn [_proxy fst snd].
    set (cmd := mkCommand ToplevelCommand (Some "Reset") None None None None
                  None).
    split; [apply (send_command_shell cmd (p, w))|].
    eexists. split; [reflexivity|]. split.
    + apply (send_command_running parse_message serialize_message
               _prepare_launcher cmd (p, w)).
      apply list_elem_of_here.
    + intros Hinv.
      pose proof (send_command_invariant parse_message serialize_message
                    _prepare_launcher cmd (p, w) Hinv) as H.
      by destruct (send_cmd cmd (p, w)) as [? [? ?]].
Qed.

End StopReset.

(** Stop/Reset while process 0 of the sample world runs a program. *)
Lemma stop_reset_routes_witness :
  let r := cmd_stop_reset sample_parse_message sample_serialize_message
             sample_prepare_launcher (mkRunner (Some busy_proxy), busy_world) in
  _state busy_proxy ≠ Some "waiting_toplevel_command"
  ∧ shell_submitted r.2.2 = shell_submitted busy_world.
Proof.
  intros r. assert (Hstate : _state busy_proxy ≠ Some "waiting_toplevel_command")
    by done.
  split; [exact Hstate|].
  destruct (stop_reset_routes sample_parse_message sample_serialize_message
              sample_prepare_launcher (mkRunner (Some busy_proxy)) busy_world
              busy_proxy eq_refl) as [_ H].
  apply (H Hstate).
Defined.

(** ** The configuration text *)


Lemma split_once_first sep before after :
  in_string sep before = false →
  split_once sep (before +:+ String sep after) = (before, Some after).
Proof.
  induction before as [|c s IH]; cbn [in_string].
  - intros _. rewrite append_nil_l. cbn [split_once]. by rewrite decide_True.
  - intros H. apply orb_false_iff in H as [Hc Hs].
    apply bool_decide_eq_false in Hc.
    rewrite append_cons. cbn [split_once].
    rewrite decide_False by congruence. by rewrite IH.
Qed.


Lemma rstrip_snoc chars s c :
  chars c = true → rstrip chars (s +:+ String c "") = rstrip chars s.
Proof.
  intros Hc. induction s as [|a s IH].
  - rewrite append_nil_l. cbn [rstrip]. by rewrite Hc.
  - rewrite append_cons. cbn [rstrip]. by rewrite IH.
Qed.

Lemma rstrip_bare chars s :
  from_option chars false (last_char s) = false → rstrip chars s = s.
Proof.
  induction s as [|a s IH]; [done|]. cbn [last_char rstrip].
  destruct s as [|b s].
  - cbn. by intros ->.
  - intros H. by rewrite (IH H).
Qed.

Lemma lstrip_bare chars s :
  from_option chars false (first_char s) = false → lstrip chars s = s.
Proof. destruct s as [|a s]; [done|]. cbn. by intros ->. Qed.

Lemma strip_bare_snoc chars s c :
  bare chars s = true → chars c = true →
  strip chars (s +:+ String c "") = s.
Proof.
  unfold bare, strip. intros H Hc.
  apply andb_true_iff in H as [Hfirst Hlast].
  apply negb_true_iff in Hfirst, Hlast.
  destruct s as [|a s].
  - rewrite append_nil_l. cbn [lstrip]. by rewrite Hc.
  - rewrite lstrip_bare by (by rewrite append_cons).
    rewrite rstrip_snoc by done. by apply rstrip_bare.
Qed.








(** X14. A configuration written as line 42 writes it, a name, a space and
    the option in parentheses, is read back as that name and that
    option, provided the name is ASCII text without an opening
    parenthesis that neither starts nor ends with whitespace, and the
    option neither starts nor ends with a space or a closing
    parenthesis. The option may hold parentheses inside. *)
Theorem parse_configuration_round_trip (name option : string) :
  ascii_text name = true →
  in_string "("%char name = false →
  bare is_space name = true →
  bare space_or_paren option = true →
  parse_configuration (configuration_text name option) = (name, option).
Proof.
  intros _ Hparen Hname Hoption. unfold parse_configuration, configuration_text.
  change (name +:+ " (" +:+ option +:+ ")")
    with (name +:+ (String " " (String "(" (option +:+ ")")))).
  replace (name +:+ String " " (String "(" (option +:+ ")")))
    with ((name +:+ " ") +:+ String "(" (option +:+ ")"))
    by (by rewrite append_assoc).
  rewrite split_once_first.
  - cbn [fst snd]. by rewrite !strip_bare_snoc.
  - clear -Hparen. induction name as [|c s IH]; [done|].
    cbn [in_string] in *. apply orb_false_iff in Hparen as [Hc Hs].
    rewrite append_cons. cbn [in_string]. by rewrite Hc, IH.
Qed.

(** The default configuration of line 42 and an interpreter in a
    directory whose name has parentheses. *)
Lemma parse_configuration_round_trip_witness :
  parse_configuration "Python (default)" = ("Python", "default")
  ∧ parse_configuration
      "Python (C:\Program Files (x86)\Python 3.5\pythonw.exe)"
    = ("Python", "C:\Program Files (x86)\Python 3.5\pythonw.exe").
Proof.
  split.
  - apply (parse_configuration_round_trip "Python" "default");
      reflexivity.
  - apply (parse_configuration_round_trip "Python"
             "C:\Program Files (x86)\Python 3.5\pythonw.exe");
      reflexivity.
Defined.


(** ** A new backend *)

Lemma kill_backend_run rn w :
  runner_invariant rn w →
  ∃ l, kill_backend (rn, w) = (Return tt, (mkRunner None, set_procs l w))
       ∧ length l = length (procs w)
       ∧ all_ended (set_procs l w).
Proof.
  unfold runner_invariant. destruct rn as [[p|]]; cbn [_proxy].
  - intros [Hvalid Honly].
    assert (Hended := kill_current_process_ends_all (p, w) (conj Hvalid Honly)).
    unfold kill_backend. cbn [fst snd _proxy].
    rewrite (kill_current_process_run p w Hvalid) in *. cbn [fst snd] in *.
    destruct (running_process p w) as [pid|].
    + eexists. split; [reflexivity|]. split; [apply length_alter|].
      apply Hended.
    + exists (procs w). destruct Hended as [_ Hended].
      by destruct w.
  - intros Hended. exists (procs w). by destruct w.
Qed.

Section NewBackend.

Variable parse_message : string → Outcome Message.
Variable serialize_message : Command → string.
Variable _prepare_launcher : gset string → Outcome string * gset string.
Variable _get_private_venv_executable : World → Outcome string.

Local Abbreviation reset :=
  (reset_backend parse_message serialize_message _prepare_launcher
     _get_private_venv_executable).

(** X16. [reset_backend] with a configuration that names the backend
    [Python] and an interpreter that exists, when the launcher is
    prepared, the child is spawned and its first line decodes to a
    record with a [path]: the runner gets a new proxy for that
    interpreter, in the working directory of the workbench option if
    that exists and in the home directory otherwise, with the state
    [running], an empty queue and the search path of the handshake; its
    process is new, was started with the bare command line of a Reset
    and has the serialized Reset as the only line on its stdin; every
    process that existed before has ended; and the only event is
    [BackendReady]. *)
Theorem reset_backend_starts_fresh (rn : Runner) (w : World)
    (configuration exe launcher line : string) (files : gset string)
    (rest err : list string) (ready_msg : Message) (sys_path : pyval) :
  runner_invariant rn w →
  parse_configuration configuration = ("Python", exe) →
  exe ≠ DEFAULT_CPYTHON_INTERPRETER →
  exe ∈ fs w →
  _prepare_launcher (fs w) = (Return launcher, files) →
  spawn_plan w (length (procs w)) = Spawns (line :: rest) err →
  line ≠ "" → parse_message line = Return ready_msg →
  ready_msg !! "path" = Some sys_path →
  let r := reset configuration (rn, w) in
  let pid := length (procs w) in
  let cmd := mkCommand ToplevelCommand (Some "Reset") None None None None
               None in
  r.1 = Return tt
  ∧ _proxy r.2.1 = Some (mkProxy exe (PStr (initial_cwd w)) (Some pid)
                           (Some "running") (Some []) sys_path)
  ∧ procs r.2.2 !! pid =
      Some (mkProcess [exe; "-u"; "-B"; launcher]
              (child_environment cmd (environ w)) (initial_cwd w)
              [serialize_message cmd +:+ nl] rest err true)
  ∧ length (procs r.2.2) = S pid
  ∧ (∀ old, old < pid →
       ∃ pr, procs r.2.2 !! old = Some pr ∧ p_alive pr = false)
  ∧ events r.2.2 = events w ++ [("BackendReady", ready_msg)].
Proof.
  intros Hinv Hconf Hexe Hin Hlaunch Hspawn Hline Hparse Hpath r pid cmd.
  subst r pid.
  destruct (kill_backend_run rn w Hinv) as (l & Hkill & Hlen & Hended).
  unfold reset_backend.
  rewrite (bind_Return _ _ _ _ _ Hkill). rewrite Hconf. cbn [fst snd].
  rewrite decide_True by done.
  unfold Runner_send_command, on_runner_proxy. mred.
  unfold CPythonProxy_init. rewrite decide_False by done. mred.
  cbn [_proxy fst snd run_working_directory fs home set_procs].
  set (p0 := mkProxy exe _ None None None (PSeq [])).
  set (w1 := set_procs l w).
  assert (Hcwd : cwd p0 = PStr (initial_cwd w)).
  { subst p0. unfold initial_cwd. cbn [cwd]. by case_bool_decide. }
  rewrite (send_command_restart _ _ _ cmd "Reset" p0 w1); try done;
    [|apply list_elem_of_further, list_elem_of_further, list_elem_of_here].
  rewrite (bind_Return _ _ _ _ _ (_set_state_run _ _ _)).
  set (p1 := set_state_field (Some "running") p0).
  assert (Hvalid1 : handle_valid p1 w1) by (by intros ?).
  rewrite (bind_Return _ _ _ _ _ (kill_current_process_run p1 w1 Hvalid1)).
  change (running_process p1 w1) with (@None nat). cbn iota.
  erewrite (start_and_write parse_message serialize_message _prepare_launcher
              cmd p1 w1 launcher files (initial_cwd w) line rest err);
    try done; [|by subst w1; cbn [procs set_procs]; rewrite Hlen].
  cbn [fst snd _proxy procs events]. subst w1. cbn [procs set_procs events].
  split; [done|]. split; [by rewrite Hlen, <- Hcwd|].
  split; [rewrite <- Hlen; apply lookup_spawned|].
  split; [by rewrite length_app, Hlen; cbn; lia|].
  split; [|done]. intros old Hold.
  rewrite lookup_app_l by lia.
  destruct (lookup_lt_is_Some_2 l old) as [pr Hpr]; [lia|].
  exists pr. split; [done|]. apply (Hended old pr Hpr).
Qed.

End NewBackend.

(** The runner of the sample world replaces its running backend. *)
Lemma reset_backend_starts_fresh_witness :
  let r := reset_backend sample_parse_message sample_serialize_message
             sample_prepare_launcher (λ _, Return "/usr/bin/python3")
             "Python (/usr/bin/python3)"
             (mkRunner (Some busy_proxy), busy_world) in
  (runner_invariant (mkRunner (Some busy_proxy)) busy_world
   ∧ parse_configuration "Python (/usr/bin/python3)"
     = ("Python", "/usr/bin/python3"))
  ∧ r.1 = Return tt
  ∧ _proxy r.2.1 = Some (mkProxy "/usr/bin/python3" (PStr "/home/user")
                           (Some 1) (Some "running") (Some [])
                           (PSeq ["/usr/lib/python3"]))
  ∧ length (procs r.2.2) = 2.
Proof.
  intros r.
  assert (Hinv : runner_invariant (mkRunner (Some busy_proxy)) busy_world)
    by exact busy_backend_invariant.
  assert (Hconf : parse_configuration "Python (/usr/bin/python3)"
                  = ("Python", "/usr/bin/python3")) by reflexivity.
  split; [by split|].
  assert (Hexe : "/usr/bin/python3" ≠ DEFAULT_CPYTHON_INTERPRETER) by done.
  assert (Hline : "ready" ≠ "") by done.
  destruct (reset_backend_starts_fresh sample_parse_message
              sample_serialize_message sample_prepare_launcher
              (λ _, Return "/usr/bin/python3")
              (mkRunner (Some busy_proxy)) busy_world
              "Python (/usr/bin/python3)" "/usr/bin/python3"
              "/home/user/.thonny/backend/backend_launcher.py" "ready"
              (fs busy_world) ["hello"; "done"] []
              (<["message_type" := PStr "BackendReady"]>
                 (<["path" := PSeq ["/usr/lib/python3"]]> ∅))
              (PSeq ["/usr/lib/python3"])
              Hinv Hconf Hexe sample_interpreter_present eq_refl eq_refl
              Hline)
    as (H1 & H2 & _ & H4 & _).
  - vm_compute. reflexivity.
  - vm_compute. reflexivity.
  - assert (Hdir : initial_cwd busy_world = "/home/user").
    { unfold initial_cwd. rewrite bool_decide_eq_true_2; [done|].
      apply (bool_decide_unpack _). by vm_compute. }
    rewrite Hdir in H2.
    split; [exact H1|]. split; [exact H2|exact H4].
Defined.

(** ** From the pipe to the workbench *)

Lemma cwd_foldl_enqueue msgs p :
  cwd (foldl enqueue p msgs) = last_cwd (cwd p) msgs.
Proof.
  revert p. induction msgs as [|m msgs IH]; intros p; [done|].
  cbn [foldl last_cwd]. rewrite IH. unfold last_cwd. f_equal.
  unfold enqueue. by destruct (m !! "cwd").
Qed.

Section PipeToWorkbench.

Variable parse_message : string → Outcome Message.

Local Abbreviation listen := (_listen_stdout parse_message).

Lemma _listen_stdout_events fuel :
  preserves (λ s : St, events s.2) (listen fuel).
Proof.
  induction fuel as [|fuel IH]; cbn [_listen_stdout]; [apply preserves_ret|].
  unfold _listen_stdout_read, _listen_stdout_handle, stdout_readline,
    the_process, update_process.
  preserves_tac; try apply IH; by intros [? []].
Qed.

(** X17. What the backend writes reaches the workbench. When every line on
    the stdout of the current process decodes to a well-formed event
    with a name, and the events leave the proxy with a string as its
    working directory, the listener run to the end of the stream
    followed by one poll of the runner delivers events to the workbench
    such that, stream by stream, the text of the delivered output is
    the text that was decoded, the events that are no output are
    delivered unchanged and in order, the queue is empty again, and the
    workbench option for the working directory is the last directory
    that an event reported. *)
Theorem output_reaches_workbench (lines : list string) (msgs : list Message)
    (fuel fuel' : nat) (p : Proxy) (w : World) (pid : nat) (pr : Process)
    (dir : string) :
  decode_to parse_message lines msgs →
  Forall well_formed msgs → Forall named msgs →
  _proc p = Some pid → procs w !! pid = Some pr → p_stdout pr = lines →
  _message_queue p = Some [] →
  last_cwd (cwd p) msgs = PStr dir →
  length msgs < fuel' →
  let heard := listen (length lines + S fuel) (p, w) in
  let r := _poll_vm_messages fuel' (mkRunner (Some heard.2.1), heard.2.2) in
  heard.1 = Return (Some tt)
  ∧ r.1 = Return (Some tt)
  ∧ ∃ p' delivered,
      _proxy r.2.1 = Some p'
      ∧ _message_queue p' = Some []
      ∧ events r.2.2 = events w ++ map (λ m, (event_name m, m)) delivered
      ∧ (∀ stream, stream_text stream delivered = stream_text stream msgs)
      ∧ other_events delivered = other_events msgs
      ∧ (msgs ≠ [] → run_working_directory r.2.2 = dir).
Proof.
  intros Hdec Hwf Hnamed Hp Hpr Hout Hq Hcwd Hfuel heard r.
  destruct (_listen_stdout_all parse_message lines msgs fuel p w pid pr []
              Hdec Hp Hpr Hout Hq) as (Hret & Hproxy & _).
  assert (Hevents : events heard.2.2 = events w)
    by apply (_listen_stdout_events _ (p, w)).
  fold heard in Hret, Hproxy. split; [exact Hret|].
  subst r. rewrite Hproxy.
  rewrite (_poll_vm_messages_run fuel' _ heard.2.2 msgs dir); try done.
  - cbn [fst snd _proxy]. split; [done|].
    exists (pumped_proxy (foldl enqueue p msgs) (coalesce msgs)), (coalesce msgs).
    split; [done|]. split; [done|].
    split; [by unfold pumped_world; cbn [events]; rewrite Hevents|].
    split; [intros stream; apply coalesce_stream_text|].
    split; [apply coalesce_other_events|].
    intros Hne. destruct msgs as [|msg rest]; [done|]. rewrite coalesce_cons.
    unfold pumped_world. cbn [run_working_directory].
    by destruct (bool_decide (is_output msg)).
  - by rewrite (foldl_enqueue_queue msgs p []).
  - by rewrite cwd_foldl_enqueue.
Qed.

End PipeToWorkbench.

(** The sample child writes two lines of output and its result. *)
Lemma output_reaches_workbench_witness :
  let w := set_procs [mkProcess ["/usr/bin/python3"] ∅ "/home/user" []
                        ["hello"; "world"; "done"] [] true] sample_world in
  let heard := _listen_stdout sample_parse_message 4 (busy_proxy, w) in
  let r := _poll_vm_messages 4 (mkRunner (Some heard.2.1), heard.2.2) in
  decode_to sample_parse_message ["hello"; "world"; "done"]
    [output_event "stdout" "hello"; output_event "stdout" "world";
     <["message_type" := PStr "ToplevelResult"]> ∅]
  ∧ heard.1 = Return (Some tt) ∧ r.1 = Return (Some tt).
Proof.
  intros w heard r.
  set (msgs := [output_event "stdout" "hello"; output_event "stdout" "world";
                <["message_type" := PStr "ToplevelResult"]> ∅]).
  assert (Hdec : decode_to sample_parse_message ["hello"; "world"; "done"] msgs)
    by (repeat constructor; done).
  assert (Hwf : Forall well_formed msgs).
  { constructor; [concrete_event|]. constructor; [concrete_event|].
    constructor; [|constructor].
    split; [eexists; vm_compute; reflexivity|].
    intros H. exfalso. vm_compute in H. discriminate. }
  assert (Hnamed : Forall named msgs)
    by (repeat constructor; eexists; vm_compute; reflexivity).
  split; [exact Hdec|].
  assert (Hfuel : length msgs < 4) by (cbn; lia).
  destruct (output_reaches_workbench sample_parse_message
              ["hello"; "world"; "done"] msgs 0 4 busy_proxy w 0 _
              "/home/user" Hdec Hwf Hnamed eq_refl eq_refl eq_refl eq_refl
              eq_refl Hfuel) as (H1 & H2 & _).
  by split.
Defined.

(** ** The description of a virtual environment *)

Lemma in_string_app c s t :
  in_string c (s +:+ t) = in_string c s || in_string c t.
Proof.
  induction s as [|a s IH]; [done|]. rewrite append_cons. cbn [in_string].
  by rewrite IH, orb_assoc.
Qed.

Lemma strip_between chars c s d :
  chars c = true → chars d = true → bare chars s = true →
  strip chars (String c (s +:+ String d "")) = s.
Proof.
  intros Hc Hd Hs.
  rewrite <- (strip_bare_snoc chars s d Hs Hd) at 2.
  unfold strip. cbn [lstrip]. by rewrite Hc.
Qed.

Lemma _get_venv_info_app before after :
  _get_venv_info (before ++ after) =
    foldl (λ result line,
             if in_string "="%char line then
               let parts := split_once "="%char line in
               match parts.2 with
               | Some val =>
                   <[strip is_space parts.1 := strip is_space val]> result
               | None => result
               end
             else result)
          (_get_venv_info before) after.
Proof. unfold _get_venv_info. apply foldl_app. Qed.

Lemma cfg_line_read key val :
  in_string "="%char key = false →
  bare is_space key = true → bare is_space val = true →
  in_string "="%char (cfg_line key val) = true
  ∧ split_once "="%char (cfg_line key val) = (key +:+ " ", Some (" " +:+ val +:+ nl))
  ∧ strip is_space (key +:+ " ") = key
  ∧ strip is_space (" " +:+ val +:+ nl) = val.
Proof.
  intros Heq Hkey Hval.
  assert (Hline : cfg_line key val
                  = (key +:+ " ") +:+ String "=" (" " +:+ val +:+ nl)).
  { unfold cfg_line. by rewrite append_assoc. }
  assert (Hbefore : in_string "="%char (key +:+ " ") = false)
    by (by rewrite in_string_app, Heq).
  split; [|split; [|split]].
  - rewrite Hline, in_string_app. cbn [in_string].
    rewrite bool_decide_eq_true_2 by done. apply orb_true_r.
  - rewrite Hline. by apply split_once_first.
  - by apply strip_bare_snoc.
  - by apply (strip_between is_space " "%char val).
Qed.

Lemma foldl_insert_reverse (entries : list (string * string))
    (start : gmap string string) :
  foldl (λ result entry, <[entry.1 := entry.2]> result) start entries
  = list_to_map (reverse entries) ∪ start.
Proof.
  revert start. induction entries as [|[k v] entries IH]; intros start.
  - cbn. by rewrite (left_id_L ∅ (∪)).
  - cbn [foldl fst snd]. rewrite IH, reverse_cons, list_to_map_app.
    cbn [list_to_map foldr fst snd]. rewrite insert_empty.
    rewrite <- (assoc_L (∪)). by rewrite <- insert_union_singleton_l.
Qed.

(** X18. [_get_venv_info] on the lines of a [pyvenv.cfg]. A file that holds
    one line, key, equals sign and value, for every entry of a list is
    read back as the dictionary of that list in which the last entry of
    a key wins, provided the keys and the values are ASCII text that
    neither starts nor ends with whitespace and no key holds an equals
    sign; the values may. A line without an equals sign, wherever it
    stands, changes nothing. *)
Theorem get_venv_info_reads_back (entries : list (string * string)) :
  Forall plain_entry entries →
  _get_venv_info (map (λ entry, cfg_line entry.1 entry.2) entries)
  = list_to_map (reverse entries)
  ∧ (∀ before after line,
       in_string "="%char line = false →
       _get_venv_info (before ++ line :: after)
       = _get_venv_info (before ++ after)).
Proof.
  intros Hplain. split.
  - rewrite <- (right_id_L ∅ (∪) (list_to_map (reverse entries))).
    rewrite <- foldl_insert_reverse. unfold _get_venv_info.
    generalize (∅ : gmap string string) as start.
    induction Hplain as [|[key val] entries (Hkey & Heq & Hval) _ IH];
      intros start; [done|].
    cbn [map foldl fst snd] in *.
    apply andb_true_iff in Hkey as [_ Hkey].
    apply andb_true_iff in Hval as [_ Hval].
    destruct (cfg_line_read key val Heq Hkey Hval) as (H1 & H2 & H3 & H4).
    rewrite H1, H2. cbn zeta. cbn [fst snd]. rewrite H3, H4. apply IH.
  - intros before after line Hline.
    rewrite !_get_venv_info_app. cbn [foldl]. by rewrite Hline.
Qed.

(** A file as [venv] writes it, with the version given twice. *)
Lemma get_venv_info_reads_back_witness :
  let info := _get_venv_info
                ["home = /usr/bin" +:+ nl;
                 "include-system-site-packages = false" +:+ nl;
                 "version = 3.5.1" +:+ nl; "version = 3.5.2" +:+ nl] in
  Forall plain_entry
    [("home", "/usr/bin"); ("include-system-site-packages", "false");
     ("version", "3.5.1"); ("version", "3.5.2")]
  ∧ info !! "home" = Some "/usr/bin" ∧ info !! "version" = Some "3.5.2".
Proof.
  intros info.
  assert (Hplain : Forall plain_entry
            [("home", "/usr/bin"); ("include-system-site-packages", "false");
             ("version", "3.5.1"); ("version", "3.5.2")])
    by (repeat constructor; reflexivity).
  split; [exact Hplain|].
  destruct (get_venv_info_reads_back _ Hplain) as [Hread _].
  change (_get_venv_info _) with info in Hread. rewrite Hread.
  split; by vm_compute.
Defined.
